(** * heic-to-jpg-converter: a shallow embedding of [heic_to_jpg_converter.js]

    The script drives external tools (exiftool, ImageMagick, heif-convert,
    ffmpeg, ffprobe) to convert HEIC stills to JPEG and to extract an embedded
    motion video.  Its own logic is the orchestration: which tool is called
    with which arguments, how exit codes and probe results are interpreted,
    and how the bytes of the container are scanned.

    Modelling choices.
    - JavaScript strings are [string]s of ASCII characters.
    - JavaScript numbers are [num]: NaN, the two infinities, or a finite
      double, kept as the rational that it is.  A string is read to the
      nearest double, and sums, differences, products and quotients are
      rounded to the nearest double; the sign of a zero is not kept.
    - The outside world (child processes, the file system, [which],
      [path.resolve], [JSON.parse] of a tool's output) is a [World]: every
      answer of a process or of the file system may depend on the whole
      history of earlier calls.  Asynchronous functions become functions in
      the monad [IO], which threads that history and models rejection.
    - The JSON printed by ffprobe is taken in its documented shape
      ([Probe]): numbers for width, height, nb_streams and the disposition
      flags, strings for nb_frames, duration, tags and names.
    - [log.info], [log.warn], [log.error] and [log.debug] only write to the
      console and are left out.
    - [run] resolves on both the ['error'] and the ['close'] event of the
      child and [exists] catches the rejection of [fs.access], so neither
      rejects. *)

From Stdlib Require Import ZArith QArith Qround List String Ascii Bool Lia Lqa.
From Stdlib Require Import Sorted DecimalString.
Import ListNotations.

Local Open Scope string_scope.
Local Open Scope Z_scope.

Set Implicit Arguments.
Set Warnings "-register-all".

(* ================================================================== *)
(** * JavaScript numbers *)

Module Js.

Inductive num : Type :=
| NaN
| Inf (negative : bool)
| Fin (q : Q).

Definition of_Z (z : Z) : num := Fin (inject_Z z).

(** The integer nearest to [n / d], for [0 <= n] and [0 < d]; a tie goes to
    the even one. *)
Definition nearest_even (n d : Z) : Z :=
  let q := n / d in
  match 2 * (n mod d) ?= d with
  | Lt => q
  | Gt => q + 1
  | Eq => if Z.even q then q else q + 1
  end.

(** [m * 2 ^ e] as a rational in lowest terms. *)
Definition scaled (m e : Z) : Q :=
  if 0 <=? e then inject_Z (m * 2 ^ e)
  else Qred (Qmake m (Z.to_pos (2 ^ (- e)))).

(** The Number value of a real number: the double (53 significant bits,
    binary exponents from -1074 to 971 on an integer significand) nearest to
    it, a tie going to the even significand; a magnitude that rounds to
    2^1024 or more gives an infinity.  The sign of a zero is not kept. *)
Definition of_Q (x : Q) : num :=
  let x := Qred x in
  let n := Qnum x in
  let d := Zpos (Qden x) in
  if n =? 0 then Fin 0
  else
    let a := Z.abs n in
    (* [lg] is the integer with [2 ^ lg <= a / d < 2 ^ (lg + 1)] *)
    let k := Z.log2 a - Z.log2 d in
    let reaches := if 0 <=? k then d * 2 ^ k <=? a else d <=? a * 2 ^ (- k) in
    let lg := if reaches then k else k - 1 in
    let e := Z.max (lg - 52) (- 1074) in
    let m := if 0 <=? e then nearest_even a (d * 2 ^ e)
             else nearest_even (a * 2 ^ (- e)) d in
    if (971 <? e) || ((e =? 971) && (2 ^ 53 <=? m)) then Inf (n <? 0)
    else Fin (scaled (if n <? 0 then - m else m) e).

(** [Number.isFinite] *)
Definition isFinite (n : num) : bool :=
  match n with Fin _ => true | _ => false end.

(** [a < b], [a <= b], [a > b], [a >= b]: every comparison with NaN is
    false. *)
Definition ltb (a b : num) : bool :=
  match a, b with
  | NaN, _ | _, NaN => false
  | Inf true, Inf true => false
  | Inf true, _ => true
  | _, Inf true => false
  | Inf false, _ => false
  | _, Inf false => true
  | Fin x, Fin y => negb (Qle_bool y x)
  end.

Definition leb (a b : num) : bool :=
  match a, b with
  | NaN, _ | _, NaN => false
  | Inf true, _ => true
  | _, Inf true => false
  | _, Inf false => true
  | Inf false, _ => false
  | Fin x, Fin y => Qle_bool x y
  end.

Definition gtb (a b : num) : bool := ltb b a.
Definition geb (a b : num) : bool := leb b a.

(** [a === b] on numbers *)
Definition eqb (a b : num) : bool :=
  match a, b with
  | Fin x, Fin y => Qeq_bool x y
  | Inf s, Inf t => Bool.eqb s t
  | _, _ => false
  end.

(** Truthiness of a number: [0] and [NaN] are falsy. *)
Definition truthy (a : num) : bool :=
  match a with
  | NaN => false
  | Inf _ => true
  | Fin x => negb (Qeq_bool x 0)
  end.

(** Integer part towards zero. *)
Definition Qtrunc (x : Q) : Z := Z.quot (Qnum x) (Zpos (Qden x)).

(** [a % b]: the remainder has the sign of the dividend.  The remainder of
    two doubles is a double: nothing is rounded. *)
Definition rem (a b : num) : num :=
  match a, b with
  | Fin x, Fin y =>
      if Qeq_bool y 0 then NaN
      else Fin (x - y * inject_Z (Qtrunc (x / y)))
  | Fin x, Inf _ => Fin x
  | _, _ => NaN
  end.

Definition add (a b : num) : num :=
  match a, b with
  | Fin x, Fin y => of_Q (x + y)
  | NaN, _ | _, NaN => NaN
  | Inf s, Inf t => if Bool.eqb s t then Inf s else NaN
  | Inf s, _ | _, Inf s => Inf s
  end.

Definition sub (a b : num) : num :=
  match a, b with
  | Fin x, Fin y => of_Q (x - y)
  | NaN, _ | _, NaN => NaN
  | Inf s, Inf t => if Bool.eqb s t then NaN else Inf s
  | Inf s, _ => Inf s
  | _, Inf s => Inf (negb s)
  end.

(** [a * b] and [a / b], for finite operands and a non-zero divisor, which
    is all the script uses them on. *)
Definition mul (a b : num) : num :=
  match a, b with
  | Fin x, Fin y => of_Q (x * y)
  | _, _ => NaN
  end.

Definition div (a b : num) : num :=
  match a, b with
  | Fin x, Fin y => if Qeq_bool y 0 then NaN else of_Q (x / y)
  | _, _ => NaN
  end.

(** [Math.round]: the nearest integer, ties towards +infinity. *)
Definition round (a : num) : num :=
  match a with
  | Fin x => of_Z (Qfloor (x + (1 # 2)))
  | other => other
  end.

(** [Math.min] and [Math.max] of two numbers. *)
Definition min (a b : num) : num :=
  match a, b with
  | NaN, _ | _, NaN => NaN
  | _, _ => if ltb b a then b else a
  end.

Definition max (a b : num) : num :=
  match a, b with
  | NaN, _ | _, NaN => NaN
  | _, _ => if ltb a b then b else a
  end.

End Js.

Abbreviation num := Js.num.
Abbreviation NaN := Js.NaN.
Abbreviation Fin := Js.Fin.

(* ================================================================== *)
(** * JavaScript strings *)

Module Str.

Definition of_Z (z : Z) : string := NilZero.string_of_int (Z.to_int z).

(** Characters removed by [String.prototype.trim] (ASCII part). *)
Definition is_space (c : ascii) : bool :=
  match nat_of_ascii c with
  | 9%nat | 10%nat | 11%nat | 12%nat | 13%nat | 32%nat => true
  | _ => false
  end.

Fixpoint trim_start (s : string) : string :=
  match s with
  | String c r => if is_space c then trim_start r else s
  | EmptyString => EmptyString
  end.

Fixpoint rev_append (s acc : string) : string :=
  match s with
  | EmptyString => acc
  | String c r => rev_append r (String c acc)
  end.

Definition rev (s : string) : string := rev_append s EmptyString.

Definition trim (s : string) : string :=
  rev (trim_start (rev (trim_start s))).

(** Truthiness of a string: only the empty string is falsy. *)
Definition truthy (s : string) : bool :=
  match s with EmptyString => false | _ => true end.

(** [a || b] on strings *)
Definition or (a b : string) : string := if truthy a then a else b.

Definition lower_char (c : ascii) : ascii :=
  let n := nat_of_ascii c in
  if (Nat.leb 65 n && Nat.leb n 90)%bool then ascii_of_nat (n + 32) else c.

(** [String.prototype.toLowerCase] (ASCII part) *)
Fixpoint toLowerCase (s : string) : string :=
  match s with
  | EmptyString => EmptyString
  | String c r => String (lower_char c) (toLowerCase r)
  end.

(** [needle] occurs somewhere in [s]: an unanchored regular expression
    that is a plain word. *)
Fixpoint contains (needle s : string) : bool :=
  if String.prefix needle s then true
  else match s with
       | EmptyString => false
       | String _ r => contains needle r
       end.

(** [s] ends with [suffix]. *)
Definition endsWith (suffix s : string) : bool :=
  String.prefix (rev suffix) (rev s).

(** [Array.prototype.join] *)
Fixpoint join (sep : string) (l : list string) : string :=
  match l with
  | [] => ""
  | [x] => x
  | x :: r => x ++ sep ++ join sep r
  end.

(** [s.split(/\r?\n/)]: [cur] holds, reversed, the characters of the
    piece being read. *)
Fixpoint split_lines_aux (s : string) (cur : string) : list string :=
  match s with
  | EmptyString => [rev cur]
  | String c r =>
      if Ascii.eqb c "010" then
        let piece :=
          match cur with
          | String d cur' => if Ascii.eqb d "013" then cur' else cur
          | EmptyString => cur
          end in
        rev piece :: split_lines_aux r EmptyString
      else split_lines_aux r (String c cur)
  end.

Definition split_lines (s : string) : list string :=
  split_lines_aux s EmptyString.

End Str.


(* ================================================================== *)
(** * Conversions between strings and numbers *)

Module Conv.

Definition digit_of (radix : Z) (c : ascii) : option Z :=
  let n := Z.of_nat (nat_of_ascii c) in
  let d :=
    if (48 <=? n) && (n <=? 57) then n - 48
    else if (97 <=? n) && (n <=? 102) then n - 87
    else if (65 <=? n) && (n <=? 70) then n - 55
    else 99 in
  if d <? radix then Some d else None.

(** Reads the longest run of digits at the front of [s]: their value on top
    of [acc], how many there were, and what follows them. *)
Fixpoint read_digits (radix : Z) (s : string) (acc : Z) (count : nat)
  : Z * nat * string :=
  match s with
  | String c r =>
      match digit_of radix c with
      | Some d => read_digits radix r (radix * acc + d) (S count)
      | None => (acc, count, s)
      end
  | EmptyString => (acc, count, s)
  end.

(** The exponent part of a decimal literal, which must end the string. *)
Definition read_exponent (s : string) : option Z :=
  match s with
  | EmptyString => Some 0
  | String c r =>
      if Ascii.eqb c "e" || Ascii.eqb c "E" then
        let '(neg, r1) :=
          match r with
          | String "-" r' => (true, r')
          | String "+" r' => (false, r')
          | _ => (false, r)
          end in
        let '(v, n, rest) := read_digits 10 r1 0 0 in
        match n, rest with
        | S _, EmptyString => Some (if neg then - v else v)
        | _, _ => None
        end
      else None
  end.

Definition pow10 (e : Z) : positive := Z.to_pos (10 ^ e).

(** An unsigned decimal literal: [12], [12.], [12.5], [.5], each with an
    optional exponent. *)
Definition read_decimal (s : string) : option Q :=
  let '(ip, ni, r1) := read_digits 10 s 0 0 in
  let '(m, nf, r2) :=
    match r1 with
    | String "." r' => read_digits 10 r' ip 0
    | _ => (ip, 0%nat, r1)
    end in
  match ni, nf with
  | O, O => None
  | _, _ =>
      match read_exponent r2 with
      | None => None
      | Some e =>
          let scale := Z.of_nat nf in
          if 0 <=? e then Some (Qmake (m * 10 ^ e) (pow10 scale))
          else Some (Qmake m (pow10 (scale - e)))
      end
  end.

(** A literal in radix 16, 8 or 2, after its two-character prefix. *)
Definition read_radix (radix : Z) (s : string) : num :=
  let '(v, n, rest) := read_digits radix s 0 0 in
  match n, rest with
  | S _, EmptyString => Js.of_Q (inject_Z v)
  | _, _ => NaN
  end.

Definition read_unsigned (s : string) : num :=
  if String.eqb s "Infinity" then Js.Inf false
  else match read_decimal s with
       | Some q => Js.of_Q q
       | None => NaN
       end.

Definition negate (n : num) : num :=
  match n with
  | NaN => NaN
  | Js.Inf s => Js.Inf (negb s)
  | Fin q => Fin (- q)
  end.

(** [Number(s)] for a string [s]. *)
Definition Number (s : string) : num :=
  match Str.trim s with
  | EmptyString => Js.of_Z 0
  | String "0" (String "x" r) | String "0" (String "X" r) => read_radix 16 r
  | String "0" (String "o" r) | String "0" (String "O" r) => read_radix 8 r
  | String "0" (String "b" r) | String "0" (String "B" r) => read_radix 2 r
  | String "-" r => negate (read_unsigned r)
  | String "+" r => read_unsigned r
  | t => read_unsigned t
  end.

(** [10 ^ n] for any integer [n]. *)
Definition pow10Q (n : Z) : Q :=
  if 0 <=? n then inject_Z (10 ^ n) else Qmake 1 (Z.to_pos (10 ^ (- n))).

Definition Qlt_bool (a b : Q) : bool := negb (Qle_bool b a).

(** The position of the decimal point of [v > 0]: the [n] with
    [10 ^ (n - 1) <= v < 10 ^ n], searched upwards or downwards from [n]. *)
Fixpoint point_up (fuel : nat) (v : Q) (n : Z) : Z :=
  match fuel with
  | O => n
  | S f => if Qle_bool (pow10Q n) v then point_up f v (n + 1) else n
  end.

Fixpoint point_down (fuel : nat) (v : Q) (n : Z) : Z :=
  match fuel with
  | O => n
  | S f => if Qlt_bool v (pow10Q (n - 1)) then point_down f v (n - 1) else n
  end.

Definition point_of (v : Q) : Z :=
  if Qle_bool 1 v then point_up 400 v 1 else point_down 400 v 0.

(** The digits of [v > 0], a double: the integer [s] of the fewest digits
    [k], from [k] on, such that [s * 10 ^ (n - k)] has the Number value [v];
    of two such integers the one nearer to [v].  The result is [s] with the
    position of the decimal point, which moves by one when [s] is
    [10 ^ k]. *)
Fixpoint shortest (fuel : nat) (v : Q) (n k : Z) : Z * Z :=
  let unit := pow10Q (n - k) in
  let lo := Qfloor (v / unit)%Q in
  let hi := lo + 1 in
  let is_v (s : Z) := Js.eqb (Js.of_Q (inject_Z s * unit)%Q) (Fin v) in
  let pick (s : Z) := if s =? 10 ^ k then (10 ^ (k - 1), n + 1) else (s, n) in
  match fuel with
  | O => pick lo
  | S f =>
      match is_v lo, is_v hi with
      | true, true =>
          let below := (v - inject_Z lo * unit)%Q in
          let above := (inject_Z hi * unit - v)%Q in
          if Qlt_bool below above then pick lo
          else if Qlt_bool above below then pick hi
          else if Z.even lo then pick lo else pick hi
      | true, false => pick lo
      | false, true => pick hi
      | false, false => shortest f v n (k + 1)
      end
  end.

Fixpoint zeros (n : nat) : string :=
  match n with O => "" | S m => String "0" (zeros m) end.

(** [Number::toString] for [v > 0]: plain digits when the decimal point
    lies within 21 places to the right or 6 to the left of them, the
    exponent notation otherwise. *)
Definition positive_to_string (v : Q) : string :=
  let '(s, n) := shortest 17 v (point_of v) 1 in
  let digits := Str.of_Z s in
  let k := Z.of_nat (String.length digits) in
  if (k <=? n) && (n <=? 21) then digits ++ zeros (Z.to_nat (n - k))
  else if (0 <? n) && (n <=? 21) then
    substring 0 (Z.to_nat n) digits ++ "."
      ++ substring (Z.to_nat n) (Z.to_nat (k - n)) digits
  else if (-6 <? n) && (n <=? 0) then "0." ++ zeros (Z.to_nat (- n)) ++ digits
  else
    let e := n - 1 in
    let exponent := (if e <? 0 then "e-" else "e+") ++ Str.of_Z (Z.abs e) in
    if k =? 1 then digits ++ exponent
    else substring 0 1 digits ++ "."
           ++ substring 1 (Z.to_nat (k - 1)) digits ++ exponent.

(** [String(n)] for a number. *)
Definition String_of (n : num) : string :=
  match n with
  | NaN => "NaN"
  | Js.Inf true => "-Infinity"
  | Js.Inf false => "Infinity"
  | Fin q =>
      if Qeq_bool q 0 then "0"
      else if Qlt_bool q 0 then "-" ++ positive_to_string (- q)%Q
      else positive_to_string q
  end.

End Conv.

(* ================================================================== *)
(** * Data *)

(** What [detectTools] finds: the path of each executable, or nothing.
    [imagemagick] is [magick || convert || null]. *)
Record Tools : Type := {
  exiftool : option string;
  ffmpeg : option string;
  ffprobe : option string;
  magick : option string;
  convert : option string;
  heif_convert : option string;
  imagemagick : option string
}.

(** [if (tools.x)]: a tool is there when its entry is a non-empty string. *)
Definition present (o : option string) : option string :=
  match o with
  | Some s => if Str.truthy s then Some s else None
  | None => None
  end.

(** [a || b] on two tool entries *)
Definition tool_or (a b : option string) : option string :=
  match present a with Some s => Some s | None => b end.

(** What [run] resolves to.  [code] is [None] when the child was ended by a
    signal (Node reports the code [null]). *)
Record RunResult : Type := {
  code : option Z;
  stdout : string;
  stderr : string
}.

(** The output of ffprobe, [-print_format json]. *)
Record SideData : Type := { side_data_type : option string }.

Record Stream : Type := {
  codec_type : option string;
  s_width : option Z;
  s_height : option Z;
  nb_frames : option string;
  s_duration : option string;
  attached_pic : option Z;          (* disposition.attached_pic *)
  tags_rotate : option string;      (* tags.rotate *)
  side_data_list : option (list SideData)
}.

Record Format : Type := {
  format_name : option string;
  nb_streams : option Z;
  f_duration : option string
}.

Record Probe : Type := {
  format : option Format;
  streams : option (list Stream)
}.

(** A directory entry, with the entries below it when it is a directory. *)
Inductive Dirent : Type :=
| File (name : string)
| Dir (name : string) (entries : list Dirent).

(** One call to the outside world, with its answer where the script reads
    one. *)
Inductive Event : Type :=
| EvSpawn (cmd : string) (args : list string) (res : RunResult)
| EvAccess (p : string) (ok : bool)
| EvReadFile (p : string)
| EvWriteFile (p : string) (data : list Byte.byte)
| EvUnlink (p : string)
| EvMkdtemp (prefix : string)
| EvMkdir (p : string)
| EvReaddir (p : string)
| EvRm (p : string).

(** The outside world.  Each answer is a function of the calls made so far. *)
Record World : Type := {
  w_spawn : list Event -> string -> list string -> RunResult;
  w_access : list Event -> string -> bool;
  w_readFile : list Event -> string -> option (list Byte.byte);
  w_writeFile : list Event -> string -> list Byte.byte -> bool;
  w_mkdtemp : list Event -> string -> option string;
  w_mkdir : list Event -> string -> bool;
  w_readdir : list Event -> string -> option (list Dirent);
  w_which : string -> option string;
  w_tmpdir : string;
  w_resolve : string -> string;
  (** [JSON.parse] followed by reading the value as a [Probe]: [None] when
      [JSON.parse] throws or yields a falsy value ([null], [false], [0],
      the empty string); a value without the fields read here is a probe
      whose fields are all absent. *)
  w_JSON_parse : string -> option Probe
}.

(* ================================================================== *)
(** * The monad of asynchronous functions *)

Inductive result (A : Type) : Type :=
| Ok (a : A)
| Throw (e : string).

Arguments Ok {A} a.
Arguments Throw {A} e.

Definition IO (A : Type) : Type := list Event -> result A * list Event.

Definition ret {A} (a : A) : IO A := fun tr => (Ok a, tr).

Definition bind {A B} (m : IO A) (k : A -> IO B) : IO B :=
  fun tr =>
    match m tr with
    | (Ok a, tr') => k a tr'
    | (Throw e, tr') => (Throw e, tr')
    end.

(** [try { m } catch (e) { h e }] *)
Definition try_catch {A} (m : IO A) (h : string -> IO A) : IO A :=
  fun tr =>
    match m tr with
    | (Ok a, tr') => (Ok a, tr')
    | (Throw e, tr') => h e tr'
    end.

Definition emit (e : Event) : IO unit :=
  fun tr => (Ok tt, (tr ++ [e])%list).

Declare Scope io_scope.
Delimit Scope io_scope with io.
Notation "x <- m ;; k" := (bind m (fun x => k))
  (at level 61, m at next level, right associativity) : io_scope.
Notation "m ;;; k" := (bind m (fun _ => k))
  (at level 61, right associativity) : io_scope.
Notation "' pat <- m ;; k" := (bind m (fun x => match x with pat => k end))
  (at level 61, pat pattern, m at next level, right associativity) : io_scope.
Local Open Scope io_scope.

(* ================================================================== *)
(** * Paths (the POSIX flavour of Node's [path], without normalisation) *)

Module Path.

(** [path.join(a, b)] for a directory [a] and a name [b] that need no
    normalisation: [a] does not end in a separator and neither holds an
    empty, a [.] or a [..] segment. *)
Definition join (a b : string) : string := a ++ "/" ++ b.

(** The characters of [s] up to its first [c], and what follows [c]. *)
Fixpoint break_at (c : ascii) (s : string) : string * option string :=
  match s with
  | EmptyString => (EmptyString, None)
  | String d r =>
      if Ascii.eqb d c then (EmptyString, Some r)
      else let '(a, b) := break_at c r in (String d a, b)
  end.

(** [path.basename] *)
Definition basename (p : string) : string :=
  Str.rev (fst (break_at "/" (Str.rev p))).

(** [path.parse(p).name]: the base name without its last extension, for a
    base name other than [..]. *)
Definition parse_name (p : string) : string :=
  let base := basename p in
  match break_at "." (Str.rev base) with
  | (_, Some (String c r)) => Str.rev (String c r)
  | _ => base
  end.

End Path.

(* ================================================================== *)
(** * The script *)

Definition code_is_zero (r : RunResult) : bool :=
  match code r with Some 0 => true | _ => false end.

(** [`${res.code}`] *)
Definition code_text (r : RunResult) : string :=
  match code r with Some z => Str.of_Z z | None => "null" end.

Definition jpgPathFor (outDir base : string) : string :=
  Path.join outDir (base ++ ".jpg").
Definition mp4PathFor (outDir base : string) : string :=
  Path.join outDir (base ++ ".mp4").

(** ** Orientation helpers *)

Definition imagemagickOpsForExif (c : num) : list string :=
  if Js.eqb c (Js.of_Z 2) then ["-flop"]
  else if Js.eqb c (Js.of_Z 3) then ["-rotate"; "180"]
  else if Js.eqb c (Js.of_Z 4) then ["-flip"]
  else if Js.eqb c (Js.of_Z 5) then ["-transpose"]
  else if Js.eqb c (Js.of_Z 6) then ["-rotate"; "90"]
  else if Js.eqb c (Js.of_Z 7) then ["-transverse"]
  else if Js.eqb c (Js.of_Z 8) then ["-rotate"; "270"]
  else [].

Definition ffmpegFilterForExif (c : num) : option string :=
  if Js.eqb c (Js.of_Z 2) then Some "hflip"
  else if Js.eqb c (Js.of_Z 3) then Some "hflip,vflip"
  else if Js.eqb c (Js.of_Z 4) then Some "vflip"
  else if Js.eqb c (Js.of_Z 5) then Some "transpose=1,hflip"
  else if Js.eqb c (Js.of_Z 6) then Some "transpose=1"
  else if Js.eqb c (Js.of_Z 7) then Some "transpose=2,hflip"
  else if Js.eqb c (Js.of_Z 8) then Some "transpose=2"
  else None.

(** [((rot % 360) + 360) % 360] *)
Definition normalize360 (rot : num) : num :=
  Js.rem (Js.add (Js.rem rot (Js.of_Z 360)) (Js.of_Z 360)) (Js.of_Z 360).

(** [Number(s?.tags?.rotate || 0)] *)
Definition rotateTag (s : option Stream) : num :=
  match s with
  | Some st =>
      match tags_rotate st with
      | Some t => if Str.truthy t then Conv.Number t else Js.of_Z 0
      | None => Js.of_Z 0
      end
  | None => Js.of_Z 0
  end.

(** The lines of [getExifOrientationCode] that read the probed stream:
    [Some c] when a code is returned, [None] when control falls through to
    the default. *)
Definition orientationOfProbe (json : Probe) : option num :=
  let s := match streams json with Some l => hd_error l | None => None end in
  let rot := rotateTag s in
  if Js.isFinite rot then
    let r := normalize360 rot in
    if Js.eqb r (Js.of_Z 0) then Some (Js.of_Z 1)
    else if Js.eqb r (Js.of_Z 90) then Some (Js.of_Z 6)
    else if Js.eqb r (Js.of_Z 180) then Some (Js.of_Z 3)
    else if Js.eqb r (Js.of_Z 270) then Some (Js.of_Z 8)
    else None
  else None.

(** ** Dimension validator *)

Record Dimensions : Type := { width : num; height : num; source : string }.

Definition plausibleDimensions (w h : num) : bool :=
  if negb (Js.truthy w) || negb (Js.truthy h) then false
  else if Js.leb w (Js.of_Z 64) || Js.leb h (Js.of_Z 64) then false
  else if (Js.eqb w (Js.of_Z 512) && Js.eqb h (Js.of_Z 512))
          || (Js.eqb w (Js.of_Z 320) && Js.eqb h (Js.of_Z 240)) then false
  else true.

(** ** Results *)

Inductive MetaResult : Type :=
| MetaOk
| MetaFail (reason : string) (err : option string).

Definition meta_ok (m : MetaResult) : bool :=
  match m with MetaOk => true | MetaFail _ _ => false end.

Inductive ConvResult : Type :=
| ConvOk (path method : string)
| ConvFail (failures : list string).

(** [`${label} exit ${res.code}: ${res.stderr?.trim() || res.stdout?.trim()}`] *)
Definition exit_diagnostic (label : string) (res : RunResult) : string :=
  label ++ " exit " ++ code_text res ++ ": "
        ++ Str.or (Str.trim (stderr res)) (Str.trim (stdout res)).

(** The expression that the ffmpeg strategy computes its quality argument
    with, [Math.min(31, Math.max(2, Math.round(31 - (Math.min(100,
    Math.max(1, x)) / 100) * 29)))]: the source has the literal [95] for
    [x]. *)
Definition qscale_of (x : num) : num :=
  Js.min (Js.of_Z 31)
    (Js.max (Js.of_Z 2)
       (Js.round
          (Js.sub (Js.of_Z 31)
             (Js.mul
                (Js.div (Js.min (Js.of_Z 100) (Js.max (Js.of_Z 1) x))
                        (Js.of_Z 100))
                (Js.of_Z 29))))).

Definition ffmpeg_qscale : num := qscale_of (Js.of_Z 95).

Section Script.

Variable W : World.

(** [run]: spawns the command and resolves with its exit code and output;
    it never rejects. *)
Definition run (cmd : string) (args : list string) : IO RunResult :=
  fun tr =>
    let r := w_spawn W tr cmd args in
    (Ok r, (tr ++ [EvSpawn cmd args r])%list).

(** [exists]: [fs.access], with its rejection turned into [false]. *)
Definition exists_ (p : string) : IO bool :=
  fun tr =>
    let b := w_access W tr p in
    (Ok b, (tr ++ [EvAccess p b])%list).

(** What [which] resolves to when the probe closes:
    [code === 0 && out.trim() ? out.trim().split(/\r?\n/)[0] : null].
    [split] always returns at least one piece. *)
Definition which_answer (res : RunResult) : option string :=
  let out := stdout res in
  if code_is_zero res && Str.truthy (Str.trim out)
  then Some (hd "" (Str.split_lines (Str.trim out)))
  else None.

(** [which]: the probe is [where] on Windows and [command -v] elsewhere.
    The promise resolves on ['close'] and on ['error'] (a child that could
    not be started has no exit code 0), so it never rejects.  [detectTools]
    below takes the six answers from the world, as [w_which]. *)
Definition which (win32 : bool) (cmd : string) : IO (option string) :=
  let probe := if win32 then "where" else "command" in
  let args := if win32 then [cmd] else ["-v"; cmd] in
  fun tr =>
    let res := w_spawn W tr probe args in
    (Ok (which_answer res), (tr ++ [EvSpawn probe args res])%list).

(** The first [if] of [getExifOrientationCode]: the tag read by exiftool,
    when it is returned. *)
Definition orientationFromExif (tools : Tools) (file : string)
  : IO (option num) :=
  match present (exiftool tools) with
  | Some cmd =>
      res <- run cmd ["-s"; "-s"; "-s"; "-Orientation#"; file] ;;
      if code_is_zero res then
        let n := Conv.Number (Str.trim (Str.or (stdout res) "")) in
        if Js.isFinite n && Js.geb n (Js.of_Z 1) && Js.leb n (Js.of_Z 8)
        then ret (Some n) else ret None
      else ret None
  | None => ret None
  end.

(** The second [if]: the code mapped from the rotate tag that ffprobe
    reports, when one is returned.  A [JSON.parse] that throws is caught. *)
Definition orientationFromProbe (tools : Tools) (file : string)
  : IO (option num) :=
  match present (ffprobe tools) with
  | Some cmd =>
      probe <- run cmd ["-v"; "error"; "-print_format"; "json";
                        "-show_streams"; "-select_streams"; "v:0"; file] ;;
      if code_is_zero probe then
        match w_JSON_parse W (Str.or (stdout probe) "{}") with
        | Some json => ret (orientationOfProbe json)
        | None => ret None
        end
      else ret None
  | None => ret None
  end.

Definition getExifOrientationCode (tools : Tools) (file : string) : IO num :=
  fromExif <- orientationFromExif tools file ;;
  match fromExif with
  | Some n => ret n
  | None =>
      fromProbe <- orientationFromProbe tools file ;;
      match fromProbe with
      | Some n => ret n
      | None => ret (Js.of_Z 1)  (* default: no rotation *)
      end
  end.

Definition getImageDimensions (tools : Tools) (file : string) : IO Dimensions :=
  let none := {| width := Js.of_Z 0; height := Js.of_Z 0; source := "none" |} in
  match present (exiftool tools) with
  | Some cmd =>
      res <- run cmd ["-s"; "-s"; "-s"; "-ImageWidth"; "-ImageHeight"; file] ;;
      if code_is_zero res then
        let lines := map (fun s => Conv.Number (Str.trim s))
                         (Str.split_lines (Str.trim (stdout res))) in
        match lines with
        | [w; h] =>
            if forallb Js.isFinite lines
            then ret {| width := w; height := h; source := "exiftool" |}
            else ret none
        | _ => ret none
        end
      else ret none
  | None => ret none
  end.

Definition copyAllMetadata (tools : Tools) (src dst : string) : IO MetaResult :=
  match present (exiftool tools) with
  | None => ret (MetaFail "exiftool_missing" None)
  | Some cmd =>
      let args := ["-overwrite_original"; "-m"; "-TagsFromFile"; src;
                   "-All:All"; "-icc_profile"; "-XMP:All"; "-GPS:All";
                   "-unsafe"; "-Orientation=1"; dst] in
      res <- run cmd args ;;
      if negb (code_is_zero res)
      then ret (MetaFail "exiftool_failed" (Some (stderr res)))
      else ret MetaOk
  end.

(** ** Still image conversion *)

(** One strategy of [convertStill] once its arguments are built: the three
    blocks of the source have this same shape.  The result is the successful
    conversion, or the failure list with this strategy's diagnostic pushed.
    The [catch] arm of each block is not reachable: [run] and [exists] never
    reject. *)
Definition attempt (cmd : string) (args : list string) (dstFile : string)
    (method label : string) (failures : list string)
  : IO (ConvResult + list string) :=
  res <- run cmd args ;;
  if code_is_zero res then
    e <- exists_ dstFile ;;
    if e then ret (inl (ConvOk dstFile method))
    else ret (inr (failures ++ [exit_diagnostic label res])%list)
  else ret (inr (failures ++ [exit_diagnostic label res])%list).

Definition imagemagick_args (tools : Tools) (srcFile dstFile : string)
    (quality : Z) : list string :=
  let ops := imagemagickOpsForExif (Js.of_Z 3) in
  let usingMagick := match present (magick tools) with
                     | Some _ => true | None => false end in
  if usingMagick
  then ("convert" :: srcFile :: ops ++ ["-quality"; Str.of_Z quality; dstFile])%list
  else (srcFile :: ops ++ ["-quality"; Str.of_Z quality; dstFile])%list.

Definition ffmpeg_args (srcFile dstFile : string) (exifCode : num)
  : list string :=
  let vf := ffmpegFilterForExif exifCode in
  let qscale := ffmpeg_qscale in
  let args := ["-hide_banner"; "-y"; "-noautorotate"; "-i"; srcFile;
               "-frames:v"; "1"] in
  let args := match vf with
              | Some f => if Str.truthy f then (args ++ ["-vf"; f])%list else args
              | None => args
              end in
  (args ++ ["-qscale:v"; Conv.String_of qscale; dstFile])%list.

Definition convertStill (tools : Tools) (srcFile dstFile : string)
    (quality : Z) (exifCode : num) : IO ConvResult :=
  let failures : list string := [] in
  (* 1) ImageMagick *)
  r1 <- match present (imagemagick tools) with
        | Some cmd =>
            attempt cmd (imagemagick_args tools srcFile dstFile quality)
                    dstFile "imagemagick" "ImageMagick" failures
        | None => ret (inr failures)
        end ;;
  match r1 with
  | inl done => ret done
  | inr failures =>
      (* 2) heif-convert *)
      r2 <- match present (heif_convert tools) with
            | Some cmd =>
                attempt cmd [srcFile; dstFile]
                        dstFile "heif-convert" "heif-convert" failures
            | None => ret (inr failures)
            end ;;
      match r2 with
      | inl done => ret done
      | inr failures =>
          (* 3) ffmpeg *)
          r3 <- match present (ffmpeg tools) with
                | Some cmd =>
                    attempt cmd (ffmpeg_args srcFile dstFile exifCode)
                            dstFile "ffmpeg-frame" "ffmpeg frame extract"
                            failures
                | None => ret (inr failures)
                end ;;
          match r3 with
          | inl done => ret done
          | inr failures => ret (ConvFail failures)
          end
      end
  end.

(** ** Embedded video detection *)

Fixpoint starts_with (needle buf : list Byte.byte) : bool :=
  match needle, buf with
  | [], _ => true
  | n :: ns, b :: bs => Byte.eqb n b && starts_with ns bs
  | _ :: _, [] => false
  end.

(** The first position of [needle] in [buf], which is the part of the
    buffer from offset [pos] on. *)
Fixpoint indexOf_aux (needle buf : list Byte.byte) (pos : nat) : option nat :=
  if starts_with needle buf then Some pos
  else match buf with
       | [] => None
       | _ :: tl => indexOf_aux needle tl (S pos)
       end.

(** [buf.indexOf(needle, i)], with [None] for [-1] *)
Definition indexOf (buf needle : list Byte.byte) (i : nat) : option nat :=
  indexOf_aux needle (skipn i buf) i.

(** The [while (true)] loop of [bytesIndexAll], started at [i]. *)
Fixpoint bytesIndexAll_loop (fuel : nat) (buf needle : list Byte.byte)
    (i : nat) : list nat :=
  match fuel with
  | O => []
  | S fuel' =>
      match indexOf buf needle i with
      | None => []
      | Some j => j :: bytesIndexAll_loop fuel' buf needle (j + 1)
      end
  end.

Definition bytesIndexAll (buf : list Byte.byte) (ascii : string) : list nat :=
  bytesIndexAll_loop (S (List.length buf)) buf (list_byte_of_string ascii) 0.

(** Decoding one byte as ['ascii']: Node clears the highest bit. *)
Definition ascii_decode (b : Byte.byte) : ascii :=
  ascii_of_N (N.land (Byte.to_N b) 127).

Definition readAscii (buf : list Byte.byte) (off : Z) (len : Z)
  : option string :=
  if (off <? 0) || (Z.of_nat (List.length buf) <? off + len) then None
  else Some (string_of_list_ascii
               (map ascii_decode
                    (firstn (Z.to_nat len) (skipn (Z.to_nat off) buf)))).

Definition HEIF_LIKE_BRANDS : list string :=
  ["heic"; "heix"; "hevc"; "hevx"; "heim"; "heis"; "hevm"; "hevs";
   "mif1"; "msf1"; "avif"; "avis"].

(** [HEIF_LIKE_BRANDS.has(major)] *)
Definition is_heif_like (major : string) : bool :=
  existsb (String.eqb major) HEIF_LIKE_BRANDS.

Record Candidate : Type := {
  start : Z;
  ftypIndex : Z;
  major : option string
}.

(** The body of the loop over [ftypIdxs]: the candidate pushed for the
    occurrence at [i], if any. *)
Definition candidateAt (buf : list Byte.byte) (i : nat) : option Candidate :=
  let boxStart := Z.of_nat i - 4 in
  if boxStart <? 0 then None
  else if boxStart =? 0 then None
  else
    let major := readAscii buf (Z.of_nat i + 4) 4 in
    match major with
    | Some m =>
        if Str.truthy m && is_heif_like m then None
        else Some {| start := boxStart; ftypIndex := Z.of_nat i; major := major |}
    | None =>
        Some {| start := boxStart; ftypIndex := Z.of_nat i; major := major |}
    end.

Fixpoint collectCandidates (buf : list Byte.byte) (idxs : list nat)
  : list Candidate :=
  match idxs with
  | [] => []
  | i :: rest =>
      match candidateAt buf i with
      | Some c => c :: collectCandidates buf rest
      | None => collectCandidates buf rest
      end
  end.

(** [Array.prototype.sort] with a comparator: a stable sort. *)
Fixpoint sort_insert {A} (cmp : A -> A -> Z) (x : A) (l : list A) : list A :=
  match l with
  | [] => [x]
  | y :: r => if cmp x y <=? 0 then x :: y :: r else y :: sort_insert cmp x r
  end.

Fixpoint js_sort {A} (cmp : A -> A -> Z) (l : list A) : list A :=
  match l with
  | [] => []
  | x :: r => sort_insert cmp x (js_sort cmp r)
  end.

(** The container scanner: the first lines of [detectEmbeddedVideo], from
    [bytesIndexAll] to the sort. *)
Definition scanCandidates (buf : list Byte.byte) : list Candidate :=
  let ftypIdxs := bytesIndexAll buf "ftyp" in
  let candidates := collectCandidates buf ftypIdxs in
  js_sort (fun a b => start b - start a) candidates.

(** [x || 0] on an optional JSON integer *)
Definition int_or_0 (o : option Z) : Z :=
  match o with Some z => z | None => 0 end.

(** Truthiness of an optional JSON string or integer *)
Definition truthy_str (o : option string) : bool :=
  match o with Some s => Str.truthy s | None => false end.
Definition truthy_int (o : option Z) : bool :=
  match o with Some z => negb (z =? 0) | None => false end.

Definition is_video (s : Stream) : bool :=
  match codec_type s with Some t => String.eqb t "video" | None => false end.

(** [Number(a || b || 0)] where [a] is a JSON string and [b] a JSON integer *)
Definition number_str_int (a : option string) (b : option Z) : num :=
  match a with
  | Some s => if Str.truthy s then Conv.Number s
              else if truthy_int b then Js.of_Z (int_or_0 b) else Js.of_Z 0
  | None => if truthy_int b then Js.of_Z (int_or_0 b) else Js.of_Z 0
  end.

(** [Number(a || b || 0)] where [a] and [b] are JSON strings *)
Definition number_str_str (a b : option string) : num :=
  if truthy_str a then Conv.Number (match a with Some s => s | None => "" end)
  else if truthy_str b then Conv.Number (match b with Some s => s | None => "" end)
  else Js.of_Z 0.

(** [/(mp4|mov|3g2|3gp|mj2)/.test(fmtName)] *)
Definition container_regex (fmtName : string) : bool :=
  Str.contains "mp4" fmtName || Str.contains "mov" fmtName
  || Str.contains "3g2" fmtName || Str.contains "3gp" fmtName
  || Str.contains "mj2" fmtName.

Definition firstVideo (json : Probe) : option Stream :=
  let vstreams := filter is_video
                    (match streams json with Some l => l | None => [] end) in
  find (fun s => negb (truthy_int (attached_pic s))) vstreams.

(** The verdict on one probed slice: the lines of [detectEmbeddedVideo] from
    [fmtName] to the test before [return { ok: true, ... }]. *)
Definition probeAccepts (json : Probe) : bool :=
  let fmt := format json in
  let fmtName :=
    Str.toLowerCase
      (match fmt with
       | Some f => match format_name f with
                   | Some n => Str.or n ""
                   | None => ""
                   end
       | None => ""
       end) in
  let isContainerOk := container_regex fmtName in
  let firstV := firstVideo json in
  let w := match firstV with Some s => int_or_0 (s_width s) | None => 0 end in
  let h := match firstV with Some s => int_or_0 (s_height s) | None => 0 end in
  let nbFrames :=
    number_str_int
      (match firstV with Some s => nb_frames s | None => None end)
      (match fmt with Some f => nb_streams f | None => None end) in
  let duration :=
    number_str_str
      (match fmt with Some f => f_duration f | None => None end)
      (match firstV with Some s => s_duration s | None => None end) in
  let dimOk := (32 <? w) && (32 <? h) in
  let motionOk :=
    (Js.isFinite nbFrames && Js.gtb nbFrames (Js.of_Z 5))
    || (Js.isFinite duration && Js.gtb duration (Js.of_Q (3 # 10))) in
  isContainerOk
  && (match firstV with Some _ => true | None => false end)
  && dimOk && motionOk.

Inductive DetectResult : Type :=
| DetOk (tmpPath : string) (probe : Probe) (candidate : Candidate)
| DetFail (reason : string).

(** [fs.readFile] and [fs.writeFile] reject when the world refuses. *)
Definition readFile (p : string) : IO (list Byte.byte) :=
  fun tr =>
    match w_readFile W tr p with
    | Some b => (Ok b, (tr ++ [EvReadFile p])%list)
    | None => (Throw "readFile failed", (tr ++ [EvReadFile p])%list)
    end.

Definition writeFile (p : string) (data : list Byte.byte) : IO unit :=
  fun tr =>
    if w_writeFile W tr p data
    then (Ok tt, (tr ++ [EvWriteFile p data])%list)
    else (Throw "writeFile failed", (tr ++ [EvWriteFile p data])%list).

(** [fs.unlink(p).catch(() => { })] *)
Definition unlink (p : string) : IO unit := emit (EvUnlink p).

Definition slicePath (tempDir srcFile : string) (c : Candidate) : string :=
  Path.join tempDir
    ("slice_" ++ Path.basename srcFile ++ "_" ++ Str.of_Z (start c) ++ ".bin").

Definition slice_probe_args (tmpPath : string) : list string :=
  ["-hide_banner"; "-v"; "error"; "-print_format"; "json";
   "-show_streams"; "-show_format"; tmpPath].

(** One turn of the loop over the candidates: [Some] is the [return] from
    inside the loop, [None] is [continue]. *)
Definition probeCandidate (cmd srcFile tempDir : string)
    (buf : list Byte.byte) (c : Candidate) : IO (option DetectResult) :=
  let tmpPath := slicePath tempDir srcFile c in
  try_catch
    (writeFile tmpPath (skipn (Z.to_nat (start c)) buf) ;;;
     probe <- run cmd (slice_probe_args tmpPath) ;;
     if negb (code_is_zero probe) then unlink tmpPath ;;; ret None
     else
       match w_JSON_parse W (Str.or (stdout probe) "{}") with
       | None => unlink tmpPath ;;; ret None
       | Some json =>
           if probeAccepts json
           then ret (Some (DetOk tmpPath json c))
           else unlink tmpPath ;;; ret None
       end)
    (fun _ => unlink tmpPath ;;; ret None).

Fixpoint probeCandidates (cmd srcFile tempDir : string)
    (buf : list Byte.byte) (cs : list Candidate) : IO DetectResult :=
  match cs with
  | [] => ret (DetFail "no_valid_slice")
  | c :: rest =>
      r <- probeCandidate cmd srcFile tempDir buf c ;;
      match r with
      | Some found => ret found
      | None => probeCandidates cmd srcFile tempDir buf rest
      end
  end.

Definition detectEmbeddedVideo (tools : Tools) (srcFile tempDir : string)
  : IO DetectResult :=
  match present (ffprobe tools) with
  | None => ret (DetFail "ffprobe_missing")
  | Some cmd =>
      buf <- readFile srcFile ;;
      let candidates := scanCandidates buf in
      match candidates with
      | [] => ret (DetFail "no_candidates")
      | _ => probeCandidates cmd srcFile tempDir buf candidates
      end
  end.

(** ** MP4 normalisation *)

Inductive NormResult : Type :=
| NormOk (method : string)
| NormFail (reason : string) (err : option string).

(** [/displaymatrix/i.test(sd.side_data_type || '')] *)
Definition is_displaymatrix (sd : SideData) : bool :=
  Str.contains "displaymatrix"
    (Str.toLowerCase
       (match side_data_type sd with Some t => Str.or t "" | None => "" end)).

(** The rotation and display-matrix reading at the top of [normalizeMp4]. *)
Definition mp4_rotate (ffprobeJson : Probe) : num :=
  let v := find is_video
             (match streams ffprobeJson with Some l => l | None => [] end) in
  let tagRotate := rotateTag v in
  if Js.isFinite tagRotate then Js.rem tagRotate (Js.of_Z 360) else Js.of_Z 0.

Definition mp4_hasDisplayMatrix (ffprobeJson : Probe) : bool :=
  let v := find is_video
             (match streams ffprobeJson with Some l => l | None => [] end) in
  existsb is_displaymatrix
    (match v with
     | Some s => match side_data_list s with Some l => l | None => [] end
     | None => []
     end).

(** [(rotate && rotate !== 0) || hasDisplayMatrix] *)
Definition mp4_must_reencode (ffprobeJson : Probe) : bool :=
  let rotate := mp4_rotate ffprobeJson in
  (Js.truthy rotate && negb (Js.eqb rotate (Js.of_Z 0)))
  || mp4_hasDisplayMatrix ffprobeJson.

Definition mp4_filter (rotate : num) : string :=
  let r := normalize360 rotate in
  if Js.eqb r (Js.of_Z 90) then "transpose=1"
  else if Js.eqb r (Js.of_Z 270) then "transpose=2"
  else if Js.eqb r (Js.of_Z 180) then "hflip,vflip"
  else "".

(** The command line and the method that [normalizeMp4] settles on. *)
Definition mp4_plan (tmpPath outPath : string) (ffprobeJson : Probe)
  : list string * string :=
  let baseArgs := ["-hide_banner"; "-y"; "-i"; tmpPath] in
  if mp4_must_reencode ffprobeJson then
    let vf := mp4_filter (mp4_rotate ffprobeJson) in
    ((baseArgs ++ ["-vf"; Str.or vf "null"; "-c:v"; "libx264";
                   "-preset"; "veryfast"; "-crf"; "20"; "-c:a"; "aac";
                   "-b:a"; "160k"; "-movflags"; "+faststart"; outPath])%list,
     "reencode")
  else
    ((baseArgs ++ ["-c"; "copy"; "-movflags"; "+faststart"; outPath])%list,
     "copy").

Definition normalizeMp4 (tools : Tools) (tmpPath outPath : string)
    (ffprobeJson : Probe) : IO NormResult :=
  match present (ffmpeg tools) with
  | None => ret (NormFail "ffmpeg_missing" None)
  | Some cmd =>
      let '(args, method) := mp4_plan tmpPath outPath ffprobeJson in
      res <- run cmd args ;;
      if negb (code_is_zero res)
      then ret (NormFail "ffmpeg_failed" (Some (stderr res)))
      else ret (NormOk method)
  end.

(** ** Main flow *)

(** [/\.(heic|heif)$/i.test(name)] *)
Definition heic_regex (name : string) : bool :=
  let n := Str.toLowerCase name in
  Str.endsWith ".heic" n || Str.endsWith ".heif" n.

(** The paths that the generator [iterateFiles] yields, in order.
    [entries] is what [fs.readdir(root)] gave, each directory with its own
    listing. *)
Fixpoint iterateEntry (root : string) (recursive : bool) (d : Dirent)
  : list string :=
  match d with
  | Dir name sub =>
      if recursive
      then flat_map (iterateEntry (Path.join root name) recursive) sub
      else []
  | File name =>
      if heic_regex name then [Path.join root name] else []
  end.

Definition iterateFiles (root : string) (entries : list Dirent)
    (recursive : bool) : list string :=
  flat_map (iterateEntry root recursive) entries.

Record Summary : Type := {
  file : string;
  jpgOut : string;
  mp4Out : string;
  steps : list string;
  errors : list string
}.

(** [summary.steps.push(s)] and [summary.errors.push(e)] *)
Definition push_step (s : Summary) (x : string) : Summary :=
  {| file := file s; jpgOut := jpgOut s; mp4Out := mp4Out s;
     steps := (steps s ++ [x])%list; errors := errors s |}.

Definition push_error (s : Summary) (x : string) : Summary :=
  {| file := file s; jpgOut := jpgOut s; mp4Out := mp4Out s;
     steps := steps s; errors := (errors s ++ [x])%list |}.

Definition mkdtemp (prefix : string) : IO string :=
  fun tr =>
    match w_mkdtemp W tr prefix with
    | Some d => (Ok d, (tr ++ [EvMkdtemp prefix])%list)
    | None => (Throw "mkdtemp failed", (tr ++ [EvMkdtemp prefix])%list)
    end.

(** [try { await fs.rm(tempDir, ...) } catch { }] *)
Definition rm (p : string) : IO unit := emit (EvRm p).

(** The still path of [processOne]: the [else] branch of [if (dryRun)].
    The result is the summary as it stands, and the error thrown, if any. *)
Definition stillPath (tools : Tools) (quality : Z) (exifCode : num)
    (summary : Summary) : IO (Summary * option string) :=
  conv <- convertStill tools (file summary) (jpgOut summary) quality exifCode ;;
  match conv with
  | ConvFail failures =>
      ret (push_error summary
             ("All still conversion paths failed: " ++ Str.join " | " failures),
           Some "still-conversion-failed")
  | ConvOk _ method =>
      let summary := push_step summary ("still: " ++ method) in
      dim <- getImageDimensions tools (jpgOut summary) ;;
      if negb (plausibleDimensions (width dim) (height dim)) then
        ret (push_error summary
               ("implausible dimensions " ++ Conv.String_of (width dim)
                  ++ "x" ++ Conv.String_of (height dim)),
             Some "dimension-validation-failed")
      else
        meta <- copyAllMetadata tools (file summary) (jpgOut summary) ;;
        ret (push_step summary
               ("metadata: " ++ (if meta_ok meta then "copied+Orientation=1"
                                 else "skipped/partial")),
             None)
  end.

(** [norm.stderr || norm.reason] *)
Definition norm_message (reason : string) (err : option string) : string :=
  match err with
  | Some e => Str.or e reason
  | None => reason
  end.

(** The motion path of [processOne]: the [if (tools.ffprobe)] statement. *)
Definition motionPath (tools : Tools) (tempDir : string) (dryRun : bool)
    (summary : Summary) : IO (Summary * option string) :=
  match present (ffprobe tools) with
  | Some _ =>
      try_catch
        (det <- detectEmbeddedVideo tools (file summary) tempDir ;;
         match det with
         | DetOk tmpPath probe candidate =>
             let summary :=
               push_step summary
                 ("motion: candidate@" ++ Str.of_Z (start candidate)
                    ++ " brand="
                    ++ (if truthy_str (major candidate)
                        then match major candidate with
                             | Some m => m | None => "unknown" end
                        else "unknown")) in
             summary <-
               (if negb dryRun then
                  norm <- normalizeMp4 tools tmpPath (mp4Out summary) probe ;;
                  match norm with
                  | NormFail reason err =>
                      ret (push_error summary
                             ("mp4 normalize failed: " ++ norm_message reason err))
                  | NormOk method =>
                      ret (push_step summary
                             ("mp4: " ++ method ++ " → " ++ mp4Out summary))
                  end
                else ret (push_step summary "dry-run: skip mp4 normalize")) ;;
             unlink tmpPath ;;;
             ret (summary, None)
         | DetFail _ => ret (push_step summary "motion: none", None)
         end)
        (fun e => ret (summary, Some e))
  | None => ret (push_step summary "motion: disabled (ffprobe missing)", None)
  end.

(** The [try] block of [processOne]; its [catch] only logs. *)
Definition processBody (tools : Tools) (tempDir : string) (quality : Z)
    (dryRun : bool) (summary : Summary) : IO (Summary * option string) :=
  exifCode <- getExifOrientationCode tools (file summary) ;;
  '(summary, thrown) <-
    (if dryRun
     then ret (push_step summary "dry-run: skip still conversion", None)
     else stillPath tools quality exifCode summary) ;;
  match thrown with
  | Some e => ret (summary, Some e)
  | None =>
      '(summary, thrown) <- motionPath tools tempDir dryRun summary ;;
      match thrown with
      | Some e => ret (summary, Some e)
      | None =>
          (if negb dryRun
           then exists_ (jpgOut summary) ;;; exists_ (mp4Out summary) ;;; ret tt
           else ret tt) ;;;
          ret (summary, None)
      end
  end.

Definition processOne (tools : Tools) (file_ outDir : string) (quality : Z)
    (dryRun : bool) : IO Summary :=
  let base := Path.parse_name file_ in
  let jpgOut_ := jpgPathFor outDir base in
  let mp4Out_ := mp4PathFor outDir base in
  tempDir <- mkdtemp (Path.join (w_tmpdir W) "heic2jpg-") ;;
  let summary := {| file := file_; jpgOut := jpgOut_; mp4Out := mp4Out_;
                    steps := []; errors := [] |} in
  '(summary, _) <- processBody tools tempDir quality dryRun summary ;;
  rm tempDir ;;;
  ret summary.

(** ** Command line *)

Record Args : Type := {
  debug : bool;
  quality : Z;
  recursive : bool;
  dryRun : bool;
  sourceDir : string;
  outputDir : string
}.

(** The [for] loop of [parseArgs] over [argv], from index 2 on: the flags
    read so far are [(debug, quality, recursive, dryRun)], the other
    arguments are [rest]. *)
Fixpoint parseLoop (l : list string) (flags : bool * Z * bool * bool)
    (rest : list string) {struct l}
  : result (bool * Z * bool * bool * list string) :=
  let '(dbg, q, rec, dry) := flags in
  match l with
  | [] => Ok (dbg, q, rec, dry, rest)
  | v :: l' =>
      if String.eqb v "--debug" then parseLoop l' (true, q, rec, dry) rest
      else if String.eqb v "--recursive" then parseLoop l' (dbg, q, true, dry) rest
      else if String.eqb v "--dry-run" then parseLoop l' (dbg, q, rec, true) rest
      else if String.eqb v "--quality" then
        match l' with
        | [] =>
            (* [Number(undefined)] is NaN *)
            Throw "--quality must be an integer 1-100"
        | x :: l'' =>
            let n := Conv.Number x in
            if negb (Js.isFinite n) || Js.ltb n (Js.of_Z 1)
               || Js.gtb n (Js.of_Z 100)
            then Throw "--quality must be an integer 1-100"
            else
              let q' := match Js.round n with
                        | Fin x => Qfloor x
                        | _ => 0
                        end in
              parseLoop l'' (dbg, q', rec, dry) rest
        end
      else parseLoop l' flags (rest ++ [v])%list
  end.

Definition parseArgs (argv : list string) : result Args :=
  match parseLoop (skipn 2 argv) (false, 95, false, false) [] with
  | Throw e => Throw e
  | Ok (dbg, q, rec, dry, rest) =>
      match rest with
      | src :: out :: _ =>
          Ok {| debug := dbg; quality := q; recursive := rec; dryRun := dry;
                sourceDir := w_resolve W src; outputDir := w_resolve W out |}
      | _ => Throw "Usage"
      end
  end.

(** [detectTools]: the six probes run through [which].  Their answers
    are taken from the world as [w_which]; the processes that [which] starts
    for them are not put on the trace. *)
Definition detectTools : Tools :=
  let found := w_which W in
  {| exiftool := found "exiftool";
     ffmpeg := found "ffmpeg";
     ffprobe := found "ffprobe";
     magick := found "magick";
     convert := found "convert";
     heif_convert := found "heif-convert";
     imagemagick := tool_or (found "magick") (tool_or (found "convert") None) |}.

Definition mkdir (p : string) : IO unit :=
  fun tr =>
    if w_mkdir W tr p then (Ok tt, (tr ++ [EvMkdir p])%list)
    else (Throw "mkdir failed", (tr ++ [EvMkdir p])%list).

Definition readdir (p : string) : IO (list Dirent) :=
  fun tr =>
    match w_readdir W tr p with
    | Some l => (Ok l, (tr ++ [EvReaddir p])%list)
    | None => (Throw "readdir failed", (tr ++ [EvReaddir p])%list)
    end.

(** The [for await] loop of [main] over the files yielded: the summaries of
    the files processed, in order. *)
Fixpoint processAll (tools : Tools) (args : Args) (files : list string)
  : IO (list Summary) :=
  match files with
  | [] => ret []
  | f :: rest =>
      summary <- processOne tools f (outputDir args) (quality args) (dryRun args) ;;
      others <- processAll tools args rest ;;
      ret (summary :: others)
  end.

(** How a run of the script ends: [process.exit(2)], or the final report
    with the summaries it was counted from. *)
Inductive Outcome : Type :=
| Exit (status : Z)
| Done (count failures : nat) (summaries : list Summary).

Definition has_errors (s : Summary) : bool :=
  match errors s with [] => false | _ => true end.

Definition mainBody (args : Args) : IO Outcome :=
  found <- exists_ (sourceDir args) ;;
  if negb found then ret (Exit 2)
  else
    mkdir (outputDir args) ;;;
    let tools := detectTools in
    entries <- readdir (sourceDir args) ;;
    summaries <- processAll tools args
                   (iterateFiles (sourceDir args) entries false) ;;
    ret (Done (List.length summaries)
              (List.length (filter has_errors summaries)) summaries).

(** [main().catch(e => { ...; process.exit(2) })] *)
Definition main (argv : list string) : IO Outcome :=
  match parseArgs argv with
  | Throw _ => ret (Exit 2)
  | Ok args => try_catch (mainBody args) (fun _ => ret (Exit 2))
  end.

End Script.

(* ================================================================== *)
(** * Views used by the statements *)

(** One strategy of the still conversion chain, ready to run. *)
Record Strategy : Type := {
  st_cmd : string;
  st_args : list string;
  st_method : string;
  st_label : string
}.

Definition when_present (o : option string) (f : string -> Strategy)
  : list Strategy :=
  match present o with Some cmd => [f cmd] | None => [] end.

(** The strategies that [convertStill] attempts with the tools at hand, in
    its order. *)
Definition strategies (tools : Tools) (srcFile dstFile : string)
    (quality : Z) (exifCode : num) : list Strategy :=
  (when_present (imagemagick tools) (fun cmd =>
     {| st_cmd := cmd;
        st_args := imagemagick_args tools srcFile dstFile quality;
        st_method := "imagemagick"; st_label := "ImageMagick" |})
   ++ when_present (heif_convert tools) (fun cmd =>
     {| st_cmd := cmd; st_args := [srcFile; dstFile];
        st_method := "heif-convert"; st_label := "heif-convert" |})
   ++ when_present (ffmpeg tools) (fun cmd =>
     {| st_cmd := cmd; st_args := ffmpeg_args srcFile dstFile exifCode;
        st_method := "ffmpeg-frame"; st_label := "ffmpeg frame extract" |}))%list.

(** The chain as a loop over a list of strategies. *)
Fixpoint chain (W : World) (dstFile : string) (ss : list Strategy)
    (failures : list string) : IO ConvResult :=
  match ss with
  | [] => ret (ConvFail failures)
  | s :: rest =>
      r <- attempt W (st_cmd s) (st_args s) dstFile (st_method s) (st_label s)
             failures ;;
      match r with
      | inl done => ret done
      | inr failures' => chain W dstFile rest failures'
      end
  end.

(** The child processes of a trace, in order. *)
Fixpoint spawned (evs : list Event) : list (string * list string * RunResult) :=
  match evs with
  | [] => []
  | EvSpawn cmd args res :: r => (cmd, args, res) :: spawned r
  | _ :: r => spawned r
  end.

Definition invocation (s : Strategy) : string * list string :=
  (st_cmd s, st_args s).

Definition diagnostic (sr : Strategy * (string * list string * RunResult))
  : string :=
  exit_diagnostic (st_label (fst sr)) (snd (snd sr)).


(** [needle] occurs in [buf] at offset [i]. *)
Definition occurs_at (needle buf : list Byte.byte) (i : nat) : Prop :=
  starts_with needle (skipn i buf) = true.

(** The marker that the scanner looks for. *)
Definition ftyp : list Byte.byte := list_byte_of_string "ftyp".

(** The two command lines of [getExifOrientationCode]. *)
Definition orientation_args (file : string) : list string :=
  ["-s"; "-s"; "-s"; "-Orientation#"; file].

Definition rotation_probe_args (file : string) : list string :=
  ["-v"; "error"; "-print_format"; "json"; "-show_streams";
   "-select_streams"; "v:0"; file].

(** The orientation tag that the metadata reader printed, as a number. *)
Definition orientationTag (res : RunResult) : num :=
  Conv.Number (Str.trim (Str.or (stdout res) "")).

(** [Number.isFinite(n) && n >= 1 && n <= 8] *)
Definition in_1_8 (n : num) : bool :=
  Js.isFinite n && Js.geb n (Js.of_Z 1) && Js.leb n (Js.of_Z 8).

(** The tag of the metadata reader is accepted as [n]: the reader is there,
    exits with code 0, and prints [n], a finite number between 1 and 8. *)
Definition exifAccepted (W : World) (tools : Tools) (file : string)
    (tr : list Event) (n : num) : Prop :=
  exists cmd,
    present (exiftool tools) = Some cmd /\
    let res := w_spawn W tr cmd (orientation_args file) in
    code res = Some 0 /\ in_1_8 (orientationTag res) = true /\
    n = orientationTag res.

(** The trace once the metadata reader has been asked, if it is there. *)
Definition afterExif (W : World) (tools : Tools) (file : string)
    (tr : list Event) : list Event :=
  match present (exiftool tools) with
  | Some cmd =>
      (tr ++ [EvSpawn cmd (orientation_args file)
                (w_spawn W tr cmd (orientation_args file))])%list
  | None => tr
  end.

(** The stream prober yields the code [n]: the prober is there, exits with
    code 0, its output parses, and the rotation of the first stream maps to
    [n]. *)
Definition probeMapped (W : World) (tools : Tools) (file : string)
    (tr : list Event) (n : num) : Prop :=
  exists cmd json,
    present (ffprobe tools) = Some cmd /\
    let probe := w_spawn W tr cmd (rotation_probe_args file) in
    code probe = Some 0 /\
    w_JSON_parse W (Str.or (stdout probe) "{}") = Some json /\
    orientationOfProbe json = Some n.


(** The two command lines of [normalizeMp4]. *)
Definition reencode_args (tmpPath outPath vf : string) : list string :=
  ["-hide_banner"; "-y"; "-i"; tmpPath; "-vf"; vf; "-c:v"; "libx264";
   "-preset"; "veryfast"; "-crf"; "20"; "-c:a"; "aac"; "-b:a"; "160k";
   "-movflags"; "+faststart"; outPath].

Definition remux_args (tmpPath outPath : string) : list string :=
  ["-hide_banner"; "-y"; "-i"; tmpPath; "-c"; "copy";
   "-movflags"; "+faststart"; outPath].

(** The output is marked fast-start: the command line carries
    [-movflags +faststart]. *)
Definition marked_faststart (args : list string) : Prop :=
  exists pre post, args = (pre ++ "-movflags" :: "+faststart" :: post)%list.

(** The first video stream of a probe, as [normalizeMp4] finds it. *)
Definition firstVideoStream (json : Probe) : option Stream :=
  find is_video (match streams json with Some l => l | None => [] end).







(** The summary that [processOne] starts from. *)
Definition initialSummary (file_ outDir : string) : Summary :=
  {| file := file_;
     jpgOut := jpgPathFor outDir (Path.parse_name file_);
     mp4Out := mp4PathFor outDir (Path.parse_name file_);
     steps := []; errors := [] |}.

Definition still_failed_message (failures : list string) : string :=
  "All still conversion paths failed: " ++ Str.join " | " failures.

Definition implausible_message (dim : Dimensions) : string :=
  "implausible dimensions " ++ Conv.String_of (width dim)
     ++ "x" ++ Conv.String_of (height dim).

(* ================================================================== *)
(** * The claims in the words of the specification

    These definitions do not use the functions of the script: they say what
    is claimed of them, over the same data. *)

(** ** Words in a text, letters compared without regard to case *)

Definition is_small_letter (l : ascii) : bool :=
  (Nat.leb 97 (nat_of_ascii l) && Nat.leb (nat_of_ascii l) 122)%bool.

(** The capital of a small letter. *)
Definition capital_of (l : ascii) : ascii :=
  ascii_of_nat (nat_of_ascii l - 32).

(** [c] is the character [l] of a word, or its capital. *)
Definition spells (l c : ascii) : Prop :=
  c = l \/ (is_small_letter l = true /\ c = capital_of l).

(** [t] spells the word [w], character by character. *)
Inductive spells_word : string -> string -> Prop :=
| spells_nil : spells_word "" ""
| spells_cons l c w t :
    spells l c -> spells_word w t -> spells_word (String l w) (String c t).

(** The word [w] occurs in [s] in some mix of capitals and small letters. *)
Definition occurs_ci (w s : string) : Prop :=
  exists pre mid post, s = pre ++ mid ++ post /\ spells_word w mid.

Definition is_capital (c : ascii) : bool :=
  (Nat.leb 65 (nat_of_ascii c) && Nat.leb (nat_of_ascii c) 90)%bool.

(** No character of the word [w] is a capital. *)
Definition no_capitals (w : string) : bool :=
  forallb (fun c => negb (is_capital c)) (list_ascii_of_string w).

(** ** Numbers *)


(** [q] is a whole number of turns. *)
Definition multiple_of_360 (q : Q) : Prop :=
  exists k : Z, (q == 360 * inject_Z k)%Q.

(** ** Streams of a probe *)

Definition is_video_stream (s : Stream) : Prop := codec_type s = Some "video".


(** [v] is the first stream of the probe that satisfies [P]. *)
Definition first_stream_with (P : Stream -> Prop) (json : Probe) (v : Stream)
  : Prop :=
  exists l1 l2,
    streams json = Some (l1 ++ v :: l2)%list /\ P v
    /\ forall s, In s l1 -> ~ P s.

(** The rotation that a stream is tagged with, in degrees: the number that
    its rotate tag reads as, 0 without a tag. *)
Inductive stream_degrees (s : option Stream) : num -> Prop :=
| degrees_tagged v t :
    s = Some v -> tags_rotate v = Some t -> t <> "" ->
    stream_degrees s (Conv.Number t)
| degrees_untagged :
    (s = None
     \/ exists v, s = Some v
                  /\ (tags_rotate v = None \/ tags_rotate v = Some "")) ->
    stream_degrees s (Js.of_Z 0).

(** ** C4: the verdict on a probed slice *)











(** ** C5: the candidates of a buffer *)

(** The still-image family. *)
Definition still_image_family : list string :=
  ["heic"; "heix"; "hevc"; "hevx"; "heim"; "heis"; "hevm"; "hevs";
   "mif1"; "msf1"; "avif"; "avis"].

(** The marker [ftyp] stands at offset [i] of the buffer. *)
Definition marker_at (buf : list Byte.byte) (i : nat) : Prop :=
  firstn 4 (skipn i buf) = list_byte_of_string "ftyp".

(** The four bytes after the marker at [i], when the buffer has them. *)
Definition brand_bytes (buf : list Byte.byte) (i : nat)
  : option (list Byte.byte) :=
  if (List.length buf <? i + 8)%nat then None
  else Some (firstn 4 (skipn (i + 4) buf)).

(** The claim as worded: the brand tag, the four bytes as they are, is not
    of the family. *)
Definition claimed_candidate (buf : list Byte.byte) (i : nat) : Prop :=
  marker_at buf i /\ (4 < i)%nat
  /\ forall bs, brand_bytes buf i = Some bs ->
                ~ In bs (map list_byte_of_string still_image_family).

(** The low seven bits of a byte. *)
Definition low7 (b : Byte.byte) : N := N.land (Byte.to_N b) 127.

(** What the scanner tests: the brand tag with the high bit of every byte
    cleared is not of the family. *)
Definition scanned_candidate (buf : list Byte.byte) (i : nat) : Prop :=
  marker_at buf i /\ (4 < i)%nat
  /\ forall bs w, brand_bytes buf i = Some bs -> In w still_image_family ->
                  map low7 bs <> map low7 (list_byte_of_string w).

(** The brand that a candidate carries: the tag decoded as 7-bit text. *)
Definition brand_text (buf : list Byte.byte) (i : nat) : option string :=
  option_map
    (fun bs => string_of_list_ascii (map (fun b => ascii_of_N (low7 b)) bs))
    (brand_bytes buf i).

(** ** C6: the decision of the normaliser *)

(** A side-data entry whose type the normaliser takes for a display matrix. *)
Definition typed_display_matrix (sd : SideData) : Prop :=
  exists ty, side_data_type sd = Some ty /\ occurs_ci "displaymatrix" ty.

Definition has_typed_matrix (v : Stream) : Prop :=
  exists l sd, side_data_list v = Some l /\ In sd l /\ typed_display_matrix sd.

(** The condition under which the normaliser re-encodes. *)
Definition reencode_condition (json : Probe) : Prop :=
  exists v,
    first_stream_with is_video_stream json v
    /\ ((exists q, stream_degrees (Some v) (Fin q) /\ ~ multiple_of_360 q)
        \/ has_typed_matrix v).

(** The filter for a rotation of [z] degrees. *)
Definition filter_of_degrees (z : Z) : string :=
  if z mod 360 =? 90 then "transpose=1"
  else if z mod 360 =? 270 then "transpose=2"
  else if z mod 360 =? 180 then "hflip,vflip"
  else "null".

(** ** C7: the code of a rotation *)






(** The four options that [parseArgs] knows. *)
Definition is_option (v : string) : bool :=
  String.eqb v "--debug" || String.eqb v "--recursive"
  || String.eqb v "--dry-run" || String.eqb v "--quality".

(** The test on the value of [--quality], as the parser lets it pass:
    [Number.isFinite(q) && !(q < 1) && !(q > 100)]. *)
Definition quality_accepted (x : string) : bool :=
  let n := Conv.Number x in
  Js.isFinite n && negb (Js.ltb n (Js.of_Z 1)) && negb (Js.gtb n (Js.of_Z 100)).

(** Every character of [s] is a 7-bit character. *)
Definition seven_bit (s : string) : Prop :=
  Forall (fun c => (nat_of_ascii c < 128)%nat) (list_ascii_of_string s).

(** The integer codes that stand for a transformation: 2 to 8. *)
Definition transforming (c : num) : bool :=
  existsb (fun k => Js.eqb c (Js.of_Z k)) [2; 3; 4; 5; 6; 7; 8].

(** The character [c] does not occur in [s]. *)
Definition lacks (c : ascii) (s : string) : Prop :=
  ~ In c (list_ascii_of_string s).

(** The command line that [which] probes with. *)
Definition which_probe (win32 : bool) (cmd : string) : string * list string :=
  if win32 then ("where", [cmd]) else ("command", ["-v"; cmd]).

(** [m] extends the trace by events that all satisfy [P]; it throws only
    if [T] holds, and a value that it returns satisfies [Q]. *)
Definition performs {A} (P : Event -> Prop) (T : Prop) (Q : A -> Prop)
    (m : IO A) : Prop :=
  forall tr, exists r evs,
    m tr = (r, (tr ++ evs)%list) /\ Forall P evs
    /\ match r with Ok a => Q a | Throw _ => T end.

(** The summary [s] is about the same file and the same outputs as [s0]. *)
Definition same_outputs (s0 s : Summary) : Prop :=
  file s = file s0 /\ jpgOut s = jpgOut s0 /\ mp4Out s = mp4Out s0.

(** [p] is the scratch file of some candidate of [srcFile]. *)
Definition is_slice (tempDir srcFile p : string) : Prop :=
  exists c, p = slicePath tempDir srcFile c.

(** [cmd] is one of the executables that were detected. *)
Definition tool_of (tools : Tools) (cmd : string) : Prop :=
  present (exiftool tools) = Some cmd \/ present (ffmpeg tools) = Some cmd
  \/ present (ffprobe tools) = Some cmd
  \/ present (imagemagick tools) = Some cmd
  \/ present (heif_convert tools) = Some cmd.

(** What [processOne] may do for the file [f] between the creation and the
    removal of its scratch directory. *)
Definition file_footprint (tools : Tools) (tempDir f jpg mp4 : string)
    (e : Event) : Prop :=
  match e with
  | EvSpawn cmd _ _ => tool_of tools cmd
  | EvAccess p _ => p = jpg \/ p = mp4
  | EvReadFile p => p = f
  | EvWriteFile p _ => is_slice tempDir f p
  | EvUnlink p => is_slice tempDir f p
  | EvMkdtemp _ | EvMkdir _ | EvReaddir _ | EvRm _ => False
  end.

(** What a dry run of [processOne] may do: the two orientation queries, and
    the probing of scratch slices of the source. *)
Definition dry_footprint (tools : Tools) (tempDir f : string) (e : Event)
  : Prop :=
  match e with
  | EvSpawn cmd args _ =>
      (present (exiftool tools) = Some cmd /\ args = orientation_args f)
      \/ (present (ffprobe tools) = Some cmd
          /\ (args = rotation_probe_args f
              \/ exists p, is_slice tempDir f p /\ args = slice_probe_args p))
  | EvReadFile p => p = f
  | EvWriteFile p _ => is_slice tempDir f p
  | EvUnlink p => is_slice tempDir f p
  | EvAccess _ _ | EvMkdtemp _ | EvMkdir _ | EvReaddir _ | EvRm _ => False
  end.

(** The file [p] lies at or below the entry [d] of the directory [root],
    and its name passes the filter. *)
Inductive located : string -> Dirent -> string -> Prop :=
| located_file root name :
    heic_regex name = true -> located root (File name) (Path.join root name)
| located_dir root name sub d p :
    In d sub -> located (Path.join root name) d p ->
    located root (Dir name sub) p.

(** The command line of the dimension query. *)
Definition dimension_args (file : string) : list string :=
  ["-s"; "-s"; "-s"; "-ImageWidth"; "-ImageHeight"; file].

(* ================================================================== *)
(** * Sample worlds and inputs *)

Module Sample.

Definition reply (c : Z) (out err : string) : RunResult :=
  {| code := Some c; stdout := out; stderr := err |}.

Definition newline : string := String "010" "".

(** A HEIC file with an MP4 appended: the primary box at offset 0 and a
    second [ftyp] box, of brand [mp42], at offset 20. *)
Definition motion_photo : list Byte.byte :=
  list_byte_of_string "....ftypheic....mif1....ftypmp42isom....".

(** A world whose answers do not depend on the history: [spawn] answers
    the child processes, every file exists once asked for, the source file
    holds [motion_photo], and the source directory holds two HEIC files,
    one of them in a subdirectory. *)
Definition world (spawn : string -> list string -> RunResult)
    (which : string -> option string) (parse : string -> option Probe)
  : World :=
  {| w_spawn := fun _ => spawn;
     w_access := fun _ _ => true;
     w_readFile := fun _ _ => Some motion_photo;
     w_writeFile := fun _ _ _ => true;
     w_mkdtemp := fun _ prefix => Some (prefix ++ "XXXXXX");
     w_mkdir := fun _ _ => true;
     w_readdir := fun _ _ =>
       Some [File "a.heic"; Dir "sub" [File "b.heic"]; File "notes.txt"];
     w_which := which;
     w_tmpdir := "/tmp";
     w_resolve := fun p => p;
     w_JSON_parse := parse |}.

Definition is_orientation_query (args : list string) : bool :=
  match args with
  | [_; _; _; q; _] => String.eqb q "-Orientation#"
  | _ => false
  end.

Definition is_dimension_query (args : list string) : bool :=
  match args with
  | [_; _; _; q; _; _] => String.eqb q "-ImageWidth"
  | _ => false
  end.

(** exiftool, ImageMagick and ffprobe are installed. *)
Definition which_three (cmd : string) : option string :=
  if String.eqb cmd "exiftool" || String.eqb cmd "magick"
     || String.eqb cmd "ffprobe"
  then Some cmd else None.

(** exiftool and ImageMagick only. *)
Definition which_two (cmd : string) : option string :=
  if String.eqb cmd "exiftool" || String.eqb cmd "magick"
  then Some cmd else None.

(** ImageMagick cannot decode the file. *)
Definition spawn_magick_fails (cmd : string) (args : list string) : RunResult :=
  if String.eqb cmd "exiftool" then
    if is_orientation_query args then reply 0 "6" "" else reply 1 "" ""
  else if String.eqb cmd "magick" then reply 1 "" "no decode delegate"
  else reply 1 "" "".

Definition still_fails : World :=
  world spawn_magick_fails which_three (fun _ => None).

(** The conversion works and the picture is 4032x3024, but the metadata
    copy exits with code 1. *)
Definition spawn_copy_fails (cmd : string) (args : list string) : RunResult :=
  if String.eqb cmd "exiftool" then
    if is_orientation_query args then reply 0 "6" ""
    else if is_dimension_query args
         then reply 0 ("4032" ++ newline ++ "3024") ""
         else reply 1 "" "copy failed"
  else if String.eqb cmd "magick" then reply 0 "" ""
  else reply 1 "" "".

Definition copy_fails : World :=
  world spawn_copy_fails which_two (fun _ => None).



(** Only ffmpeg is installed. *)
Definition which_ffmpeg (cmd : string) : option string :=
  if String.eqb cmd "ffmpeg" then Some cmd else None.

Definition only_ffmpeg : World :=
  world (fun _ _ => reply 0 "" "") which_ffmpeg (fun _ => None).

(** A portrait video stream of 1080x1920 without a rotate tag. *)
Definition upright_stream : Stream :=
  {| codec_type := Some "video"; s_width := Some 1080; s_height := Some 1920;
     nb_frames := Some "45"; s_duration := Some "1.500000";
     attached_pic := Some 0; tags_rotate := None; side_data_list := None |}.

Definition upright_probe : Probe :=
  {| format := Some {| format_name := Some "mov,mp4,m4a,3gp,3g2,mj2";
                       nb_streams := Some 1;
                       f_duration := Some "1.500000" |};
     streams := Some [upright_stream] |}.

(** ffprobe is installed and recognises every slice as a short portrait
    video. *)
Definition which_ffprobe (cmd : string) : option string :=
  if String.eqb cmd "ffprobe" || String.eqb cmd "ffmpeg" then Some cmd else None.

Definition motion_found : World :=
  world (fun _ _ => reply 0 "{...}" "") which_ffprobe
        (fun _ => Some upright_probe).

(** The command line of a recursive run. *)
Definition recursive_argv : list string :=
  ["node"; "heic_to_jpg_converter.js"; "in"; "out"; "--recursive"].

(** The tools work and the picture is 4032x3024, but the source file
    cannot be read back by the script. *)
Definition unreadable : World :=
  {| w_spawn := fun _ => spawn_copy_fails;
     w_access := fun _ _ => true;
     w_readFile := fun _ _ => None;
     w_writeFile := fun _ _ _ => true;
     w_mkdtemp := fun _ prefix => Some (prefix ++ "XXXXXX");
     w_mkdir := fun _ _ => true;
     w_readdir := fun _ _ => Some [File "a.heic"];
     w_which := which_three;
     w_tmpdir := "/tmp";
     w_resolve := fun p => p;
     w_JSON_parse := fun _ => None |}.

(** The command line of a dry run, and one with a fractional quality. *)
Definition dry_run_argv : list string :=
  ["node"; "heic_to_jpg_converter.js"; "in"; "out"; "--dry-run"].

Definition quality_argv : list string :=
  ["node"; "heic_to_jpg_converter.js"; "--quality"; "80.5"; "in"; "out"].

(** An ordinary HEIC file: the primary box only. *)
Definition plain_photo : list Byte.byte :=
  list_byte_of_string "....ftypheic....mif1....".

(** ffprobe is the only tool installed. *)
Definition which_only_ffprobe (cmd : string) : option string :=
  if String.eqb cmd "ffprobe" then Some cmd else None.

Definition plain : World :=
  {| w_spawn := fun _ _ _ => reply 0 "{...}" "";
     w_access := fun _ _ => true;
     w_readFile := fun _ _ => Some plain_photo;
     w_writeFile := fun _ _ _ => true;
     w_mkdtemp := fun _ prefix => Some (prefix ++ "XXXXXX");
     w_mkdir := fun _ _ => true;
     w_readdir := fun _ _ => Some [File "a.heic"];
     w_which := which_only_ffprobe;
     w_tmpdir := "/tmp";
     w_resolve := fun p => p;
     w_JSON_parse := fun _ => Some upright_probe |}.

(** A motion photo, probed with ffprobe, but ffmpeg is not installed. *)
Definition no_ffmpeg : World :=
  world (fun _ _ => reply 0 "{...}" "") which_only_ffprobe
        (fun _ => Some upright_probe).

(** A video stream without a rotate tag whose side data is a display
    matrix, typed as ffprobe prints it. *)
Definition matrix_stream : Stream :=
  {| codec_type := Some "video"; s_width := Some 1080; s_height := Some 1920;
     nb_frames := Some "45"; s_duration := Some "1.500000";
     attached_pic := Some 0; tags_rotate := None;
     side_data_list := Some [{| side_data_type := Some "Display Matrix" |}] |}.

Definition matrix_probe : Probe :=
  {| format := Some {| format_name := Some "mov,mp4,m4a,3gp,3g2,mj2";
                       nb_streams := Some 1;
                       f_duration := Some "1.500000" |};
     streams := Some [matrix_stream] |}.





(** The sample motion photo with the brand of its second box changed to
    the bytes E8 65 69 63: [heic] with the high bit of the first byte
    set. *)
Definition masked_brand : list Byte.byte :=
  (list_byte_of_string "....ftypheic....mif1....ftyp"
   ++ [Byte.xe8; Byte.x65; Byte.x69; Byte.x63]
   ++ list_byte_of_string "isom....")%list.




End Sample.
(* ================================================================== *)
(** * Lemmas on strings *)

Lemma las_app a b :
  list_ascii_of_string (a ++ b)
  = (list_ascii_of_string a ++ list_ascii_of_string b)%list.
Proof. induction a as [|c a IH]; simpl; congruence. Qed.

Lemma las_inj a b : list_ascii_of_string a = list_ascii_of_string b -> a = b.
Proof.
  intros H. rewrite <- (string_of_list_ascii_of_string a),
              <- (string_of_list_ascii_of_string b). now rewrite H.
Qed.

Lemma las_rev_append s : forall acc,
  list_ascii_of_string (Str.rev_append s acc)
  = (List.rev (list_ascii_of_string s) ++ list_ascii_of_string acc)%list.
Proof.
  induction s as [|c s IH]; intros acc; simpl; [reflexivity|].
  rewrite IH. simpl. now rewrite <- app_assoc.
Qed.

Lemma las_rev s :
  list_ascii_of_string (Str.rev s) = List.rev (list_ascii_of_string s).
Proof. unfold Str.rev. rewrite las_rev_append. simpl. apply app_nil_r. Qed.

Lemma str_rev_involutive s : Str.rev (Str.rev s) = s.
Proof. apply las_inj. rewrite !las_rev. apply rev_involutive. Qed.

Lemma str_rev_app a b : Str.rev (a ++ b) = Str.rev b ++ Str.rev a.
Proof. apply las_inj. rewrite las_rev, !las_app, !las_rev. apply rev_app_distr. Qed.

Lemma str_app_assoc a b c : (a ++ b) ++ c = a ++ (b ++ c).
Proof. induction a as [|x a IH]; simpl; congruence. Qed.

Lemma str_app_nil_r a : a ++ "" = a.
Proof. induction a as [|x a IH]; simpl; congruence. Qed.

Lemma str_rev_empty s : Str.rev s = "" -> s = "".
Proof. intros H. rewrite <- (str_rev_involutive s), H. reflexivity. Qed.

Lemma str_prefix_iff a : forall b,
  String.prefix a b = true <-> exists c, b = a ++ c.
Proof.
  induction a as [|x a IH]; intros b; simpl.
  - split; [intros _; exists b; reflexivity | intros _; now destruct b].
  - destruct b as [|y b].
    + split; [discriminate | intros (c & H); discriminate].
    + simpl. destruct (ascii_dec x y) as [->|Hne].
      * rewrite IH. split; intros (c & H); exists c; congruence.
      * split; [discriminate | intros (c & H); congruence].
Qed.

Lemma endsWith_iff suffix s :
  Str.endsWith suffix s = true <-> exists p, s = p ++ suffix.
Proof.
  unfold Str.endsWith. rewrite str_prefix_iff. split.
  - intros (c & H). exists (Str.rev c).
    rewrite <- (str_rev_involutive s), H, str_rev_app.
    now rewrite str_rev_involutive.
  - intros (p & ->). exists (Str.rev p). apply str_rev_app.
Qed.

Lemma toLowerCase_app a b :
  Str.toLowerCase (a ++ b) = Str.toLowerCase a ++ Str.toLowerCase b.
Proof. induction a as [|x a IH]; simpl; congruence. Qed.

Lemma toLowerCase_split : forall a s b,
  Str.toLowerCase s = a ++ b ->
  exists s1 s2, s = s1 ++ s2 /\ Str.toLowerCase s1 = a
                /\ Str.toLowerCase s2 = b.
Proof.
  induction a as [|x a IH]; intros s b H.
  - exists "", s. auto.
  - destruct s as [|y s]; [discriminate|].
    simpl in H. injection H as Hx H.
    destruct (IH _ _ H) as (s1 & s2 & -> & H1 & H2).
    exists (String y s1), s2. simpl. repeat split; congruence.
Qed.

Lemma contains_iff w : forall s,
  Str.contains w s = true <-> exists pre post, s = pre ++ w ++ post.
Proof.
  induction s as [|c s IH].
  - cbn [Str.contains]. destruct (String.prefix w "") eqn:E.
    + apply str_prefix_iff in E. destruct E as (x & E).
      split; [intros _; exists "", x; exact E | reflexivity].
    + split; [discriminate|]. intros (pre & post & H).
      destruct pre; [|discriminate]. simpl in H.
      assert (E' : String.prefix w "" = true)
        by (apply str_prefix_iff; eauto).
      congruence.
  - cbn [Str.contains]. destruct (String.prefix w (String c s)) eqn:E.
    + apply str_prefix_iff in E. destruct E as (x & E).
      split; [intros _; exists "", x; exact E | reflexivity].
    + rewrite IH. split.
      * intros (pre & post & ->). exists (String c pre), post. reflexivity.
      * intros (pre & post & H). destruct pre as [|d pre].
        -- simpl in H.
           assert (E' : String.prefix w (String c s) = true)
             by (apply str_prefix_iff; eauto).
           congruence.
        -- simpl in H. injection H as _ ->. eauto.
Qed.

Lemma lower_char_spells l c :
  is_capital l = false -> (Str.lower_char c = l <-> spells l c).
Proof.
  intros Hl. split.
  - intros <-. clear Hl.
    destruct c as [[] [] [] [] [] [] [] []];
      first [left; reflexivity | right; split; reflexivity].
  - intros [-> | [Hs ->]].
    + unfold Str.lower_char. unfold is_capital in Hl. now rewrite Hl.
    + clear Hl.
      destruct l as [[] [] [] [] [] [] [] []];
        first [discriminate Hs | reflexivity].
Qed.

Lemma toLowerCase_spells : forall w t,
  no_capitals w = true -> (Str.toLowerCase t = w <-> spells_word w t).
Proof.
  induction w as [|l w IH]; intros t Hw.
  - split.
    + destruct t; [constructor | discriminate].
    + intros H. inversion H. reflexivity.
  - unfold no_capitals in Hw. simpl in Hw. apply andb_prop in Hw as [Hl Hw].
    apply negb_true_iff in Hl. split.
    + destruct t as [|c t]; [discriminate|]. simpl. intros H.
      injection H as Hc Ht. constructor.
      * now apply lower_char_spells.
      * now apply IH.
    + intros H. inversion H as [|l' c w' t' Hc Ht]; subst. simpl.
      f_equal; [now apply lower_char_spells | now apply IH].
Qed.

(** A word without capitals occurs, in whatever case, in [s] exactly when
    it is part of [s] written in small letters. *)
Lemma occurs_ci_iff w s :
  no_capitals w = true ->
  (Str.contains w (Str.toLowerCase s) = true <-> occurs_ci w s).
Proof.
  intros Hw. rewrite contains_iff. unfold occurs_ci. split.
  - intros (pre & post & H).
    apply toLowerCase_split in H. destruct H as (s1 & s23 & -> & _ & H).
    apply toLowerCase_split in H. destruct H as (s2 & s3 & -> & H2 & _).
    exists s1, s2, s3. split; [reflexivity|]. now apply toLowerCase_spells.
  - intros (pre & mid & post & -> & H).
    apply toLowerCase_spells in H; [|exact Hw].
    exists (Str.toLowerCase pre), (Str.toLowerCase post).
    now rewrite !toLowerCase_app, H.
Qed.


(** ** Trimming *)

Lemma trim_start_no_space s :
  match Str.trim_start s with
  | String c _ => Str.is_space c = false
  | EmptyString => True
  end.
Proof.
  induction s as [|c r IH]; simpl; [exact I|].
  destruct (Str.is_space c) eqn:E; [exact IH | exact E].
Qed.

Lemma trim_start_idem s :
  Str.trim_start (Str.trim_start s) = Str.trim_start s.
Proof.
  pose proof (trim_start_no_space s) as H.
  destruct (Str.trim_start s) as [|c r]; [reflexivity|].
  simpl. now rewrite H.
Qed.

Lemma trim_start_tail s : exists sp, s = (sp ++ Str.trim_start s)%string.
Proof.
  induction s as [|c r [sp IH]]; simpl.
  - now exists "".
  - destruct (Str.is_space c).
    + exists (String c sp). simpl. now rewrite <- IH.
    + now exists "".
Qed.

(** Trimming twice is trimming once. *)
Lemma trim_idem s : Str.trim (Str.trim s) = Str.trim s.
Proof.
  unfold Str.trim.
  set (a := Str.trim_start s).
  pose proof (trim_start_no_space s) as Ha. fold a in Ha.
  destruct (trim_start_tail (Str.rev a)) as [sp Hsp].
  set (t := Str.trim_start (Str.rev a)) in *.
  assert (Hidem : Str.trim_start t = t) by apply trim_start_idem.
  assert (Hb : Str.trim_start (Str.rev t) = Str.rev t).
  { assert (E : a = (Str.rev t ++ Str.rev sp)%string).
    { rewrite <- (str_rev_involutive a), Hsp. apply str_rev_app. }
    destruct (Str.rev t) as [|c r]; [reflexivity|].
    rewrite E in Ha. simpl in Ha. simpl. now rewrite Ha. }
  rewrite Hb, str_rev_involutive, Hidem. reflexivity.
Qed.

Lemma Number_trim s : Conv.Number (Str.trim s) = Conv.Number s.
Proof. unfold Conv.Number. now rewrite trim_idem. Qed.

Lemma or_empty s : Str.or s "" = s.
Proof. now destruct s. Qed.
(* ================================================================== *)
(** * The monad *)

Lemma bind_ok {A B} (m : IO A) (k : A -> IO B) tr a tr' :
  m tr = (Ok a, tr') -> bind m k tr = k a tr'.
Proof. intros H. unfold bind. now rewrite H. Qed.


(* ================================================================== *)
(** * The still conversion chain *)

Section StillChain.

Variable W : World.

(** What one attempt does, case by case. *)
Lemma attempt_cases cmd args dst method label failures tr :
  let res := w_spawn W tr cmd args in
  let tr1 := (tr ++ [EvSpawn cmd args res])%list in
  (code res = Some 0 /\ w_access W tr1 dst = true /\
   attempt W cmd args dst method label failures tr
   = (Ok (inl (ConvOk dst method)), (tr1 ++ [EvAccess dst true])%list))
  \/ (code res = Some 0 /\ w_access W tr1 dst = false /\
      attempt W cmd args dst method label failures tr
      = (Ok (inr (failures ++ [exit_diagnostic label res])%list),
         (tr1 ++ [EvAccess dst false])%list))
  \/ (code res <> Some 0 /\
      attempt W cmd args dst method label failures tr
      = (Ok (inr (failures ++ [exit_diagnostic label res])%list), tr1)).
Proof.
  intros res tr1. unfold attempt, bind, run, exists_, ret. fold res. fold tr1.
  unfold code_is_zero.
  destruct (code res) as [[|p|p]|] eqn:Hc;
    try (right; right; split; [congruence | reflexivity]).
  destruct (w_access W tr1 dst) eqn:Ha.
  - left. auto.
  - right. left. auto.
Qed.

Lemma convertStill_chain tools src dst q c :
  convertStill W tools src dst q c = chain W dst (strategies tools src dst q c) [].
Proof.
  unfold convertStill, strategies, when_present.
  destruct (present (imagemagick tools)), (present (heif_convert tools)),
    (present (ffmpeg tools)); reflexivity.
Qed.

(** The chain as a whole: it always returns; a success ends the trace with
    the successful process and the check of the destination; a failure has
    run every strategy and kept one diagnostic for each. *)
Lemma chain_spec dst : forall ss fs tr,
  exists r evs,
    chain W dst ss fs tr = (Ok r, (tr ++ evs)%list) /\
    match r with
    | ConvOk p m =>
        exists pre s post res evs0,
          ss = (pre ++ s :: post)%list /\ p = dst /\ m = st_method s /\
          evs = (evs0 ++ [EvSpawn (st_cmd s) (st_args s) res;
                          EvAccess dst true])%list /\
          code res = Some 0 /\
          ~ In (EvAccess dst true) evs0 /\
          map fst (spawned evs0) = map invocation pre
    | ConvFail fs' =>
        map fst (spawned evs) = map invocation ss /\
        fs' = (fs ++ map diagnostic (combine ss (spawned evs)))%list /\
        ~ In (EvAccess dst true) evs
    end.
Proof.
  induction ss as [|s rest IH]; intros fs tr.
  - exists (ConvFail fs), []. simpl. unfold ret. rewrite !app_nil_r.
    repeat split; auto.
  - simpl chain.
    destruct (attempt_cases (st_cmd s) (st_args s) dst (st_method s)
                (st_label s) fs tr) as [(Hc & Ha & E) | [(Hc & Ha & E) | (Hc & E)]];
      rewrite (bind_ok _ _ _ E).
    + (* success *)
      exists (ConvOk dst (st_method s)).
      eexists. unfold ret. split.
      * rewrite <- app_assoc. reflexivity.
      * exists [], s, rest, (w_spawn W tr (st_cmd s) (st_args s)), [].
        simpl. repeat split; auto.
    + (* exit 0 but no destination file *)
      destruct (IH (fs ++ [exit_diagnostic (st_label s)
                             (w_spawn W tr (st_cmd s) (st_args s))])%list
                  ((tr ++ [EvSpawn (st_cmd s) (st_args s)
                             (w_spawn W tr (st_cmd s) (st_args s))])
                     ++ [EvAccess dst false])%list)
        as (r & evs & E' & Hr).
      exists r. eexists. split.
      * rewrite E'. rewrite <- !app_assoc. simpl. reflexivity.
      * destruct r as [p m | fs'].
        -- destruct Hr as (pre & s' & post & res & evs0 & -> & -> & -> & -> & Hz & Hn & Hs).
           exists (s :: pre), s', post, res.
           eexists (_ :: _ :: evs0)%list. simpl.
           repeat split; auto.
           ++ intros [H | [H | H]]; try discriminate. auto.
           ++ simpl. now rewrite Hs.
        -- destruct Hr as (Hs & -> & Hn). simpl. repeat split.
           ++ simpl. now rewrite Hs.
           ++ now rewrite <- app_assoc.
           ++ intros [H | [H | H]]; try discriminate. auto.
    + (* non-zero exit *)
      destruct (IH (fs ++ [exit_diagnostic (st_label s)
                             (w_spawn W tr (st_cmd s) (st_args s))])%list
                  (tr ++ [EvSpawn (st_cmd s) (st_args s)
                            (w_spawn W tr (st_cmd s) (st_args s))])%list)
        as (r & evs & E' & Hr).
      exists r. eexists. split.
      * rewrite E'. rewrite <- !app_assoc. simpl. reflexivity.
      * destruct r as [p m | fs'].
        -- destruct Hr as (pre & s' & post & res & evs0 & -> & -> & -> & -> & Hz & Hn & Hs).
           exists (s :: pre), s', post, res.
           eexists (_ :: evs0)%list. simpl.
           repeat split; auto.
           ++ intros [H | H]; try discriminate. auto.
           ++ simpl. now rewrite Hs.
        -- destruct Hr as (Hs & -> & Hn). simpl. repeat split.
           ++ simpl. now rewrite Hs.
           ++ now rewrite <- app_assoc.
           ++ intros [H | H]; try discriminate. auto.
Qed.

Lemma convertStill_total tools src dst q c tr :
  exists r evs, convertStill W tools src dst q c tr = (Ok r, (tr ++ evs)%list).
Proof.
  rewrite convertStill_chain.
  destruct (chain_spec dst (strategies tools src dst q c) [] tr)
    as (r & evs & E & _).
  eauto.
Qed.


(** The first process of a chain is that of its first strategy. *)
Lemma chain_first dst s tl fs tr :
  exists rest,
    snd (chain W dst (s :: tl) fs tr)
    = (tr ++ EvSpawn (st_cmd s) (st_args s)
               (w_spawn W tr (st_cmd s) (st_args s)) :: rest)%list.
Proof.
  simpl chain.
  destruct (attempt_cases (st_cmd s) (st_args s) dst (st_method s)
              (st_label s) fs tr) as [(Hc & Ha & E) | [(Hc & Ha & E) | (Hc & E)]];
    rewrite (bind_ok _ _ _ E).
  - unfold ret. simpl. eexists. rewrite <- app_assoc. reflexivity.
  - match goal with |- context [chain W dst tl ?f ?t] =>
      destruct (chain_spec dst tl f t) as (r' & evs' & E' & _) end.
    rewrite E'. simpl. eexists. rewrite <- !app_assoc. reflexivity.
  - match goal with |- context [chain W dst tl ?f ?t] =>
      destruct (chain_spec dst tl f t) as (r' & evs' & E' & _) end.
    rewrite E'. simpl. eexists. rewrite <- !app_assoc. reflexivity.
Qed.

(** C2. With ImageMagick available, the first process that [convertStill]
    starts is ImageMagick, and the geometric operations on its command line
    are [-rotate 180], the operations of code 3, for every orientation code
    that the caller resolved: the code is not consulted. *)
Theorem convertStill_imagemagick_ops_fixed :
  forall tools src dst q c tr cmd,
    present (imagemagick tools) = Some cmd ->
    exists prefix rest,
      snd (convertStill W tools src dst q c tr)
      = (tr ++ EvSpawn cmd
                 (prefix ++ src :: ["-rotate"; "180"]
                         ++ ["-quality"; Str.of_Z q; dst])
                 (w_spawn W tr cmd (imagemagick_args tools src dst q))
            :: rest)%list /\
      (prefix = ["convert"] \/ prefix = []).
Proof.
  intros tools src dst q c tr cmd Hp.
  rewrite convertStill_chain.
  unfold strategies, when_present. rewrite Hp.
  cbn [app].
  match goal with |- context [chain W dst (?s :: ?tl) [] tr] =>
    destruct (chain_first dst s tl [] tr) as (rest & E) end.
  cbn [st_cmd st_args] in E. rewrite E. clear E.
  unfold imagemagick_args at 1.
  change (imagemagickOpsForExif (Js.of_Z 3)) with ["-rotate"; "180"].
  destruct (present (magick tools)).
  - exists ["convert"], rest. split; [reflexivity | now left].
  - exists [], rest. split; [reflexivity | now right].
Qed.

(** C8. When ffmpeg is the strategy that runs, its quality argument is
    [-qscale:v 3] whatever quality was requested: the requested quality is
    not consulted. *)
Theorem convertStill_ffmpeg_qscale_fixed :
  forall tools src dst q c tr cmd,
    present (imagemagick tools) = None ->
    present (heif_convert tools) = None ->
    present (ffmpeg tools) = Some cmd ->
    exists vf rest,
      snd (convertStill W tools src dst q c tr)
      = (tr ++ EvSpawn cmd
                 (["-hide_banner"; "-y"; "-noautorotate"; "-i"; src;
                   "-frames:v"; "1"] ++ vf ++ ["-qscale:v"; "3"; dst])
                 (w_spawn W tr cmd (ffmpeg_args src dst c))
            :: rest)%list /\
      (vf = [] \/ exists f, ffmpegFilterForExif c = Some f /\ vf = ["-vf"; f]).
Proof.
  intros tools src dst q c tr cmd Hi Hh Hf.
  rewrite convertStill_chain.
  unfold strategies, when_present. rewrite Hi, Hh, Hf.
  cbn [app].
  match goal with |- context [chain W dst (?s :: ?tl) [] tr] =>
    destruct (chain_first dst s tl [] tr) as (rest & E) end.
  cbn [st_cmd st_args] in E. rewrite E. clear E.
  unfold ffmpeg_args at 1.
  change (Conv.String_of ffmpeg_qscale) with "3".
  destruct (ffmpegFilterForExif c) as [f|] eqn:Ef.
  - destruct (Str.truthy f).
    + exists ["-vf"; f], rest. split; [reflexivity | right; eauto].
    + exists [], rest. split; [reflexivity | now left].
  - exists [], rest. split; [reflexivity | now left].
Qed.

End StillChain.

(* ================================================================== *)
(** * The container scanner *)

Section Scanner.

Variable needle : list Byte.byte.
Hypothesis needle_nonempty : needle <> [].

Lemma starts_with_nil : starts_with needle [] = false.
Proof. destruct needle; [contradiction | reflexivity]. Qed.

Lemma occurs_at_lt buf i : occurs_at needle buf i -> (i < List.length buf)%nat.
Proof.
  unfold occurs_at. intros H.
  destruct (Nat.lt_ge_cases i (List.length buf)) as [|Hge]; auto.
  rewrite skipn_all2 in H by assumption.
  rewrite starts_with_nil in H. discriminate.
Qed.

Lemma indexOf_aux_none buf : forall pos,
  indexOf_aux needle buf pos = None ->
  forall k, starts_with needle (skipn k buf) = false.
Proof.
  induction buf as [|b tl IH]; intros pos H k.
  - rewrite skipn_nil. apply starts_with_nil.
  - simpl in H.
    destruct (starts_with needle (b :: tl)) eqn:E; [discriminate|].
    destruct k as [|k]; simpl; eauto.
Qed.

Lemma indexOf_aux_some buf : forall pos j,
  indexOf_aux needle buf pos = Some j ->
  exists k, j = (pos + k)%nat /\
            starts_with needle (skipn k buf) = true /\
            forall k', (k' < k)%nat -> starts_with needle (skipn k' buf) = false.
Proof.
  induction buf as [|b tl IH]; intros pos j H.
  - simpl in H. rewrite starts_with_nil in H. discriminate.
  - simpl in H.
    destruct (starts_with needle (b :: tl)) eqn:E.
    + injection H as <-. exists 0%nat. repeat split; auto with arith.
      intros k' Hk. inversion Hk.
    + apply IH in H. destruct H as (k & -> & Hk & Hmin).
      exists (S k). repeat split; auto with arith.
      intros [|k'] Hlt; simpl; auto with arith.
Qed.

Lemma indexOf_none buf i :
  indexOf buf needle i = None ->
  forall j, (i <= j)%nat -> ~ occurs_at needle buf j.
Proof.
  unfold indexOf, occurs_at. intros H j Hj.
  pose proof (indexOf_aux_none _ _ H (j - i)) as Hn.
  rewrite skipn_skipn in Hn.
  replace (j - i + i)%nat with j in Hn by lia.
  congruence.
Qed.

Lemma indexOf_some buf i j :
  indexOf buf needle i = Some j ->
  (i <= j)%nat /\ occurs_at needle buf j /\
  forall j', (i <= j')%nat -> (j' < j)%nat -> ~ occurs_at needle buf j'.
Proof.
  unfold indexOf, occurs_at. intros H.
  apply indexOf_aux_some in H. destruct H as (k & -> & Hk & Hmin).
  rewrite skipn_skipn in Hk. repeat split.
  - lia.
  - now rewrite Nat.add_comm.
  - intros j' H1 H2 Hocc.
    specialize (Hmin (j' - i)%nat ltac:(lia)).
    rewrite skipn_skipn in Hmin.
    replace (j' - i + i)%nat with j' in Hmin by lia.
    congruence.
Qed.

(** With enough fuel the loop of [bytesIndexAll] finds every occurrence
    from [i] on, in increasing order. *)
Lemma bytesIndexAll_loop_spec buf : forall fuel i,
  (List.length buf < fuel + i)%nat ->
  (forall j, In j (bytesIndexAll_loop fuel buf needle i)
             <-> (i <= j)%nat /\ occurs_at needle buf j)
  /\ StronglySorted lt (bytesIndexAll_loop fuel buf needle i).
Proof.
  induction fuel as [|fuel IH]; intros i Hfuel.
  - simpl. split; [|constructor].
    intros j. split; [contradiction|].
    intros [Hij Hocc]. apply occurs_at_lt in Hocc. lia.
  - simpl. destruct (indexOf buf needle i) as [j0|] eqn:E.
    + apply indexOf_some in E. destruct E as (Hle & Hocc & Hmin).
      destruct (IH (j0 + 1)%nat ltac:(lia)) as [Hin Hsorted].
      split.
      * intros j. simpl. rewrite Hin. split.
        -- intros [<- | [H1 H2]]; split; auto; lia.
        -- intros [H1 H2].
           destruct (Nat.eq_dec j0 j) as [|Hne]; [now left|right].
           split; auto.
           destruct (Nat.lt_ge_cases j j0) as [Hlt|]; [|lia].
           exfalso. exact (Hmin j H1 Hlt H2).
      * constructor; auto.
        apply Forall_forall. intros x Hx. apply Hin in Hx. lia.
    + split; [|constructor].
      intros j. split; [contradiction|].
      intros [H1 H2]. exact (indexOf_none E H1 H2).
Qed.

End Scanner.

Lemma bytesIndexAll_spec buf :
  (forall j, In j (bytesIndexAll buf "ftyp") <-> occurs_at ftyp buf j)
  /\ StronglySorted lt (bytesIndexAll buf "ftyp").
Proof.
  unfold bytesIndexAll.
  destruct (@bytesIndexAll_loop_spec ftyp ltac:(discriminate) buf
              (S (List.length buf)) 0%nat ltac:(lia)) as [Hin Hs].
  split; auto.
  intros j. rewrite (Hin j). split; [tauto|]. split; auto with arith.
Qed.

Lemma is_heif_like_truthy m : is_heif_like m = true -> Str.truthy m = true.
Proof. destruct m; [discriminate | reflexivity]. Qed.

Lemma candidateAt_some buf i c :
  candidateAt buf i = Some c <->
  0 < Z.of_nat i - 4 /\
  c = {| start := Z.of_nat i - 4; ftypIndex := Z.of_nat i;
         major := readAscii buf (Z.of_nat i + 4) 4 |} /\
  (forall m, readAscii buf (Z.of_nat i + 4) 4 = Some m -> is_heif_like m = false).
Proof.
  unfold candidateAt.
  destruct (Z.ltb_spec (Z.of_nat i - 4) 0) as [Hneg|Hnn].
  { split; [discriminate | intros (H & _); lia]. }
  destruct (Z.eqb_spec (Z.of_nat i - 4) 0) as [Hz|Hnz].
  { split; [discriminate | intros (H & _); lia]. }
  destruct (readAscii buf (Z.of_nat i + 4) 4) as [m|] eqn:Em.
  - destruct (is_heif_like m) eqn:Eh.
    + rewrite (is_heif_like_truthy _ Eh). simpl.
      split; [discriminate|]. intros (_ & _ & H).
      specialize (H m eq_refl). congruence.
    + rewrite andb_false_r. split.
      * intros H. injection H as <-. repeat split; [lia|].
        intros m' H'. injection H' as <-. exact Eh.
      * intros (_ & -> & _). reflexivity.
  - split.
    + intros H. injection H as <-. repeat split; [lia|]. discriminate.
    + intros (_ & -> & _). reflexivity.
Qed.

Lemma collectCandidates_in buf idxs c :
  In c (collectCandidates buf idxs) <->
  exists i, In i idxs /\ candidateAt buf i = Some c.
Proof.
  induction idxs as [|i rest IH]; simpl.
  - split; [contradiction | intros (i & [] & _)].
  - destruct (candidateAt buf i) as [c0|] eqn:E; simpl; rewrite IH; split.
    + intros [<- | (j & Hj & Hc)]; eauto.
    + intros (j & [<- | Hj] & Hc); [left; congruence | right; eauto].
    + intros (j & Hj & Hc); eauto.
    + intros (j & [<- | Hj] & Hc); [congruence | eauto].
Qed.

Lemma collectCandidates_sorted buf idxs :
  StronglySorted lt idxs ->
  StronglySorted (fun a b => start a < start b) (collectCandidates buf idxs).
Proof.
  induction 1 as [|i rest Hs IH Hall]; simpl; [constructor|].
  destruct (candidateAt buf i) as [c0|] eqn:E; auto.
  constructor; auto.
  apply Forall_forall. intros c Hc.
  apply collectCandidates_in in Hc. destruct Hc as (j & Hj & Hc).
  rewrite Forall_forall in Hall. specialize (Hall j Hj).
  apply candidateAt_some in E. apply candidateAt_some in Hc.
  destruct E as (_ & -> & _). destruct Hc as (_ & -> & _). simpl. lia.
Qed.

Lemma sort_insert_last {A} (cmp : A -> A -> Z) x l :
  (forall y, In y l -> 0 < cmp x y) -> sort_insert cmp x l = (l ++ [x])%list.
Proof.
  induction l as [|y r IH]; intros H; simpl; auto.
  destruct (Z.leb_spec (cmp x y) 0) as [Hle|Hgt].
  - specialize (H y (or_introl eq_refl)). lia.
  - rewrite IH; auto. intros z Hz. apply H. now right.
Qed.

(** Sorting by decreasing [start] a list whose [start]s increase reverses
    it. *)
Lemma js_sort_increasing l :
  StronglySorted (fun a b => start a < start b) l ->
  js_sort (fun a b => start b - start a) l = rev l.
Proof.
  induction 1 as [|x r Hs IH Hall]; simpl; auto.
  rewrite IH. apply sort_insert_last.
  intros y Hy. apply in_rev in Hy.
  rewrite Forall_forall in Hall. specialize (Hall y Hy). lia.
Qed.

Lemma sorted_snoc {A} (R : A -> A -> Prop) l x :
  StronglySorted R l -> Forall (fun y => R y x) l ->
  StronglySorted R (l ++ [x]).
Proof.
  induction 1 as [|a l Hs IH Hall]; intros Hx; simpl.
  - constructor; constructor.
  - inversion Hx; subst. constructor; auto.
    apply Forall_app. split; auto.
Qed.

Lemma sorted_rev_decreasing l :
  StronglySorted (fun a b => start a < start b) l ->
  StronglySorted (fun a b => start a > start b) (rev l).
Proof.
  induction 1 as [|x r Hs IH Hall]; simpl; [constructor|].
  apply sorted_snoc; auto.
  apply Forall_forall. intros y Hy. apply in_rev in Hy.
  rewrite Forall_forall in Hall. specialize (Hall y Hy). lia.
Qed.

Lemma sorted_lt_pair (l : list nat) a b :
  StronglySorted lt l -> (a < b)%nat ->
  (forall j, In j l <-> j = a \/ j = b) -> l = [a; b].
Proof.
  intros Hs Hab Hin.
  destruct l as [|x r].
  { destruct (proj2 (Hin a) (or_introl eq_refl)). }
  inversion Hs as [|? ? Hs' Hall]; subst. rewrite Forall_forall in Hall.
  assert (Hx : x = a).
  { destruct (proj1 (Hin x) (or_introl eq_refl)) as [H | H]; auto.
    destruct (proj2 (Hin a) (or_introl eq_refl)) as [H' | H']; auto.
    specialize (Hall a H'). lia. }
  subst x.
  destruct r as [|y r'].
  { destruct (proj2 (Hin b) (or_intror eq_refl)) as [H | H];
      [lia | destruct H]. }
  inversion Hs' as [|? ? Hs'' Hall']; subst. rewrite Forall_forall in Hall'.
  assert (Hy : y = b).
  { destruct (proj1 (Hin y) (or_intror (or_introl eq_refl))) as [H | H]; auto.
    specialize (Hall y (or_introl eq_refl)). lia. }
  subst y.
  destruct r' as [|z r'']; auto.
  specialize (Hall' z (or_introl eq_refl)).
  specialize (Hall z (or_intror (or_introl eq_refl))).
  destruct (proj1 (Hin z) (or_intror (or_intror (or_introl eq_refl)))); lia.
Qed.

Lemma scanCandidates_rev buf :
  scanCandidates buf = rev (collectCandidates buf (bytesIndexAll buf "ftyp")).
Proof.
  unfold scanCandidates. apply js_sort_increasing.
  apply collectCandidates_sorted. apply bytesIndexAll_spec.
Qed.

(** The scanner in terms of its own helpers. *)
Lemma scanCandidates_by_code buf :
  (forall c,
      In c (scanCandidates buf) <->
      exists i : nat,
        occurs_at ftyp buf i /\
        0 < Z.of_nat i - 4 /\
        c = {| start := Z.of_nat i - 4; ftypIndex := Z.of_nat i;
               major := readAscii buf (Z.of_nat i + 4) 4 |} /\
        (forall m, readAscii buf (Z.of_nat i + 4) 4 = Some m ->
                   is_heif_like m = false))
  /\ StronglySorted (fun a b => start a > start b) (scanCandidates buf).
Proof.
  rewrite scanCandidates_rev.
  destruct (bytesIndexAll_spec buf) as [Hin Hsorted].
  repeat split.
  - intros Hc. apply in_rev in Hc. apply collectCandidates_in in Hc.
    destruct Hc as (i & Hi & Hc). apply candidateAt_some in Hc.
    destruct Hc as (Hpos & -> & Hb).
    exists i. repeat split; auto. now apply Hin.
  - intros (i & Hocc & Hpos & -> & Hb).
    apply in_rev. rewrite rev_involutive. apply collectCandidates_in.
    exists i. split; [now apply Hin|].
    apply candidateAt_some. repeat split; auto.
  - apply sorted_rev_decreasing. now apply collectCandidates_sorted.
Qed.

Lemma starts_with_firstn needle : forall l,
  starts_with needle l = true <-> firstn (List.length needle) l = needle.
Proof.
  induction needle as [|n ns IH]; intros l; simpl.
  - split; reflexivity.
  - destruct l as [|b bs]; simpl; [split; discriminate|].
    rewrite andb_true_iff, IH. split.
    + intros [E H]. apply Byte.byte_dec_bl in E. subst. now rewrite H.
    + intros H. injection H as -> H. split; [|exact H].
      now apply Byte.byte_dec_lb.
Qed.

Lemma occurs_at_marker buf i : occurs_at ftyp buf i <-> marker_at buf i.
Proof. unfold occurs_at, marker_at. apply (starts_with_firstn ftyp). Qed.

Lemma readAscii_brand buf i :
  readAscii buf (Z.of_nat i + 4) 4 = brand_text buf i.
Proof.
  unfold readAscii, brand_text, brand_bytes.
  replace (Z.of_nat i + 4 <? 0) with false by (symmetry; apply Z.ltb_ge; lia).
  cbn [orb].
  replace (Z.to_nat (Z.of_nat i + 4)) with (i + 4)%nat by lia.
  destruct (Z.ltb_spec (Z.of_nat (List.length buf)) (Z.of_nat i + 4 + 4));
    destruct (Nat.ltb_spec (List.length buf) (i + 8)); try lia; reflexivity.
Qed.

Lemma low7_ascii b : N_of_ascii (ascii_of_N (low7 b)) = low7 b.
Proof. destruct b; vm_compute; reflexivity. Qed.

Lemma low7_small b : (Byte.to_N b < 128)%N -> low7 b = Byte.to_N b.
Proof. destruct b; vm_compute; intros H; first [reflexivity | discriminate H]. Qed.

Lemma map_to_N_inj : forall a b,
  map Byte.to_N a = map Byte.to_N b -> a = b.
Proof.
  induction a as [|x a IH]; intros [|y b] H; try discriminate; auto.
  simpl in H. injection H as Hx H. f_equal; [|now apply IH].
  assert (E : Byte.of_N (Byte.to_N x) = Byte.of_N (Byte.to_N y)) by now rewrite Hx.
  rewrite !Byte.of_to_N in E. now injection E.
Qed.

(** The brands of the family are 7-bit texts. *)
Lemma family_low7 w :
  In w still_image_family ->
  map N_of_ascii (list_ascii_of_string w) = map low7 (list_byte_of_string w)
  /\ map low7 (list_byte_of_string w) = map Byte.to_N (list_byte_of_string w).
Proof.
  intros H. simpl in H.
  repeat (destruct H as [<- | H]; [split; reflexivity|]). destruct H.
Qed.

(** A brand tag decodes to a text exactly when its low seven bits spell
    it. *)
Lemma decoded_brand_iff bs w :
  string_of_list_ascii (map (fun b => ascii_of_N (low7 b)) bs) = w
  <-> map low7 bs = map N_of_ascii (list_ascii_of_string w).
Proof.
  split.
  - intros <-. rewrite list_ascii_of_string_of_list_ascii, map_map.
    apply map_ext. intros b. symmetry. apply low7_ascii.
  - intros H. apply las_inj.
    rewrite list_ascii_of_string_of_list_ascii.
    revert bs H. generalize (list_ascii_of_string w) as l.
    induction l as [|c l IH]; intros [|b bs] H; try discriminate; auto.
    simpl in H. injection H as Hb H. simpl. f_equal; [|now apply IH].
    rewrite Hb. apply ascii_N_embedding.
Qed.

(** The test of the brand. *)
Lemma brand_test_iff buf i :
  (forall m, readAscii buf (Z.of_nat i + 4) 4 = Some m ->
             is_heif_like m = false)
  <-> (forall bs w,
          brand_bytes buf i = Some bs -> In w still_image_family ->
          map low7 bs <> map low7 (list_byte_of_string w)).
Proof.
  rewrite readAscii_brand. unfold brand_text.
  assert (Hfamily : HEIF_LIKE_BRANDS = still_image_family) by reflexivity.
  destruct (brand_bytes buf i) as [bs|]; simpl.
  2:{ split; intros; discriminate. }
  split.
  - intros H bs' w E Hw Hlow. injection E as <-.
    specialize (H _ eq_refl). apply Bool.not_true_iff_false in H. apply H.
    unfold is_heif_like. rewrite Hfamily. apply existsb_exists.
    exists w. split; [exact Hw|]. apply String.eqb_eq.
    apply decoded_brand_iff. rewrite Hlow.
    symmetry. now apply family_low7.
  - intros H m E. injection E as <-.
    apply Bool.not_true_iff_false. intros Hm.
    unfold is_heif_like in Hm. rewrite Hfamily in Hm.
    apply existsb_exists in Hm. destruct Hm as (w & Hw & E).
    apply String.eqb_eq in E. apply decoded_brand_iff in E.
    apply (H bs w eq_refl Hw). rewrite E. now apply family_low7.
Qed.

(** C5 (amended). The Container Scanner returns exactly the candidates of
    the occurrences of the marker [ftyp] whose start offset, four bytes
    before the marker, is strictly positive and whose brand tag -- the four
    bytes after the marker, when the buffer has them, with the high bit of
    every byte cleared -- is not in the still-image family; they come by
    decreasing start offset, each with its brand decoded as 7-bit text.
    For a tag made of 7-bit bytes this is the tag as it is.  In particular,
    when the marker occurs exactly twice, for a box at offset 0 and for a
    later box whose brand is not of the family, the only candidate is the
    later one. *)
Theorem scanCandidates_exact :
  forall buf,
    (forall c,
        In c (scanCandidates buf) <->
        exists i : nat,
          scanned_candidate buf i /\
          c = {| start := Z.of_nat i - 4; ftypIndex := Z.of_nat i;
                 major := brand_text buf i |})
    /\ StronglySorted (fun a b => start a > start b) (scanCandidates buf)
    /\ (forall i,
          (forall bs, brand_bytes buf i = Some bs ->
                      Forall (fun b => (Byte.to_N b < 128)%N) bs) ->
          (claimed_candidate buf i <-> scanned_candidate buf i))
    /\ (forall i1 bs,
          (forall j, marker_at buf j <-> j = 4%nat \/ j = i1) ->
          (4 < i1)%nat ->
          brand_bytes buf i1 = Some bs ->
          (forall w, In w still_image_family ->
                     map low7 bs <> map low7 (list_byte_of_string w)) ->
          scanCandidates buf
          = [{| start := Z.of_nat i1 - 4; ftypIndex := Z.of_nat i1;
                major := brand_text buf i1 |}]).
Proof.
  intros buf.
  destruct (scanCandidates_by_code buf) as [Hin Hsorted].
  split; [|split; [exact Hsorted | split]].
  - intros c. rewrite Hin. unfold scanned_candidate. split.
    + intros (i & Hocc & Hpos & -> & Hb). exists i.
      rewrite readAscii_brand. split; [|reflexivity].
      split; [now apply occurs_at_marker|]. split; [lia|].
      now apply brand_test_iff.
    + intros (i & (Hm & Hpos & Hb) & ->). exists i.
      split; [now apply occurs_at_marker|]. split; [lia|].
      split; [now rewrite readAscii_brand | now apply brand_test_iff].
  - intros i H7. unfold claimed_candidate, scanned_candidate.
    assert (Hsame : forall bs w,
               brand_bytes buf i = Some bs -> In w still_image_family ->
               (list_byte_of_string w = bs
                <-> map low7 bs = map low7 (list_byte_of_string w))).
    { intros bs w Hbs Hw. split; [now intros <-|].
      intros H. symmetry. apply map_to_N_inj.
      rewrite <- (proj2 (@family_low7 w Hw)), <- H.
      apply map_ext_in. intros b Hb. symmetry. apply low7_small.
      specialize (H7 bs Hbs). rewrite Forall_forall in H7. now apply H7. }
    split; intros (Hm & Hpos & Hb); (split; [exact Hm|]);
      (split; [exact Hpos|]).
    + intros bs w Hbs Hw Hlow. apply (Hb bs Hbs).
      apply in_map_iff. exists w. split; [|exact Hw].
      now apply (Hsame bs w Hbs Hw).
    + intros bs Hbs Hc. apply in_map_iff in Hc. destruct Hc as (w & E & Hw).
      apply (Hb bs w Hbs Hw). now apply (Hsame bs w Hbs Hw).
  - intros i1 bs Hocc Hlater Hbrand Hnot.
    rewrite scanCandidates_rev.
    destruct (bytesIndexAll_spec buf) as [Hidx Hs].
    assert (E : bytesIndexAll buf "ftyp" = [4%nat; i1]).
    { apply sorted_lt_pair; auto. intros j. rewrite Hidx, occurs_at_marker.
      apply Hocc. }
    rewrite E. cbn [collectCandidates].
    change (candidateAt buf 4) with (@None Candidate). cbn iota.
    assert (E1 : candidateAt buf i1
                 = Some {| start := Z.of_nat i1 - 4; ftypIndex := Z.of_nat i1;
                           major := brand_text buf i1 |}).
    { apply candidateAt_some. rewrite readAscii_brand.
      split; [lia|]. split; [reflexivity|].
      rewrite <- readAscii_brand. apply brand_test_iff.
      intros bs' w Hbs' Hw. rewrite Hbrand in Hbs'. injection Hbs' as <-.
      now apply Hnot. }
    rewrite E1. reflexivity.
Qed.

(* ================================================================== *)
(** * Degrees modulo 360 *)

Lemma Qtrunc_frac (q : Q) :
  (-1 < q - inject_Z (Js.Qtrunc q) /\ q - inject_Z (Js.Qtrunc q) < 1)%Q /\
  ((0 <= q)%Q -> (0 <= q - inject_Z (Js.Qtrunc q))%Q).
Proof.
  destruct q as [n d]. unfold Js.Qtrunc. simpl Qnum. simpl Qden.
  pose proof (Z.quot_rem' n (Zpos d)) as Hqr.
  assert (Hd : 0 < Zpos d) by lia.
  assert (Hpos : 0 <= n -> 0 <= Z.rem n (Zpos d) < Zpos d)
    by (intros; apply Z.rem_bound_pos; lia).
  assert (Hneg : n <= 0 -> - Zpos d < Z.rem n (Zpos d) <= 0)
    by (intros; apply Z.rem_bound_pos_neg; lia).
  set (k := Z.quot n (Zpos d)) in *. set (r := Z.rem n (Zpos d)) in *.
  unfold Qlt, Qle, Qminus, Qplus, Qopp, inject_Z. simpl.
  rewrite !Z.mul_1_r, ?Pos.mul_1_r.
  repeat split; intros; destruct (Z.le_ge_cases 0 n); nia.
Qed.

(** [x % 360] differs from [x] by a multiple of 360, lies strictly between
    -360 and 360, and is not negative when [x] is not. *)
Lemma rem360_range (x : Q) :
  exists y k,
    Js.rem (Fin x) (Js.of_Z 360) = Fin y /\
    (-360 < y)%Q /\ (y < 360)%Q /\ (y == x + 360 * inject_Z k)%Q /\
    ((0 <= x)%Q -> (0 <= y)%Q).
Proof.
  exists (x - inject_Z 360 * inject_Z (Js.Qtrunc (x / inject_Z 360)))%Q,
         (- Js.Qtrunc (x / inject_Z 360)).
  split; [reflexivity|].
  destruct (Qtrunc_frac (x / inject_Z 360)) as [[Hlo Hhi] Hsign].
  assert (Hx : (inject_Z 360 * (x / inject_Z 360) == x)%Q)
    by (apply Qmult_div_r; discriminate).
  rewrite inject_Z_opp.
  change (inject_Z 360) with 360%Q in *.
  set (q := (x / 360)%Q) in *. set (t := inject_Z (Js.Qtrunc q)) in *.
  repeat split; lra.
Qed.

Lemma multiple_of_360_small (y : Q) (k : Z) :
  (-360 < y)%Q -> (y < 360)%Q -> (y == 360 * inject_Z k)%Q -> (y == 0)%Q.
Proof.
  intros Hlo Hhi E.
  assert (Hk : k = 0).
  { assert (H1 : (-1 < inject_Z k)%Q) by lra.
    assert (H2 : (inject_Z k < 1)%Q) by lra.
    unfold Qlt in H1, H2. simpl in H1, H2. lia. }
  subst k. rewrite E. reflexivity.
Qed.

(** Rational numbers that are equal have the same Number value. *)
Lemma of_Q_Qeq (x y : Q) : (x == y)%Q -> Js.of_Q x = Js.of_Q y.
Proof.
  intros E. unfold Js.of_Q. now rewrite (Qred_complete _ _ E).
Qed.

Lemma of_Q_small_integers :
  forallb (fun n =>
             match Js.of_Q (inject_Z (Z.of_nat n)) with
             | Fin q => (Qnum q =? Z.of_nat n) && (Zpos (Qden q) =? 1)
             | _ => false
             end) (seq 0 721) = true.
Proof. vm_compute. reflexivity. Qed.

(** The integers from 0 to 720 are doubles. *)
Lemma of_Q_small (z : Z) :
  0 <= z <= 720 -> Js.of_Q (inject_Z z) = Fin (inject_Z z).
Proof.
  intros Hz. pose proof of_Q_small_integers as H.
  rewrite forallb_forall in H. specialize (H (Z.to_nat z)).
  rewrite Z2Nat.id in H by lia.
  assert (Hin : In (Z.to_nat z) (seq 0 721)) by (apply in_seq; lia).
  specialize (H Hin).
  destruct (Js.of_Q (inject_Z z)) as [| s | [n d]]; try discriminate.
  cbn [Qnum Qden] in H. apply andb_prop in H as [Hn Hd].
  apply Z.eqb_eq in Hn. apply Z.eqb_eq in Hd.
  unfold inject_Z. f_equal. f_equal; [exact Hn|]. congruence.
Qed.

(** Texts are read to the nearest double, sums are rounded, and a number
    is printed with the digits that tell it apart. *)
Lemma Number_reads_doubles :
  Conv.Number "100.00000000000000001" = Js.of_Z 100
  /\ Conv.Number "0.99999999999999999" = Js.of_Z 1
  /\ Conv.Number "8.0000000000000000001" = Js.of_Z 8
  /\ Conv.Number "360.00000000000000001" = Js.of_Z 360
  /\ Conv.Number "0.3000000000000000001" = Js.of_Q (3 # 10)
  /\ Js.isFinite (Conv.Number "1e400") = false
  /\ normalize360 (Conv.Number "89.99999999999999") = Js.of_Z 90
  /\ Conv.String_of (Js.of_Q (inject_Z (10 ^ 21))) = "1e+21"
  /\ Conv.String_of (Conv.Number "0.1") = "0.1"
  /\ quality_accepted "100.00000000000000001" = true
  /\ quality_accepted "0.99999999999999999" = true.
Proof. vm_compute. repeat split. Qed.

Lemma inject_Z_lt (a b : Z) : (inject_Z a < inject_Z b)%Q <-> a < b.
Proof. unfold Qlt. simpl. lia. Qed.

Lemma inject_Z_le (a b : Z) : (inject_Z a <= inject_Z b)%Q <-> a <= b.
Proof. unfold Qle. simpl. lia. Qed.

Lemma inject_Z_eq (a b : Z) : (inject_Z a == inject_Z b)%Q <-> a = b.
Proof. unfold Qeq. simpl. lia. Qed.

(** The remainder of a whole number of degrees. *)
Lemma rem360_integer (x : Q) (z : Z) :
  (x == inject_Z z)%Q ->
  exists y m,
    Js.rem (Fin x) (Js.of_Z 360) = Fin y /\ (y == inject_Z m)%Q
    /\ -360 < m < 360 /\ m mod 360 = z mod 360 /\ (0 <= z -> 0 <= m).
Proof.
  intros E.
  destruct (rem360_range x) as (y & k & Hy & Hlo & Hhi & Hyx & Hpos).
  exists y, (z + 360 * k). split; [exact Hy|].
  assert (Hym : (y == inject_Z (z + 360 * k))%Q).
  { rewrite Hyx, E, inject_Z_plus, inject_Z_mult. reflexivity. }
  split; [exact Hym|].
  rewrite Hym in Hlo, Hhi.
  change (-360)%Q with (inject_Z (-360)) in Hlo.
  change 360%Q with (inject_Z 360) in Hhi.
  apply (proj1 (inject_Z_lt _ _)) in Hlo.
  apply (proj1 (inject_Z_lt _ _)) in Hhi.
  split; [lia|]. split.
  - rewrite Z.mul_comm. apply Z.mod_add. lia.
  - intros Hz. assert (H0 : (0 <= y)%Q).
    { apply Hpos. rewrite E. change 0%Q with (inject_Z 0).
      now apply inject_Z_le. }
    rewrite Hym in H0. change 0%Q with (inject_Z 0) in H0.
    now apply (proj1 (inject_Z_le _ _)) in H0.
Qed.

(** [((x % 360) + 360) % 360] of a whole number of degrees is its residue
    modulo 360: the one sum is exact. *)
Lemma normalize360_integer (x : Q) (z : Z) :
  (x == inject_Z z)%Q ->
  exists r, normalize360 (Fin x) = Fin r /\ (r == inject_Z (z mod 360))%Q.
Proof.
  intros E. unfold normalize360.
  destruct (rem360_integer E) as (y & m & -> & Hy & Hm & Hmod & _).
  assert (Hsum : Js.add (Fin y) (Js.of_Z 360) = Fin (inject_Z (m + 360))).
  { unfold Js.add, Js.of_Z.
    rewrite (@of_Q_Qeq (y + inject_Z 360) (inject_Z (m + 360))).
    - apply of_Q_small. lia.
    - rewrite Hy, inject_Z_plus. reflexivity. }
  rewrite Hsum.
  destruct (@rem360_integer (inject_Z (m + 360)) (m + 360) (Qeq_refl _))
    as (r & m' & -> & Hr & Hm' & Hmod' & Hpos).
  exists r. split; [reflexivity|]. rewrite Hr. apply inject_Z_eq.
  assert (H0 : 0 <= m') by (apply Hpos; lia).
  rewrite <- (Z.mod_small m' 360) by lia.
  rewrite Hmod', <- Hmod.
  replace (m + 360) with (m + 1 * 360) by lia. apply Z.mod_add. lia.
Qed.

Lemma eqb_inject (r : Q) (a c : Z) :
  (r == inject_Z a)%Q -> Js.eqb (Fin r) (Js.of_Z c) = (a =? c).
Proof.
  intros E. unfold Js.eqb, Js.of_Z.
  destruct (Z.eqb_spec a c) as [-> | Hne].
  - now apply Qeq_bool_iff.
  - apply Bool.not_true_iff_false. intros H. apply Qeq_bool_iff in H.
    rewrite E in H. now apply (proj1 (inject_Z_eq _ _)) in H.
Qed.

(** The remainder is zero exactly for a whole number of turns. *)
Lemma rem360_zero_iff (x : Q) :
  exists y,
    Js.rem (Fin x) (Js.of_Z 360) = Fin y
    /\ ((y == 0)%Q <-> multiple_of_360 x).
Proof.
  destruct (rem360_range x) as (y & k & -> & Hlo & Hhi & Hy & _).
  exists y. split; [reflexivity|]. split.
  - intros H0. exists (- k). rewrite inject_Z_opp. lra.
  - intros (k' & Hk'). apply (@multiple_of_360_small y (k' + k)); auto.
    rewrite inject_Z_plus. lra.
Qed.

(* ================================================================== *)
(** * The orientation resolver *)




(** The rotation that a stream is tagged with is what the script reads
    from it. *)
Lemma rotateTag_degrees (s : option Stream) (n : num) :
  stream_degrees s n <-> n = rotateTag s.
Proof.
  split.
  - intros [v t -> Ht Hne | H]; simpl.
    + rewrite Ht. destruct t; [now destruct Hne | reflexivity].
    + destruct H as [-> | (v & -> & [Ht | Ht])]; simpl; try rewrite Ht;
        reflexivity.
  - intros ->. destruct s as [v|]; simpl.
    + destruct (tags_rotate v) as [t|] eqn:Ht.
      * destruct t as [|c r].
        -- simpl. apply degrees_untagged. right. exists v. auto.
        -- change (Str.truthy (String c r)) with true. cbv iota.
           now apply (@degrees_tagged (Some v) v (String c r)).
      * apply degrees_untagged. right. exists v. auto.
    + apply degrees_untagged. now left.
Qed.





(** The two tables from an orientation code to the operations of a tool. *)
Lemma imagemagickOpsForExif_table :
  imagemagickOpsForExif (Js.of_Z 1) = []
  /\ imagemagickOpsForExif (Js.of_Z 2) = ["-flop"]
  /\ imagemagickOpsForExif (Js.of_Z 3) = ["-rotate"; "180"]
  /\ imagemagickOpsForExif (Js.of_Z 4) = ["-flip"]
  /\ imagemagickOpsForExif (Js.of_Z 5) = ["-transpose"]
  /\ imagemagickOpsForExif (Js.of_Z 6) = ["-rotate"; "90"]
  /\ imagemagickOpsForExif (Js.of_Z 7) = ["-transverse"]
  /\ imagemagickOpsForExif (Js.of_Z 8) = ["-rotate"; "270"].
Proof. repeat split. Qed.

Lemma ffmpegFilterForExif_table :
  ffmpegFilterForExif (Js.of_Z 1) = None
  /\ ffmpegFilterForExif (Js.of_Z 2) = Some "hflip"
  /\ ffmpegFilterForExif (Js.of_Z 3) = Some "hflip,vflip"
  /\ ffmpegFilterForExif (Js.of_Z 4) = Some "vflip"
  /\ ffmpegFilterForExif (Js.of_Z 5) = Some "transpose=1,hflip"
  /\ ffmpegFilterForExif (Js.of_Z 6) = Some "transpose=1"
  /\ ffmpegFilterForExif (Js.of_Z 7) = Some "transpose=2,hflip"
  /\ ffmpegFilterForExif (Js.of_Z 8) = Some "transpose=2".
Proof. repeat split. Qed.

Section Orientation.

Variable W : World.

Lemma code_is_zero_iff (res : RunResult) :
  code_is_zero res = true <-> code res = Some 0.
Proof.
  unfold code_is_zero. destruct (code res) as [[|p|p]|]; split; congruence.
Qed.

Lemma afterExif_extends tools file tr :
  exists evs, afterExif W tools file tr = (tr ++ evs)%list.
Proof.
  unfold afterExif. destruct (present (exiftool tools)).
  - eauto.
  - exists []. now rewrite app_nil_r.
Qed.

(** The first [if]: it yields a tag exactly when the tag of the metadata
    reader is accepted. *)
Lemma orientationFromExif_spec tools file tr :
  exists r,
    orientationFromExif W tools file tr = (Ok r, afterExif W tools file tr) /\
    forall t, r = Some t <-> exifAccepted W tools file tr t.
Proof.
  unfold orientationFromExif, afterExif, exifAccepted.
  destruct (present (exiftool tools)) as [cmd|] eqn:Ee.
  2:{ exists None. split; [reflexivity|].
      intros t. split; [discriminate | intros (c & H & _); discriminate]. }
  fold (orientation_args file). unfold bind, run.
  set (res := w_spawn W tr cmd (orientation_args file)).
  fold (orientationTag res). fold (in_1_8 (orientationTag res)).
  pose proof (code_is_zero_iff res) as Hz.
  destruct (code_is_zero res) eqn:Ec.
  - destruct (in_1_8 (orientationTag res)) eqn:Et.
    + exists (Some (orientationTag res)). split; [reflexivity|].
      intros t. split.
      * intros H. injection H as <-. exists cmd.
        split; [reflexivity|]. cbv zeta. fold res.
        split; [now apply Hz|]. split; [exact Et | reflexivity].
      * intros (c & Hc & _ & _ & ->). injection Hc as <-. reflexivity.
    + exists None. split; [reflexivity|].
      intros t. split; [discriminate|].
      intros (c & Hc & _ & Hin & _). injection Hc as <-.
      fold res in Hin. congruence.
  - exists None. split; [reflexivity|].
    intros t. split; [discriminate|].
    intros (c & Hc & Hcode & _). injection Hc as <-.
    fold res in Hcode. apply Hz in Hcode. discriminate.
Qed.

(** The second [if]: it yields a code exactly when the stream prober maps
    the rotation to it. *)
Lemma orientationFromProbe_spec tools file tr :
  exists r evs,
    orientationFromProbe W tools file tr = (Ok r, (tr ++ evs)%list) /\
    forall c, r = Some c <-> probeMapped W tools file tr c.
Proof.
  unfold orientationFromProbe, probeMapped.
  destruct (present (ffprobe tools)) as [cmd|] eqn:Ep.
  2:{ exists None, []. rewrite app_nil_r. split; [reflexivity|].
      intros c. split; [discriminate | intros (c' & j & H & _); discriminate]. }
  fold (rotation_probe_args file). unfold bind, run.
  set (probe := w_spawn W tr cmd (rotation_probe_args file)).
  pose proof (code_is_zero_iff probe) as Hz.
  destruct (code_is_zero probe) eqn:Ec.
  - destruct (w_JSON_parse W (Str.or (stdout probe) "{}")) as [json|] eqn:Ej.
    + exists (orientationOfProbe json). eexists. split; [reflexivity|].
      intros c. split.
      * intros H. exists cmd, json. split; [reflexivity|].
        cbv zeta. fold probe. split; [now apply Hz|]. split; assumption.
      * intros (c' & j & Hc & _ & Hj & Ho). injection Hc as <-.
        fold probe in Hj. rewrite Ej in Hj. injection Hj as <-. exact Ho.
    + exists None. eexists. split; [reflexivity|].
      intros c. split; [discriminate|].
      intros (c' & j & Hc & _ & Hj & _). injection Hc as <-.
      fold probe in Hj. congruence.
  - exists None. eexists. split; [reflexivity|].
    intros c. split; [discriminate|].
    intros (c' & j & Hc & Hcode & _). injection Hc as <-.
    fold probe in Hcode. apply Hz in Hcode. discriminate.
Qed.

Lemma getExifOrientationCode_total tools file tr :
  exists n evs,
    getExifOrientationCode W tools file tr = (Ok n, (tr ++ evs)%list).
Proof.
  unfold getExifOrientationCode.
  destruct (orientationFromExif_spec tools file tr) as (r & E & _).
  rewrite (bind_ok _ _ _ E).
  destruct (afterExif_extends tools file tr) as (evs0 & ->).
  destruct r as [t|].
  - unfold ret. eauto.
  - destruct (orientationFromProbe_spec tools file (tr ++ evs0)%list)
      as (r & evs1 & E1 & _).
    rewrite (bind_ok _ _ _ E1). rewrite <- app_assoc.
    destruct r; unfold ret; eauto.
Qed.





End Orientation.

(* ================================================================== *)
(** * The MP4 normaliser *)

Lemma find_split {A} (f : A -> bool) l v :
  find f l = Some v <->
  exists l1 l2, l = (l1 ++ v :: l2)%list /\ f v = true /\
                forall x, In x l1 -> f x = false.
Proof.
  induction l as [|a l IH]; simpl.
  - split; [discriminate|]. intros (l1 & l2 & H & _). destruct l1; discriminate.
  - destruct (f a) eqn:Ea.
    + split.
      * intros H. injection H as <-. exists [], l. simpl.
        split; [reflexivity|]. split; [exact Ea|]. intros x [].
      * intros (l1 & l2 & H & Hv & Hn). destruct l1 as [|b l1].
        -- simpl in H. congruence.
        -- injection H as <- _. specialize (Hn a (or_introl eq_refl)). congruence.
    + rewrite IH. split.
      * intros (l1 & l2 & -> & Hv & Hn). exists (a :: l1), l2. simpl.
        split; [reflexivity|]. split; [exact Hv|].
        intros x [<- | Hx]; auto.
      * intros (l1 & l2 & H & Hv & Hn). destruct l1 as [|b l1].
        -- simpl in H. injection H as -> _. congruence.
        -- injection H as <- ->. exists l1, l2.
           split; [reflexivity|]. split; [exact Hv|].
           intros x Hx. apply Hn. now right.
Qed.

Lemma is_video_iff s : is_video s = true <-> is_video_stream s.
Proof.
  unfold is_video, is_video_stream.
  destruct (codec_type s) as [t|]; split; try discriminate.
  - intros H. apply String.eqb_eq in H. now subst.
  - intros H. injection H as ->. reflexivity.
Qed.

(** The stream that [find] returns is the first video stream. *)
Lemma firstVideoStream_iff json v :
  firstVideoStream json = Some v <-> first_stream_with is_video_stream json v.
Proof.
  unfold firstVideoStream, first_stream_with. rewrite find_split. split.
  - intros (l1 & l2 & E & Hv & Hn). exists l1, l2.
    destruct (streams json) as [l|]; [|destruct l1; discriminate].
    subst l. split; [reflexivity|]. split; [now apply is_video_iff|].
    intros s Hs Hc. apply is_video_iff in Hc. rewrite (Hn s Hs) in Hc.
    discriminate.
  - intros (l1 & l2 & E & Hv & Hn). rewrite E. exists l1, l2.
    split; [reflexivity|]. split; [now apply is_video_iff|].
    intros x Hx. destruct (is_video x) eqn:Ex; [|reflexivity].
    apply is_video_iff in Ex. destruct (Hn x Hx Ex).
Qed.

Lemma is_displaymatrix_iff sd :
  is_displaymatrix sd = true <-> typed_display_matrix sd.
Proof.
  unfold is_displaymatrix, typed_display_matrix.
  destruct (side_data_type sd) as [t|].
  - rewrite or_empty, occurs_ci_iff by reflexivity. split.
    + intros H. now exists t.
    + intros (ty & E & H). now injection E as ->.
  - split; [discriminate | intros (ty & E & _); discriminate].
Qed.

(** The type that ffprobe prints for a display matrix is written in two
    words. *)
Lemma Display_Matrix_not_typed sd :
  side_data_type sd = Some "Display Matrix" -> is_displaymatrix sd = false.
Proof. unfold is_displaymatrix. intros ->. reflexivity. Qed.

Lemma hasDisplayMatrix_iff json :
  mp4_hasDisplayMatrix json = true <->
  exists v, firstVideoStream json = Some v /\ has_typed_matrix v.
Proof.
  unfold mp4_hasDisplayMatrix, has_typed_matrix. fold (firstVideoStream json).
  rewrite existsb_exists. split.
  - intros (sd & Hin & Hd).
    destruct (firstVideoStream json) as [v|]; [|destruct Hin].
    destruct (side_data_list v) as [l|] eqn:El; [|destruct Hin].
    exists v. split; [reflexivity|]. exists l, sd.
    split; [exact El|]. split; [exact Hin | now apply is_displaymatrix_iff].
  - intros (v & -> & l & sd & -> & Hin & Hd). exists sd.
    split; [exact Hin | now apply is_displaymatrix_iff].
Qed.

(** [rotate && rotate !== 0] holds exactly for a finite rotation that is
    not a whole number of turns. *)
Lemma mp4_rotate_nonzero_iff json :
  Js.truthy (mp4_rotate json) && negb (Js.eqb (mp4_rotate json) (Js.of_Z 0))
  = true
  <-> exists q, rotateTag (firstVideoStream json) = Fin q
                /\ ~ multiple_of_360 q.
Proof.
  unfold mp4_rotate. fold (firstVideoStream json).
  destruct (rotateTag (firstVideoStream json)) as [| s | q];
    cbn [Js.isFinite]; cbv iota.
  - split; [discriminate | intros (q & E & _); discriminate].
  - split; [discriminate | intros (q & E & _); discriminate].
  - destruct (rem360_zero_iff q) as (y & -> & Hy).
    unfold Js.truthy, Js.eqb, Js.of_Z. change (inject_Z 0) with 0%Q.
    rewrite andb_diag, negb_true_iff. split.
    + intros H. exists q. split; [reflexivity|]. intros Hm.
      apply Hy in Hm. apply Qeq_bool_iff in Hm. congruence.
    + intros (q' & E & Hm). injection E as <-.
      apply Bool.not_true_iff_false. intros H. apply Qeq_bool_iff in H.
      apply Hm. now apply Hy.
Qed.

(** The test of [normalizeMp4] is the condition of the specification. *)
Lemma mp4_must_reencode_iff json :
  mp4_must_reencode json = true <-> reencode_condition json.
Proof.
  unfold mp4_must_reencode, reencode_condition. cbv zeta.
  rewrite orb_true_iff, mp4_rotate_nonzero_iff, hasDisplayMatrix_iff. split.
  - intros [(q & Hq & Hm) | (v & Hv & Hd)].
    + destruct (firstVideoStream json) as [v|] eqn:Ev.
      * exists v. split; [now apply firstVideoStream_iff|]. left.
        exists q. split; [now apply rotateTag_degrees | exact Hm].
      * exfalso. apply Hm. simpl in Hq. injection Hq as <-.
        exists 0. reflexivity.
    + exists v. split; [now apply firstVideoStream_iff | now right].
  - intros (v & Hv & [(q & Hq & Hm) | Hd]).
    + left. apply firstVideoStream_iff in Hv. rewrite Hv. exists q.
      split; [symmetry; now apply rotateTag_degrees | exact Hm].
    + right. exists v. split; [now apply firstVideoStream_iff | exact Hd].
Qed.

(** The filter for a whole number of degrees. *)
Lemma mp4_filter_integer json q z :
  rotateTag (firstVideoStream json) = Fin q -> (q == inject_Z z)%Q ->
  Str.or (mp4_filter (mp4_rotate json)) "null" = filter_of_degrees z.
Proof.
  intros Hq E. unfold mp4_rotate. fold (firstVideoStream json). rewrite Hq.
  cbn [Js.isFinite]. cbv iota.
  destruct (rem360_integer E) as (y & m & -> & Hy & _ & Hmod & _).
  unfold mp4_filter. cbv zeta.
  destruct (normalize360_integer Hy) as (r & -> & Hr).
  rewrite Hmod in Hr. rewrite !(eqb_inject _ Hr). unfold filter_of_degrees.
  destruct (z mod 360 =? 90); [reflexivity|].
  destruct (z mod 360 =? 270); [reflexivity|].
  destruct (z mod 360 =? 180); reflexivity.
Qed.

Lemma mp4_filter_not_finite json :
  Js.isFinite (rotateTag (firstVideoStream json)) = false ->
  Str.or (mp4_filter (mp4_rotate json)) "null" = "null".
Proof.
  intros H. unfold mp4_rotate. fold (firstVideoStream json). rewrite H.
  vm_compute. reflexivity.
Qed.

(** Whatever the rotation, the filter is one of four. *)
Lemma mp4_filter_four rot :
  In (Str.or (mp4_filter rot) "null")
     ["transpose=1"; "transpose=2"; "hflip,vflip"; "null"].
Proof.
  unfold mp4_filter. cbv zeta.
  destruct (Js.eqb _ (Js.of_Z 90)); [simpl; auto|].
  destruct (Js.eqb _ (Js.of_Z 270)); [simpl; auto|].
  destruct (Js.eqb _ (Js.of_Z 180)); simpl; auto.
Qed.

Section Normalizer.

Variable W : World.

(** C6. With ffmpeg available, the MP4 Normalizer runs ffmpeg exactly once,
    and both of its command lines carry [-movflags +faststart].  It
    re-encodes if and only if the first video stream is tagged with a
    rotation that is finite and not a whole number of turns, or some
    side-data entry of that stream has a type in which the one word
    [displaymatrix] occurs, capitals or not.  The filter is then one of
    four: for a whole number of degrees, taken modulo 360, [transpose=1] for
    90, [transpose=2] for 270, [hflip,vflip] for 180 and the identity filter
    [null] for any other.  Otherwise it remuxes with [-c copy].  The type
    [Display Matrix], in two words, is not recognised: an untagged stream
    that carries such entries only is remuxed.  The method reported on exit
    code 0 is the one that ran. *)
Theorem normalizeMp4_decision :
  forall tools tmpPath outPath json tr cmd,
    present (ffmpeg tools) = Some cmd ->
    exists args result,
      normalizeMp4 W tools tmpPath outPath json tr
      = (Ok result,
         (tr ++ [EvSpawn cmd args (w_spawn W tr cmd args)])%list) /\
      marked_faststart args /\
      (reencode_condition json ->
         (exists vf,
             args = reencode_args tmpPath outPath vf /\
             In vf ["transpose=1"; "transpose=2"; "hflip,vflip"; "null"]) /\
         (forall v q z,
             first_stream_with is_video_stream json v ->
             stream_degrees (Some v) (Fin q) -> (q == inject_Z z)%Q ->
             args = reencode_args tmpPath outPath (filter_of_degrees z)) /\
         (forall v d,
             first_stream_with is_video_stream json v ->
             stream_degrees (Some v) d -> Js.isFinite d = false ->
             args = reencode_args tmpPath outPath "null") /\
         (code (w_spawn W tr cmd args) = Some 0 -> result = NormOk "reencode")) /\
      (~ reencode_condition json ->
         args = remux_args tmpPath outPath /\
         (code (w_spawn W tr cmd args) = Some 0 -> result = NormOk "copy")) /\
      (forall v,
          first_stream_with is_video_stream json v ->
          (forall q, stream_degrees (Some v) (Fin q) -> multiple_of_360 q) ->
          (forall l sd, side_data_list v = Some l -> In sd l ->
                        side_data_type sd = Some "Display Matrix") ->
          args = remux_args tmpPath outPath) /\
      (code (w_spawn W tr cmd args) <> Some 0 ->
         result = NormFail "ffmpeg_failed" (Some (stderr (w_spawn W tr cmd args)))).
Proof.
  intros tools tmpPath outPath json tr cmd Hp.
  pose proof (mp4_must_reencode_iff json) as Hdec.
  unfold normalizeMp4. rewrite Hp. unfold mp4_plan.
  assert (Hcode : forall res : RunResult,
             (code res = Some 0 -> code_is_zero res = true) /\
             (code res <> Some 0 -> code_is_zero res = false)).
  { intros res. unfold code_is_zero.
    destruct (code res) as [[|p|p]|]; split; congruence. }
  assert (Hmatrix : forall v,
             first_stream_with is_video_stream json v ->
             (forall q, stream_degrees (Some v) (Fin q) -> multiple_of_360 q) ->
             (forall l sd, side_data_list v = Some l -> In sd l ->
                           side_data_type sd = Some "Display Matrix") ->
             ~ reencode_condition json).
  { intros v Hv Hrot Hsd (v' & Hv' & Hc).
    apply firstVideoStream_iff in Hv, Hv'. rewrite Hv in Hv'.
    injection Hv' as <-.
    destruct Hc as [(q & Hq & Hm) | (l & sd & Hl & Hin & Ht)].
    - apply Hm. now apply Hrot.
    - apply is_displaymatrix_iff in Ht.
      rewrite (Display_Matrix_not_typed _ (Hsd l sd Hl Hin)) in Ht.
      discriminate. }
  destruct (mp4_must_reencode json) eqn:Em.
  - (* re-encode *)
    assert (Hre : reencode_condition json) by now apply Hdec.
    set (vf := Str.or (mp4_filter (mp4_rotate json)) "null").
    change ((["-hide_banner"; "-y"; "-i"; tmpPath] ++
             ["-vf"; vf; "-c:v"; "libx264"; "-preset"; "veryfast"; "-crf";
              "20"; "-c:a"; "aac"; "-b:a"; "160k"; "-movflags"; "+faststart";
              outPath])%list) with (reencode_args tmpPath outPath vf).
    exists (reencode_args tmpPath outPath vf).
    unfold bind, run.
    set (res := w_spawn W tr cmd (reencode_args tmpPath outPath vf)).
    destruct (Hcode res) as [Hz Hnz].
    exists (if negb (code_is_zero res)
            then NormFail "ffmpeg_failed" (Some (stderr res))
            else NormOk "reencode").
    split; [destruct (code_is_zero res); reflexivity|].
    split.
    { exists ["-hide_banner"; "-y"; "-i"; tmpPath; "-vf"; vf; "-c:v";
              "libx264"; "-preset"; "veryfast"; "-crf"; "20"; "-c:a"; "aac";
              "-b:a"; "160k"], [outPath]. reflexivity. }
    split; [|split; [|split]].
    + intros _. split; [|split; [|split]].
      * exists vf. split; [reflexivity | apply mp4_filter_four].
      * intros v q z Hv Hd Ez. apply firstVideoStream_iff in Hv.
        apply rotateTag_degrees in Hd. rewrite <- Hv in Hd.
        subst vf. now rewrite (mp4_filter_integer _ (eq_sym Hd) Ez).
      * intros v d Hv Hd Hf. apply firstVideoStream_iff in Hv.
        apply rotateTag_degrees in Hd. rewrite <- Hv in Hd. subst d.
        subst vf. now rewrite (mp4_filter_not_finite _ Hf).
      * intros Hc. rewrite (Hz Hc). reflexivity.
    + intros Hn. contradiction.
    + intros v Hv Hrot Hsd. destruct (Hmatrix v Hv Hrot Hsd Hre).
    + intros Hc. rewrite (Hnz Hc). reflexivity.
  - (* remux *)
    assert (Hno : ~ reencode_condition json).
    { intros H. apply Hdec in H. discriminate. }
    change ((["-hide_banner"; "-y"; "-i"; tmpPath] ++
             ["-c"; "copy"; "-movflags"; "+faststart"; outPath])%list)
      with (remux_args tmpPath outPath).
    exists (remux_args tmpPath outPath).
    unfold bind, run.
    set (res := w_spawn W tr cmd (remux_args tmpPath outPath)).
    destruct (Hcode res) as [Hz Hnz].
    exists (if negb (code_is_zero res)
            then NormFail "ffmpeg_failed" (Some (stderr res))
            else NormOk "copy").
    split; [destruct (code_is_zero res); reflexivity|].
    split.
    { exists ["-hide_banner"; "-y"; "-i"; tmpPath; "-c"; "copy"], [outPath].
      reflexivity. }
    split; [|split; [|split]].
    + intros H. contradiction.
    + intros _. split; [reflexivity|].
      intros Hc. rewrite (Hz Hc). reflexivity.
    + intros; reflexivity.
    + intros Hc. rewrite (Hnz Hc). reflexivity.
Qed.

End Normalizer.

(* ================================================================== *)
(** * The candidate prober *)















Section Prober.

Variable W : World.






End Prober.


(* ================================================================== *)
(** * The per-file orchestrator *)

Section Orchestrator.

Variable W : World.

Lemma getImageDimensions_total tools f tr :
  exists dim evs,
    getImageDimensions W tools f tr = (Ok dim, (tr ++ evs)%list).
Proof.
  unfold getImageDimensions.
  destruct (present (exiftool tools)) as [cmd|].
  2:{ eexists. exists []. rewrite app_nil_r. reflexivity. }
  unfold bind, run, ret.
  match goal with |- context [w_spawn W tr cmd ?a] =>
    set (res := w_spawn W tr cmd a) end.
  destruct (code_is_zero res); [|eexists; eexists; reflexivity].
  destruct (map _ _) as [|w [|h [|x l]]]; try (eexists; eexists; reflexivity).
  destruct (forallb Js.isFinite [w; h]); eexists; eexists; reflexivity.
Qed.

(** Without the metadata reader no dimensions are known. *)
Lemma getImageDimensions_no_exiftool tools f tr :
  present (exiftool tools) = None ->
  getImageDimensions W tools f tr
  = (Ok {| width := Js.of_Z 0; height := Js.of_Z 0; source := "none" |}, tr).
Proof. intros H. unfold getImageDimensions. rewrite H. reflexivity. Qed.

(** The metadata propagator reports not-ok exactly when the metadata reader
    is missing or exits with a code other than 0. *)
Lemma copyAllMetadata_cases tools src dst tr :
  exists meta evs,
    copyAllMetadata W tools src dst tr = (Ok meta, (tr ++ evs)%list) /\
    (meta_ok meta = false <->
     present (exiftool tools) = None
     \/ exists cmd args,
          present (exiftool tools) = Some cmd /\
          evs = [EvSpawn cmd args (w_spawn W tr cmd args)] /\
          code (w_spawn W tr cmd args) <> Some 0).
Proof.
  unfold copyAllMetadata.
  destruct (present (exiftool tools)) as [cmd|].
  2:{ eexists. exists []. rewrite app_nil_r. split; [reflexivity|].
      simpl. split; auto. }
  unfold bind, run, ret.
  match goal with |- context [w_spawn W tr cmd ?a] =>
    set (args := a); set (res := w_spawn W tr cmd args) end.
  assert (Hz : code_is_zero res = true <-> code res = Some 0).
  { unfold code_is_zero. destruct (code res) as [[|p|p]|];
      split; congruence. }
  destruct (code_is_zero res) eqn:Ez; cbn [negb];
    eexists; eexists; (split; [reflexivity|]); simpl; split.
  - discriminate.
  - intros [H | (c' & a' & Hc & He & Hn)]; [discriminate|].
    inversion He; subst. exfalso. apply Hn. now apply Hz.
  - intros _. right. exists cmd, args. fold res.
    split; [reflexivity|]. split; [reflexivity|].
    intros H. apply Hz in H. discriminate.
  - reflexivity.
Qed.

(** What the still path of one file does, outcome by outcome. *)
Lemma stillPath_cases tools q c summary tr :
  (exists failures tr',
      convertStill W tools (file summary) (jpgOut summary) q c tr
      = (Ok (ConvFail failures), tr') /\
      stillPath W tools q c summary tr
      = (Ok (push_error summary (still_failed_message failures),
             Some "still-conversion-failed"), tr'))
  \/ (exists p m tr1 dim tr',
         convertStill W tools (file summary) (jpgOut summary) q c tr
         = (Ok (ConvOk p m), tr1) /\
         getImageDimensions W tools (jpgOut summary) tr1 = (Ok dim, tr') /\
         plausibleDimensions (width dim) (height dim) = false /\
         stillPath W tools q c summary tr
         = (Ok (push_error (push_step summary ("still: " ++ m))
                           (implausible_message dim),
                Some "dimension-validation-failed"), tr'))
  \/ (exists p m tr1 dim tr2 meta tr',
         convertStill W tools (file summary) (jpgOut summary) q c tr
         = (Ok (ConvOk p m), tr1) /\
         getImageDimensions W tools (jpgOut summary) tr1 = (Ok dim, tr2) /\
         plausibleDimensions (width dim) (height dim) = true /\
         copyAllMetadata W tools (file summary) (jpgOut summary) tr2
         = (Ok meta, tr') /\
         stillPath W tools q c summary tr
         = (Ok (push_step (push_step summary ("still: " ++ m))
                  ("metadata: " ++ (if meta_ok meta then "copied+Orientation=1"
                                    else "skipped/partial")),
                None), tr')).
Proof.
  unfold stillPath.
  destruct (convertStill_total W tools (file summary)
              (jpgOut summary) q c tr) as (r & evs & E).
  rewrite (bind_ok _ _ _ E).
  destruct r as [p m | failures].
  2:{ left. exists failures. eexists. split; [exact E|]. reflexivity. }
  right.
  destruct (getImageDimensions_total tools (jpgOut summary) (tr ++ evs)%list)
    as (dim & evs1 & E1).
  cbn [jpgOut push_step]. rewrite (bind_ok _ _ _ E1).
  destruct (plausibleDimensions (width dim) (height dim)) eqn:Ep;
    cbn [negb].
  - right.
    destruct (copyAllMetadata_cases tools (file summary) (jpgOut summary)
                ((tr ++ evs) ++ evs1)%list) as (meta & evs2 & E2 & _).
    cbn [file]. rewrite (bind_ok _ _ _ E2).
    exists p, m. do 5 eexists.
    split; [exact E|]. split; [exact E1|]. split; [exact Ep|].
    split; [exact E2|]. reflexivity.
  - left. exists p, m. do 3 eexists.
    split; [exact E|]. split; [exact E1|]. split; [exact Ep|]. reflexivity.
Qed.

(** The [try] block when the still path throws: nothing else runs. *)
Lemma processBody_still_throws tools tempDir q summary tr1 c tr2 s e tr3 :
  getExifOrientationCode W tools (file summary) tr1 = (Ok c, tr2) ->
  stillPath W tools q c summary tr2 = (Ok (s, Some e), tr3) ->
  processBody W tools tempDir q false summary tr1 = (Ok (s, Some e), tr3).
Proof.
  intros Ho Hs. unfold processBody.
  rewrite (bind_ok _ _ _ Ho). cbn [negb].
  rewrite (bind_ok _ _ _ Hs). reflexivity.
Qed.


Lemma processOne_of_body tools file_ outDir q tr tempDir tr1 s thrown tr2 :
  mkdtemp W (Path.join (w_tmpdir W) "heic2jpg-") tr = (Ok tempDir, tr1) ->
  processBody W tools tempDir q false (initialSummary file_ outDir) tr1
  = (Ok (s, thrown), tr2) ->
  processOne W tools file_ outDir q false tr = (Ok s, (tr2 ++ [EvRm tempDir])%list).
Proof.
  intros Hm Hb. unfold processOne.
  rewrite (bind_ok _ _ _ Hm).
  fold (initialSummary file_ outDir).
  rewrite (bind_ok _ _ _ Hb). reflexivity.
Qed.

Lemma processOne_still_throws tools file_ outDir q tr tempDir tr1 c tr2 s e tr3 :
  mkdtemp W (Path.join (w_tmpdir W) "heic2jpg-") tr = (Ok tempDir, tr1) ->
  getExifOrientationCode W tools file_ tr1 = (Ok c, tr2) ->
  stillPath W tools q c (initialSummary file_ outDir) tr2
  = (Ok (s, Some e), tr3) ->
  processOne W tools file_ outDir q false tr = (Ok s, (tr3 ++ [EvRm tempDir])%list).
Proof.
  intros Hm Ho Hs.
  apply (@processOne_of_body tools file_ outDir q tr tempDir tr1 s
           (Some e) tr3 Hm).
  now apply processBody_still_throws with (c := c) (tr2 := tr2).
Qed.

(** C1 (amended). Outside dry-run mode, when the still path of a file fails
    -- the conversion chain exhausts its strategies, or the dimension
    validator rejects the output -- the failure is recorded in the error list
    of the FileSummary and the processing of the file ends there: the scratch
    directory is removed and the summary returned, without the motion path
    (container scan, probing, MP4 normalisation) being run. *)
Theorem processOne_still_failure_ends_file :
  forall tools file_ outDir q tr tempDir tr1 c tr2,
    mkdtemp W (Path.join (w_tmpdir W) "heic2jpg-") tr = (Ok tempDir, tr1) ->
    getExifOrientationCode W tools file_ tr1 = (Ok c, tr2) ->
    let summary0 := initialSummary file_ outDir in
    (forall failures tr3,
        convertStill W tools file_ (jpgOut summary0) q c tr2
        = (Ok (ConvFail failures), tr3) ->
        processOne W tools file_ outDir q false tr
        = (Ok {| file := file_; jpgOut := jpgOut summary0;
                 mp4Out := mp4Out summary0; steps := [];
                 errors := [still_failed_message failures] |},
           (tr3 ++ [EvRm tempDir])%list))
    /\ (forall p m tr3 dim tr4,
           convertStill W tools file_ (jpgOut summary0) q c tr2
           = (Ok (ConvOk p m), tr3) ->
           getImageDimensions W tools (jpgOut summary0) tr3 = (Ok dim, tr4) ->
           plausibleDimensions (width dim) (height dim) = false ->
           processOne W tools file_ outDir q false tr
           = (Ok {| file := file_; jpgOut := jpgOut summary0;
                    mp4Out := mp4Out summary0; steps := ["still: " ++ m];
                    errors := [implausible_message dim] |},
              (tr4 ++ [EvRm tempDir])%list)).
Proof.
  intros tools file_ outDir q tr tempDir tr1 c tr2 Hm Ho summary0.
  subst summary0. split.
  - intros failures tr3 Hc.
    destruct (stillPath_cases tools q c (initialSummary file_ outDir) tr2)
      as [(f' & t' & E & Es) | [(p & m & t1 & dim & t' & E & _) |
                                (p & m & t1 & dim & t2 & meta & t' & E & _)]];
      change (file (initialSummary file_ outDir)) with file_ in E;
      rewrite Hc in E; try discriminate.
    injection E as <- <-.
    exact (@processOne_still_throws _ _ _ _ _ _ _ _ _ _ _ _ Hm Ho Es).
  - intros p m tr3 dim tr4 Hc Hd Hp.
    destruct (stillPath_cases tools q c (initialSummary file_ outDir) tr2)
      as [(f' & t' & E & Es) | [(p' & m' & t1 & dim' & t' & E & Ed & Ep & Es) |
                (p' & m' & t1 & dim' & t2 & meta & t' & E & Ed & Ep & _)]];
      change (file (initialSummary file_ outDir)) with file_ in E;
      rewrite Hc in E; try discriminate;
      injection E as <- <- <-; rewrite Hd in Ed; injection Ed as <- <-.
    + exact (@processOne_still_throws _ _ _ _ _ _ _ _ _ _ _ _ Hm Ho Es).
    + congruence.
Qed.

Lemma normalizeMp4_total tools tmpPath outPath json tr :
  exists r tr', normalizeMp4 W tools tmpPath outPath json tr = (Ok r, tr').
Proof.
  unfold normalizeMp4.
  destruct (present (ffmpeg tools)) as [cmd|]; [|eexists; eexists; reflexivity].
  destruct (mp4_plan tmpPath outPath json) as [args method].
  unfold bind, run, ret.
  destruct (negb (code_is_zero (w_spawn W tr cmd args)));
    eexists; eexists; reflexivity.
Qed.

(** The motion path never throws past its own boundary; it only appends
    steps to the summary, and the only error it may record is a failed MP4
    normalisation. *)
Lemma motionPath_effect tools tempDir dry s tr :
  exists s' thrown tr',
    motionPath W tools tempDir dry s tr = (Ok (s', thrown), tr') /\
    file s' = file s /\
    (exists more, steps s' = (steps s ++ more)%list) /\
    (errors s' = errors s
     \/ exists msg, errors s' = (errors s ++ [("mp4 normalize failed: " ++ msg)%string])%list).
Proof.
  unfold motionPath.
  destruct (present (ffprobe tools)) as [cmd|].
  2:{ do 3 eexists. split; [reflexivity|]. simpl.
      split; [reflexivity|]. split; [eauto | auto]. }
  unfold try_catch, bind at 1.
  destruct (detectEmbeddedVideo W tools (file s) tempDir tr) as [[det | e] tr1].
  2:{ do 3 eexists. split; [reflexivity|].
      split; [reflexivity|]. split; [exists []; now rewrite app_nil_r | auto]. }
  destruct det as [tmpPath probe candidate | reason].
  2:{ do 3 eexists. split; [reflexivity|]. simpl.
      split; [reflexivity|]. split; [eauto | auto]. }
  set (s1 := push_step s _).
  destruct dry; cbn [negb].
  - unfold bind, ret, unlink, emit. do 3 eexists. split; [reflexivity|].
    simpl. split; [reflexivity|]. rewrite <- app_assoc. split; [eauto | auto].
  - destruct (normalizeMp4_total tools tmpPath (mp4Out s1) probe tr1)
      as (r & tr2 & E).
    unfold bind at 1. unfold bind at 1. rewrite E.
    destruct r as [method | reason err];
      unfold bind, ret, unlink, emit; do 3 eexists;
      (split; [reflexivity|]); simpl;
      (split; [reflexivity|]).
    + rewrite <- app_assoc. split; [eauto | auto].
    + split; [eauto | right; eauto].
Qed.



End Orchestrator.

(* ================================================================== *)
(** * The batch driver *)

(** The flag is recorded: after a successful parse, [recursive] is set
    exactly when [--recursive] is among the arguments. *)
Lemma parseLoop_recursive : forall n l,
  (List.length l <= n)%nat ->
  forall dbg q rec dry rest dbg' q' rec' dry' rest',
    parseLoop l (dbg, q, rec, dry) rest = Ok (dbg', q', rec', dry', rest') ->
    (rec' = true <-> rec = true \/ In "--recursive" l).
Proof.
  induction n as [|n IH]; intros l Hlen dbg q rec dry rest dbg' q' rec' dry' rest' H.
  - destruct l; [|simpl in Hlen; lia].
    simpl in H. injection H as <- <- <- <- <-. simpl. tauto.
  - destruct l as [|v l].
    { simpl in H. injection H as <- <- <- <- <-. simpl. tauto. }
    simpl in Hlen. simpl in H.
    destruct (String.eqb_spec v "--debug") as [->|Hd].
    { apply IH in H; [|lia]. rewrite H. simpl. split; [tauto|].
      intros [H1 | [H1 | H1]]; auto; discriminate. }
    destruct (String.eqb_spec v "--recursive") as [->|Hr].
    { apply IH in H; [|lia]. rewrite H. simpl. split; auto. }
    destruct (String.eqb_spec v "--dry-run") as [->|Hy].
    { apply IH in H; [|lia]. rewrite H. simpl. split; [tauto|].
      intros [H1 | [H1 | H1]]; auto; discriminate. }
    destruct (String.eqb_spec v "--quality") as [->|Hq].
    { destruct l as [|x l']; [discriminate|].
      match type of H with (if ?b then _ else _) = _ =>
        destruct b eqn:Ebad; [discriminate|] end.
      assert (Hx : x <> "--recursive").
      { intros ->. vm_compute in Ebad. discriminate. }
      simpl in Hlen. apply IH in H; [|lia]. rewrite H. simpl. split; [tauto|].
      intros [H1 | [H1 | [H1 | H1]]]; auto; try discriminate; congruence. }
    apply IH in H; [|lia]. rewrite H. simpl. split; [tauto|].
    intros [H1 | [H1 | H1]]; auto; congruence.
Qed.

Lemma parseArgs_recursive W argv args :
  parseArgs W argv = Ok args ->
  (recursive args = true <-> In "--recursive" (skipn 2 argv)).
Proof.
  unfold parseArgs.
  destruct (parseLoop (skipn 2 argv) (false, 95, false, false) [])
    as [[[[[dbg q] rec] dry] rest] | e] eqn:E; [|discriminate].
  destruct rest as [|src [|out rest]]; try discriminate.
  intros H. injection H as <-. simpl.
  rewrite (@parseLoop_recursive _ (skipn 2 argv) (le_n _) _ _ _ _ _ _ _ _ _ _ E).
  split; [intros [H | H]; [discriminate | exact H] | auto].
Qed.

(** Without recursion the generator yields the matching files of the
    directory itself and nothing from below it. *)
Lemma iterateFiles_flat root entries f :
  In f (iterateFiles root entries false) <->
  exists name, In (File name) entries /\ heic_regex name = true
               /\ f = Path.join root name.
Proof.
  unfold iterateFiles. rewrite in_flat_map. split.
  - intros (d & Hd & Hf). destruct d as [name | name sub]; simpl in Hf.
    + destruct (heic_regex name) eqn:E; [|destruct Hf].
      destruct Hf as [<- | []]. eauto.
    + destruct Hf.
  - intros (name & Hin & Hre & ->). exists (File name). split; auto.
    simpl. rewrite Hre. now left.
Qed.

Section Driver.

Variable W : World.

Lemma processBody_file tools tempDir q dry summary tr s thrown tr' :
  processBody W tools tempDir q dry summary tr = (Ok (s, thrown), tr') ->
  file s = file summary.
Proof.
  unfold processBody.
  destruct (getExifOrientationCode_total W tools (file summary) tr)
    as (c & evs & Eo).
  rewrite (bind_ok _ _ _ Eo).
  assert (Hrest : forall s1 tr1,
             file s1 = file summary ->
             (let '(summary0, thrown0) := (s1, @None string) in
              match thrown0 with
              | Some e => ret (summary0, Some e)
              | None =>
                  ' (summary1, thrown1) <-
                    motionPath W tools tempDir dry summary0 ;;
                  match thrown1 with
                  | Some e => ret (summary1, Some e)
                  | None =>
                      (if negb dry
                       then exists_ W (jpgOut summary1) ;;;
                            exists_ W (mp4Out summary1) ;;; ret tt
                       else ret tt) ;;;
                      ret (summary1, None)
                  end
              end) tr1 = (Ok (s, thrown), tr') ->
             file s = file summary).
  { intros s1 tr1 Hf. cbv iota beta.
    destruct (motionPath_effect W tools tempDir dry s1 tr1)
      as (s2 & th & tr2 & Em & Hf2 & _).
    rewrite (bind_ok _ _ _ Em). cbv iota beta.
    destruct th as [e|].
    - unfold ret. intros H. injection H as <- _ _. congruence.
    - destruct dry; cbn [negb]; unfold bind, exists_, ret;
        intros H; injection H as <- _ _; congruence. }
  destruct dry.
  - unfold bind at 1. unfold ret at 1. apply Hrest. reflexivity.
  - destruct (stillPath_cases W tools q c summary (tr ++ evs)%list)
      as [(f' & t' & E & Es) | [(p' & m' & t1 & dim' & t' & E & Ed & Ep & Es) |
              (p' & m' & t1 & dim' & t2 & meta & t' & E & Ed & Ep & Em & Es)]];
      rewrite (bind_ok _ _ _ Es).
    + unfold ret. intros H. injection H as <- _ _. reflexivity.
    + unfold ret. intros H. injection H as <- _ _. reflexivity.
    + apply Hrest. reflexivity.
Qed.

Lemma processOne_file tools f outDir q dry tr s tr' :
  processOne W tools f outDir q dry tr = (Ok s, tr') -> file s = f.
Proof.
  unfold processOne. unfold bind at 1.
  destruct (mkdtemp W (Path.join (w_tmpdir W) "heic2jpg-") tr)
    as [[tempDir | e] tr1]; [|discriminate].
  unfold bind at 1.
  destruct (processBody W tools tempDir q dry _ tr1) as [[[s1 th] | e] tr2] eqn:Eb;
    [|discriminate].
  apply processBody_file in Eb. simpl in Eb.
  unfold bind, rm, emit, ret. intros H. injection H as <- _. exact Eb.
Qed.

Lemma processAll_files tools args : forall files tr sums tr',
  processAll W tools args files tr = (Ok sums, tr') -> map file sums = files.
Proof.
  induction files as [|f rest IH]; intros tr sums tr' H.
  - simpl in H. unfold ret in H. injection H as <- _. reflexivity.
  - simpl in H. unfold bind at 1 in H.
    destruct (processOne W tools f (outputDir args) (quality args)
                (dryRun args) tr) as [[s | e] tr1] eqn:E1; [|discriminate].
    unfold bind at 1 in H.
    destruct (processAll W tools args rest tr1) as [[others | e] tr2] eqn:E2;
      [|discriminate].
    unfold ret in H. injection H as <- _.
    simpl. f_equal; [eapply processOne_file; eassumption | eapply IH; eassumption].
Qed.

(** C10. The command-line parser records [--recursive], but the main loop
    iterates the source directory without recursion whether or not the flag
    was given: a run always ends, with exit status 2 or with the report, and
    every file processed is a direct entry of the source directory that is
    not a directory and whose name ends in [.heic] or [.heif]; files located
    in subdirectories are never processed. *)
Theorem main_never_recurses :
  forall argv tr,
    (forall args,
        parseArgs W argv = Ok args ->
        (recursive args = true <-> In "--recursive" (skipn 2 argv)))
    /\ (exists outcome tr', main W argv tr = (Ok outcome, tr'))
    /\ (forall count failures summaries tr',
           main W argv tr = (Ok (Done count failures summaries), tr') ->
           exists args entries tr1,
             parseArgs W argv = Ok args /\
             w_readdir W tr1 (sourceDir args) = Some entries /\
             map file summaries = iterateFiles (sourceDir args) entries false /\
             forall s, In s summaries ->
               exists name,
                 In (File name) entries /\ heic_regex name = true /\
                 file s = Path.join (sourceDir args) name).
Proof.
  intros argv tr. split; [|split].
  - intros args. apply parseArgs_recursive.
  - unfold main. destruct (parseArgs W argv) as [args | e].
    + unfold try_catch. destruct (mainBody W args tr) as [[o | e] tr'];
        unfold ret; eauto.
    + unfold ret. eauto.
  - intros count failures summaries tr'. unfold main.
    destruct (parseArgs W argv) as [args | e] eqn:Ea;
      [|unfold ret; discriminate].
    unfold try_catch, mainBody. unfold bind at 1. unfold exists_ at 1.
    destruct (w_access W tr (sourceDir args)); cbn [negb];
      [|unfold ret; discriminate].
    unfold bind at 1. unfold mkdir at 1.
    set (tr1 := (tr ++ [EvAccess (sourceDir args) true])%list).
    destruct (w_mkdir W tr1 (outputDir args)); [|unfold ret; discriminate].
    unfold bind at 1. unfold readdir at 1.
    set (tr2 := (tr1 ++ [EvMkdir (outputDir args)])%list).
    destruct (w_readdir W tr2 (sourceDir args)) as [entries|] eqn:Er;
      [|unfold ret; discriminate].
    unfold bind at 1.
    destruct (processAll W (detectTools W) args
                (iterateFiles (sourceDir args) entries false)
                (tr2 ++ [EvReaddir (sourceDir args)])%list)
      as [[sums | e] tr3] eqn:Ep; [|unfold ret; discriminate].
    unfold ret. intros H. injection H as _ _ <- _.
    apply processAll_files in Ep.
    exists args, entries, tr2. split; [reflexivity|]. split; [exact Er|].
    split; [exact Ep|].
    intros s Hs. apply (in_map file) in Hs. rewrite Ep in Hs.
    apply iterateFiles_flat in Hs. exact Hs.
Qed.

End Driver.

(* ================================================================== *)
(** * The statements on sample runs *)

Import Sample.

(** The claim C1 fails on the code: with ImageMagick unable to decode the
    file, the failure is recorded and the file is done; the source is never
    read and ffprobe never runs, although ffprobe is installed and the file
    carries a candidate. *)
Lemma processOne_skips_motion_after_still_failure :
  present (ffprobe (detectTools still_fails)) = Some "ffprobe" /\
  scanCandidates motion_photo
  = [{| start := 20; ftypIndex := 24; major := Some "mp42" |}] /\
  exists s tr',
    processOne still_fails (detectTools still_fails) "in/a.heic" "out" 95
               false [] = (Ok s, tr') /\
    errors s = ["All still conversion paths failed: ImageMagick exit 1: no decode delegate"] /\
    steps s = [] /\
    (forall p, ~ In (EvReadFile p) tr') /\
    (forall args res, ~ In (EvSpawn "ffprobe" args res) tr').
Proof.
  split; [reflexivity|]. split; [vm_compute; reflexivity|].
  eexists. eexists. split; [vm_compute; reflexivity|].
  split; [reflexivity|]. split; [reflexivity|]. split.
  - intros p H. simpl in H. intuition discriminate.
  - intros args res H. simpl in H. intuition discriminate.
Qed.

(** The same run, step by step: the scratch directory, the orientation, the
    failed chain, and the summary returned right after the clean-up. *)
Lemma processOne_still_failure_ends_file_witness :
  mkdtemp still_fails (Path.join (w_tmpdir still_fails) "heic2jpg-") []
  = (Ok "/tmp/heic2jpg-XXXXXX", [EvMkdtemp "/tmp/heic2jpg-"]) /\
  getExifOrientationCode still_fails (detectTools still_fails) "in/a.heic"
    [EvMkdtemp "/tmp/heic2jpg-"]
  = (Ok (Conv.Number "6"),
     [EvMkdtemp "/tmp/heic2jpg-";
      EvSpawn "exiftool" (orientation_args "in/a.heic") (reply 0 "6" "")]) /\
  processOne still_fails (detectTools still_fails) "in/a.heic" "out" 95 false []
  = (Ok {| file := "in/a.heic"; jpgOut := "out/a.jpg"; mp4Out := "out/a.mp4";
           steps := [];
           errors := [still_failed_message
                        ["ImageMagick exit 1: no decode delegate"]] |},
     [EvMkdtemp "/tmp/heic2jpg-";
      EvSpawn "exiftool" (orientation_args "in/a.heic") (reply 0 "6" "");
      EvSpawn "magick" ["convert"; "in/a.heic"; "-rotate"; "180"; "-quality";
                        "95"; "out/a.jpg"] (reply 1 "" "no decode delegate");
      EvRm "/tmp/heic2jpg-XXXXXX"]).
Proof.
  split; [reflexivity|]. split; [vm_compute; reflexivity|].
  refine (proj1 (@processOne_still_failure_ends_file still_fails
                   (detectTools still_fails) "in/a.heic" "out" 95 []
                   "/tmp/heic2jpg-XXXXXX" [EvMkdtemp "/tmp/heic2jpg-"]
                   (Conv.Number "6") _ _ _)
                ["ImageMagick exit 1: no decode delegate"]
                [EvMkdtemp "/tmp/heic2jpg-";
                 EvSpawn "exiftool" (orientation_args "in/a.heic")
                   (reply 0 "6" "");
                 EvSpawn "magick" ["convert"; "in/a.heic"; "-rotate"; "180";
                                   "-quality"; "95"; "out/a.jpg"]
                   (reply 1 "" "no decode delegate")] _);
    vm_compute; reflexivity.
Defined.

(** The ImageMagick strategy with the resolved code 6: the operations passed
    are those of code 3, not [-rotate 90]. *)
Lemma convertStill_imagemagick_ops_fixed_witness :
  present (imagemagick (detectTools copy_fails)) = Some "magick" /\
  imagemagickOpsForExif (Js.of_Z 6) = ["-rotate"; "90"] /\
  exists prefix rest,
    snd (convertStill copy_fails (detectTools copy_fails) "in/a.heic"
           "out/a.jpg" 95 (Js.of_Z 6) [])
    = ([] ++ EvSpawn "magick"
               (prefix ++ "in/a.heic" :: ["-rotate"; "180"]
                       ++ ["-quality"; Str.of_Z 95; "out/a.jpg"])
               (w_spawn copy_fails [] "magick"
                  (imagemagick_args (detectTools copy_fails) "in/a.heic"
                     "out/a.jpg" 95))
          :: rest)%list /\
    (prefix = ["convert"] \/ prefix = []).
Proof.
  split; [reflexivity|]. split; [reflexivity|].
  apply (@convertStill_imagemagick_ops_fixed copy_fails
           (detectTools copy_fails) "in/a.heic" "out/a.jpg" 95 (Js.of_Z 6) []
           "magick").
  reflexivity.
Defined.

(** The ffmpeg strategy with the requested quality 50: the inverted scale
    would give 17, the argument passed is 3. *)
Lemma convertStill_ffmpeg_qscale_fixed_witness :
  present (imagemagick (detectTools only_ffmpeg)) = None /\
  present (heif_convert (detectTools only_ffmpeg)) = None /\
  present (ffmpeg (detectTools only_ffmpeg)) = Some "ffmpeg" /\
  Conv.String_of (qscale_of (Js.of_Z 50)) = "17" /\
  exists vf rest,
    snd (convertStill only_ffmpeg (detectTools only_ffmpeg) "in/a.heic"
           "out/a.jpg" 50 (Js.of_Z 6) [])
    = ([] ++ EvSpawn "ffmpeg"
               (["-hide_banner"; "-y"; "-noautorotate"; "-i"; "in/a.heic";
                 "-frames:v"; "1"] ++ vf ++ ["-qscale:v"; "3"; "out/a.jpg"])
               (w_spawn only_ffmpeg [] "ffmpeg"
                  (ffmpeg_args "in/a.heic" "out/a.jpg" (Js.of_Z 6)))
          :: rest)%list /\
    (vf = [] \/ exists f, ffmpegFilterForExif (Js.of_Z 6) = Some f
                          /\ vf = ["-vf"; f]).
Proof.
  split; [reflexivity|]. split; [reflexivity|]. split; [reflexivity|].
  split; [vm_compute; reflexivity|].
  apply (@convertStill_ffmpeg_qscale_fixed only_ffmpeg
           (detectTools only_ffmpeg) "in/a.heic" "out/a.jpg" 50 (Js.of_Z 6) []
           "ffmpeg"); reflexivity.
Defined.

(** The bug behind C6: a portrait video without a rotate tag carries a
    display matrix, typed [Display Matrix] as ffprobe prints it; it is
    remuxed, not re-encoded. *)
Lemma normalizeMp4_decision_witness :
  present (ffmpeg (detectTools only_ffmpeg)) = Some "ffmpeg" /\
  first_stream_with is_video_stream matrix_probe matrix_stream /\
  side_data_list matrix_stream
  = Some [{| side_data_type := Some "Display Matrix" |}] /\
  normalizeMp4 only_ffmpeg (detectTools only_ffmpeg) "slice.bin" "out/a.mp4"
    matrix_probe []
  = (Ok (NormOk "copy"),
     [EvSpawn "ffmpeg" (remux_args "slice.bin" "out/a.mp4") (reply 0 "" "")])
  /\ marked_faststart (remux_args "slice.bin" "out/a.mp4").
Proof.
  assert (Hfirst : first_stream_with is_video_stream matrix_probe
                     matrix_stream).
  { exists [], []. split; [reflexivity|]. split; [reflexivity|].
    intros s []. }
  split; [reflexivity|]. split; [exact Hfirst|]. split; [reflexivity|].
  destruct (@normalizeMp4_decision only_ffmpeg (detectTools only_ffmpeg)
              "slice.bin" "out/a.mp4" matrix_probe [] "ffmpeg" eq_refl)
    as (args & result & E & Hfast & _ & _ & Hmatrix & _).
  assert (Hargs : args = remux_args "slice.bin" "out/a.mp4").
  { apply (Hmatrix matrix_stream Hfirst).
    - intros q Hq. apply rotateTag_degrees in Hq. injection Hq as ->.
      exists 0. reflexivity.
    - intros l sd Hl Hin. injection Hl as <-.
      destruct Hin as [<- | []]. reflexivity. }
  subst args. split; [|exact Hfast].
  rewrite E. f_equal.
  assert (E' : fst (normalizeMp4 only_ffmpeg (detectTools only_ffmpeg)
                      "slice.bin" "out/a.mp4" matrix_probe [])
               = Ok result) by (rewrite E; reflexivity).
  vm_compute in E'. now injection E' as <-.
Defined.




(** A run with [--recursive] on a directory that holds [a.heic] and
    [sub/b.heic]: the flag is recorded and only [in/a.heic] is processed. *)
Lemma main_never_recurses_witness :
  In "--recursive" (skipn 2 recursive_argv) /\
  (exists args, parseArgs copy_fails recursive_argv = Ok args
                /\ recursive args = true) /\
  exists s tr',
    main copy_fails recursive_argv [] = (Ok (Done 1 0 [s]), tr') /\
    file s = "in/a.heic" /\
    exists name,
      In (File name) [File "a.heic"; Dir "sub" [File "b.heic"]; File "notes.txt"]
      /\ file s = Path.join "in" name.
Proof.
  destruct (main_never_recurses copy_fails recursive_argv [])
    as (Hflag & _ & Hmain).
  assert (Hin : In "--recursive" (skipn 2 recursive_argv))
    by (simpl; auto).
  split; [exact Hin|]. split.
  - eexists. split; [vm_compute; reflexivity|].
    eapply Hflag; [vm_compute; reflexivity | exact Hin].
  - eexists. eexists. split; [vm_compute; reflexivity|].
    split; [reflexivity|].
    edestruct Hmain as (args & entries & tr1 & Ha & Hr & _ & Hall);
      [vm_compute; reflexivity|].
    vm_compute in Ha. injection Ha as <-.
    vm_compute in Hr. injection Hr as <-.
    destruct (Hall _ (or_introl eq_refl)) as (name & Hn & _ & Hf).
    exists name. split; [exact Hn | exact Hf].
Defined.


(** The sample motion photo: the marker stands at offsets 4 and 24, and the
    only candidate is the box at offset 20. *)
Lemma scanCandidates_exact_witness :
  (forall j, marker_at motion_photo j <-> j = 4%nat \/ j = 24%nat) /\
  scanCandidates motion_photo
  = [{| start := 20; ftypIndex := 24; major := Some "mp42" |}].
Proof.
  assert (Hocc : forall j,
             marker_at motion_photo j <-> j = 4%nat \/ j = 24%nat).
  { intros j. rewrite <- occurs_at_marker.
    rewrite <- (proj1 (bytesIndexAll_spec motion_photo) j).
    replace (bytesIndexAll motion_photo "ftyp") with [4%nat; 24%nat]
      by (vm_compute; reflexivity).
    simpl. intuition. }
  split; [exact Hocc|].
  apply (proj2 (proj2 (proj2 (scanCandidates_exact motion_photo))) 24%nat
           (list_byte_of_string "mp42") Hocc).
  - lia.
  - reflexivity.
  - intros w Hw. simpl in Hw.
    repeat (destruct Hw as [<- | Hw]; [vm_compute; discriminate|]).
    destruct Hw.
Defined.

(** The claim C5 fails on the code: the second box of this buffer starts at
    offset 20 and its four brand bytes are none of the twelve brands, yet
    the scanner returns no candidate, for the bytes read [heic] once the
    high bit is cleared. *)
Lemma scanCandidates_drops_masked_brand :
  claimed_candidate masked_brand 24 /\
  brand_bytes masked_brand 24
  = Some [Byte.xe8; Byte.x65; Byte.x69; Byte.x63] /\
  scanCandidates masked_brand = [].
Proof.
  split; [|split; reflexivity].
  split; [reflexivity|]. split; [lia|].
  intros bs Hbs. vm_compute in Hbs. injection Hbs as <-.
  simpl. intuition discriminate.
Qed.


(* ================================================================== *)
(** * Further properties of the script *)

(** ** The command line *)

Lemma parseLoop_cons v l' dbg q rec dry rest :
  parseLoop (v :: l') (dbg, q, rec, dry) rest
  = if String.eqb v "--debug" then parseLoop l' (true, q, rec, dry) rest
    else if String.eqb v "--recursive" then parseLoop l' (dbg, q, true, dry) rest
    else if String.eqb v "--dry-run" then parseLoop l' (dbg, q, rec, true) rest
    else if String.eqb v "--quality" then
      match l' with
      | [] => Throw "--quality must be an integer 1-100"
      | x :: l'' =>
          if quality_accepted x
          then parseLoop l''
                 (dbg, match Js.round (Conv.Number x) with
                       | Fin y => Qfloor y
                       | _ => 0
                       end, rec, dry) rest
          else Throw "--quality must be an integer 1-100"
      end
    else parseLoop l' (dbg, q, rec, dry) (rest ++ [v])%list.
Proof.
  destruct l' as [|x l'']; cbn [parseLoop]; [reflexivity|].
  unfold quality_accepted. cbv zeta.
  destruct (Js.isFinite (Conv.Number x)),
    (Js.ltb (Conv.Number x) (Js.of_Z 1)),
    (Js.gtb (Conv.Number x) (Js.of_Z 100)); reflexivity.
Qed.

Lemma quality_accepted_range x :
  quality_accepted x = true ->
  1 <= match Js.round (Conv.Number x) with Fin y => Qfloor y | _ => 0 end <= 100.
Proof.
  unfold quality_accepted.
  destruct (Conv.Number x) as [| s | y]; try discriminate.
  cbn [Js.isFinite andb]. unfold Js.gtb, Js.ltb, Js.of_Z.
  rewrite !negb_involutive. intros H. apply andb_prop in H as [H1 H2].
  apply Qle_bool_iff in H1, H2.
  unfold Js.round, Js.of_Z. rewrite Qfloor_Z. split.
  - assert (H : (inject_Z 1 <= y + (1 # 2))%Q).
    { change (inject_Z 1) with 1%Q in *. lra. }
    apply Qfloor_resp_le in H. now rewrite Qfloor_Z in H.
  - assert (H : (y + (1 # 2) <= 201 # 2)%Q).
    { change (inject_Z 100) with 100%Q in *. lra. }
    apply Qfloor_resp_le in H. exact H.
Qed.

Lemma parseLoop_quality : forall n l,
  (List.length l <= n)%nat ->
  forall dbg q rec dry rest dbg' q' rec' dry' rest',
    parseLoop l (dbg, q, rec, dry) rest = Ok (dbg', q', rec', dry', rest') ->
    (1 <= q <= 100 -> 1 <= q' <= 100) /\ (~ In "--quality" l -> q' = q).
Proof.
  induction n as [|n IH]; intros l Hlen dbg q rec dry rest dbg' q' rec' dry' rest' H.
  - destruct l; [|simpl in Hlen; lia].
    simpl in H. injection H as <- <- <- <- <-. tauto.
  - destruct l as [|v l].
    { simpl in H. injection H as <- <- <- <- <-. tauto. }
    simpl in Hlen. rewrite parseLoop_cons in H.
    destruct (String.eqb_spec v "--debug") as [->|Hd].
    { apply IH in H; [|lia]. destruct H as [H1 H2]. split; [exact H1|].
      intros Hn. apply H2. intros Hi. apply Hn. now right. }
    destruct (String.eqb_spec v "--recursive") as [->|Hr].
    { apply IH in H; [|lia]. destruct H as [H1 H2]. split; [exact H1|].
      intros Hn. apply H2. intros Hi. apply Hn. now right. }
    destruct (String.eqb_spec v "--dry-run") as [->|Hy].
    { apply IH in H; [|lia]. destruct H as [H1 H2]. split; [exact H1|].
      intros Hn. apply H2. intros Hi. apply Hn. now right. }
    destruct (String.eqb_spec v "--quality") as [->|Hq].
    { split; [|intros Hn; exfalso; apply Hn; now left].
      destruct l as [|x l']; [discriminate|].
      destruct (quality_accepted x) eqn:Eacc; [|discriminate].
      simpl in Hlen. apply IH in H; [|lia]. destruct H as [H1 _].
      intros _. apply H1. now apply quality_accepted_range. }
    apply IH in H; [|lia]. destruct H as [H1 H2]. split; [exact H1|].
    intros Hn. apply H2. intros Hi. apply Hn. now right.
Qed.

(** X1. Whatever the command line, a successful parse leaves a quality
    between 1 and 100; it is the default 95 when [--quality] is not among
    the arguments. *)
Theorem parseArgs_quality_in_range :
  forall W argv args,
    parseArgs W argv = Ok args ->
    1 <= quality args <= 100
    /\ (~ In "--quality" (skipn 2 argv) -> quality args = 95).
Proof.
  intros W argv args. unfold parseArgs.
  destruct (parseLoop (skipn 2 argv) (false, 95, false, false) [])
    as [[[[[dbg q] rec] dry] rest] | e] eqn:E; [|discriminate].
  destruct rest as [|src [|out rest]]; try discriminate.
  intros H. injection H as <-. simpl.
  destruct (@parseLoop_quality _ (skipn 2 argv) (le_n _) _ _ _ _ _ _ _ _ _ _ E)
    as [H1 H2].
  split; [apply H1; lia | exact H2].
Qed.

Lemma parseLoop_plain : forall l dbg q rec dry rest,
  forallb (fun v => negb (is_option v)) l = true ->
  parseLoop l (dbg, q, rec, dry) rest = Ok (dbg, q, rec, dry, (rest ++ l)%list).
Proof.
  induction l as [|v l IH]; intros dbg q rec dry rest H.
  - simpl. now rewrite app_nil_r.
  - simpl in H. apply andb_prop in H as [Hv Hl].
    rewrite parseLoop_cons. unfold is_option in Hv.
    destruct (String.eqb v "--debug"); [discriminate|].
    destruct (String.eqb v "--recursive"); [discriminate|].
    destruct (String.eqb v "--dry-run"); [discriminate|].
    destruct (String.eqb v "--quality"); [discriminate|].
    rewrite IH by exact Hl. now rewrite <- app_assoc.
Qed.

(** X2. A command line without options is read positionally: the first two
    arguments after the script are the source and the output directory,
    resolved; further arguments are ignored; the options take their
    defaults (quality 95, no recursion, no dry run, no debugging).  With
    fewer than two arguments the parser throws. *)
Theorem parseArgs_without_options :
  forall W argv,
    forallb (fun v => negb (is_option v)) (skipn 2 argv) = true ->
    match skipn 2 argv with
    | src :: out :: _ =>
        parseArgs W argv
        = Ok {| debug := false; quality := 95; recursive := false;
                dryRun := false;
                sourceDir := w_resolve W src; outputDir := w_resolve W out |}
    | _ => exists e, parseArgs W argv = Throw e
    end.
Proof.
  intros W argv H. unfold parseArgs.
  rewrite parseLoop_plain by exact H. cbn [app].
  destruct (skipn 2 argv) as [|src [|out rest]]; eauto.
Qed.

Lemma parseLoop_bad_quality post :
  match post with [] => True | x :: _ => quality_accepted x = false end ->
  forall n pre, (List.length pre <= n)%nat ->
  forall dbg q rec dry rest,
    exists e,
      parseLoop (pre ++ "--quality" :: post) (dbg, q, rec, dry) rest = Throw e.
Proof.
  intros Hpost.
  assert (Hhere : forall dbg q rec dry rest,
             exists e, parseLoop ("--quality" :: post) (dbg, q, rec, dry) rest
                       = Throw e).
  { intros. rewrite parseLoop_cons. cbn [String.eqb Ascii.eqb Bool.eqb].
    destruct post as [|x post']; [eauto|]. rewrite Hpost. eauto. }
  induction n as [|n IH]; intros pre Hlen dbg q rec dry rest.
  - destruct pre; [|simpl in Hlen; lia]. apply Hhere.
  - destruct pre as [|v pre]; [apply Hhere|].
    simpl in Hlen. cbn [app]. rewrite parseLoop_cons.
    destruct (String.eqb v "--debug"); [apply IH; lia|].
    destruct (String.eqb v "--recursive"); [apply IH; lia|].
    destruct (String.eqb v "--dry-run"); [apply IH; lia|].
    destruct (String.eqb v "--quality"); [|apply IH; lia].
    destruct pre as [|y pre']; cbn [app].
    + change (quality_accepted "--quality") with false. cbv iota. eauto.
    + destruct (quality_accepted y); [|eauto].
      simpl in Hlen. apply IH. lia.
Qed.

(** X3. The parser throws whenever some [--quality] on the command line is
    the last argument or is followed by a value that is not a finite number
    between 1 and 100, wherever it stands and whatever else is given. *)
Theorem parseArgs_rejects_bad_quality :
  forall W argv pre post,
    skipn 2 argv = (pre ++ "--quality" :: post)%list ->
    match post with [] => True | x :: _ => quality_accepted x = false end ->
    exists e, parseArgs W argv = Throw e.
Proof.
  intros W argv pre post Hargv Hpost. unfold parseArgs. rewrite Hargv.
  destruct (@parseLoop_bad_quality post Hpost _ pre (le_n _)
              false 95 false false []) as (e & ->).
  eauto.
Qed.

(** ** Bytes of the container *)

Lemma string_of_list_ascii_length l :
  String.length (string_of_list_ascii l) = List.length l.
Proof. induction l as [|c l IH]; simpl; congruence. Qed.

Lemma ascii_decode_seven_bit b : (nat_of_ascii (ascii_decode b) < 128)%nat.
Proof. destruct b; vm_compute; lia. Qed.

(** X4. [readAscii] never reads outside the buffer: it yields nothing
    exactly when the window starts before the buffer or ends after it, and
    otherwise a string of [len] characters, all of them 7-bit. *)
Theorem readAscii_within_bounds :
  forall buf off len,
    match readAscii buf off len with
    | None => off < 0 \/ Z.of_nat (List.length buf) < off + len
    | Some s =>
        0 <= off /\ off + len <= Z.of_nat (List.length buf)
        /\ String.length s = Z.to_nat len /\ seven_bit s
    end.
Proof.
  intros buf off len. unfold readAscii.
  destruct (Z.ltb_spec off 0) as [Hoff | Hoff]; cbn [orb]; [now left|].
  destruct (Z.ltb_spec (Z.of_nat (List.length buf)) (off + len)) as [Hend | Hend];
    [now right|].
  split; [exact Hoff|]. split; [exact Hend|]. split.
  - rewrite string_of_list_ascii_length, length_map, length_firstn, length_skipn.
    lia.
  - unfold seven_bit. rewrite list_ascii_of_string_of_list_ascii.
    apply Forall_forall. intros c Hc. apply in_map_iff in Hc.
    destruct Hc as (b & <- & _). apply ascii_decode_seven_bit.
Qed.

Lemma list_byte_of_string_nonempty s : s <> "" -> list_byte_of_string s <> [].
Proof. destruct s; [congruence | discriminate]. Qed.

(** X5. For a non-empty marker, [bytesIndexAll] returns exactly the offsets
    at which the marker occurs in the buffer, overlapping occurrences
    included, in increasing order and each once. *)
Theorem bytesIndexAll_finds_every_occurrence :
  forall buf ascii,
    ascii <> "" ->
    (forall j, In j (bytesIndexAll buf ascii)
               <-> occurs_at (list_byte_of_string ascii) buf j)
    /\ StronglySorted lt (bytesIndexAll buf ascii).
Proof.
  intros buf ascii Hne. unfold bytesIndexAll.
  destruct (@bytesIndexAll_loop_spec (list_byte_of_string ascii)
              (list_byte_of_string_nonempty Hne) buf
              (S (List.length buf)) 0%nat ltac:(lia)) as [Hin Hsorted].
  split; [|exact Hsorted].
  intros j. rewrite (Hin j). split; [tauto|]. split; auto with arith.
Qed.

(** ** Orientation tables *)

(** X6. The two orientation tables agree on which codes need a
    transformation: ImageMagick gets no operation exactly when ffmpeg gets
    no filter, and that is the case for every code that is not one of the
    integers 2 to 8 (1, a fraction, NaN, a code out of range). *)
Theorem orientation_tables_agree :
  forall c,
    (imagemagickOpsForExif c = [] <-> ffmpegFilterForExif c = None)
    /\ (ffmpegFilterForExif c = None <-> transforming c = false).
Proof.
  intros c. unfold imagemagickOpsForExif, ffmpegFilterForExif, transforming.
  cbn [existsb].
  destruct (Js.eqb c (Js.of_Z 2)); [cbn [orb]; split; split; discriminate|].
  destruct (Js.eqb c (Js.of_Z 3)); [cbn [orb]; split; split; discriminate|].
  destruct (Js.eqb c (Js.of_Z 4)); [cbn [orb]; split; split; discriminate|].
  destruct (Js.eqb c (Js.of_Z 5)); [cbn [orb]; split; split; discriminate|].
  destruct (Js.eqb c (Js.of_Z 6)); [cbn [orb]; split; split; discriminate|].
  destruct (Js.eqb c (Js.of_Z 7)); [cbn [orb]; split; split; discriminate|].
  destruct (Js.eqb c (Js.of_Z 8)); [cbn [orb]; split; split; discriminate|].
  cbn [orb]. split; split; reflexivity.
Qed.

(** ** Which files are taken *)

(** X7. The file filter accepts exactly the names that end in [.heic] or
    [.heif], in any mix of upper and lower case: the extension must close
    the name. *)
Theorem heic_regex_iff :
  forall name,
    heic_regex name = true <->
    exists stem ext,
      name = stem ++ ext
      /\ (Str.toLowerCase ext = ".heic" \/ Str.toLowerCase ext = ".heif").
Proof.
  intros name. unfold heic_regex. rewrite orb_true_iff, !endsWith_iff. split.
  - intros [(p & H) | (p & H)];
      apply toLowerCase_split in H; destruct H as (s1 & s2 & -> & _ & H2);
      exists s1, s2; auto.
  - intros (stem & ext & -> & [H | H]); rewrite toLowerCase_app, H; eauto.
Qed.

(** ** Output names *)

Lemma break_at_app c a b :
  lacks c a ->
  Path.break_at c (a ++ String c b) = (a, Some b).
Proof.
  unfold lacks. induction a as [|x a IH]; intros H; simpl.
  - now rewrite Ascii.eqb_refl.
  - destruct (Ascii.eqb_spec x c) as [->|Hne].
    + exfalso. apply H. now left.
    + rewrite IH; [reflexivity|]. intros Hin. apply H. now right.
Qed.

Lemma lacks_rev c s : lacks c s -> lacks c (Str.rev s).
Proof. unfold lacks. rewrite las_rev. intros H Hin. apply H. now apply in_rev. Qed.

Lemma lacks_app c a b : lacks c a -> lacks c b -> lacks c (a ++ b).
Proof.
  unfold lacks. rewrite las_app. intros Ha Hb Hin.
  apply in_app_or in Hin. tauto.
Qed.

Lemma basename_join root name :
  lacks "/" name -> Path.basename (Path.join root name) = name.
Proof.
  intros H. unfold Path.basename, Path.join.
  rewrite str_rev_app. change ("/" ++ name) with (String "/" name).
  replace (Str.rev (String "/" name)) with (Str.rev name ++ String "/" "").
  2:{ change (String "/" name) with ("/" ++ name). now rewrite str_rev_app. }
  rewrite str_app_assoc. cbn [append].
  rewrite break_at_app by now apply lacks_rev.
  apply str_rev_involutive.
Qed.

Lemma parse_name_join root stem ext :
  stem <> "" -> lacks "/" stem -> lacks "/" ext -> lacks "." ext ->
  Path.parse_name (Path.join root (stem ++ "." ++ ext)) = stem.
Proof.
  intros Hne Hs He Hd. unfold Path.parse_name.
  rewrite basename_join.
  2:{ apply lacks_app; [exact Hs|]. apply (@lacks_app _ "." ext); [|exact He].
      unfold lacks. simpl. intros [H | []]. discriminate. }
  rewrite str_rev_app, str_rev_app. change (Str.rev ".") with ".".
  rewrite str_app_assoc. cbn [append].
  rewrite break_at_app by now apply lacks_rev.
  destruct (Str.rev stem) as [|c r] eqn:E.
  - apply str_rev_empty in E. contradiction.
  - rewrite <- E. apply str_rev_involutive.
Qed.

(** ** Looking for the tools *)

Lemma trim_start_suffix s : exists p, s = p ++ Str.trim_start s.
Proof.
  induction s as [|c s (p & IH)]; simpl.
  - exists "". reflexivity.
  - destruct (Str.is_space c).
    + exists (String c p). simpl. congruence.
    + exists "". reflexivity.
Qed.

Lemma trim_start_head s c r :
  Str.trim_start s = String c r -> Str.is_space c = false.
Proof.
  induction s as [|x s IH]; simpl; [discriminate|].
  destruct (Str.is_space x) eqn:E; [exact IH|].
  intros H. injection H as <- _. exact E.
Qed.

Lemma trim_head s c r : Str.trim s = String c r -> Str.is_space c = false.
Proof.
  unfold Str.trim. intros H.
  set (t := Str.trim_start s) in *.
  destruct (trim_start_suffix (Str.rev t)) as (p & Hp).
  set (u := Str.trim_start (Str.rev t)) in *.
  assert (Ht : t = String c (r ++ Str.rev p)).
  { rewrite <- (str_rev_involutive t), Hp, str_rev_app, H. reflexivity. }
  exact (trim_start_head s Ht).
Qed.

Lemma split_lines_aux_hd : forall s cur pre c0,
  cur = pre ++ String c0 "" -> Str.is_space c0 = false ->
  hd "" (Str.split_lines_aux s cur) <> ""
  /\ exists rest, Str.rev cur ++ s = hd "" (Str.split_lines_aux s cur) ++ rest.
Proof.
  induction s as [|c s IH]; intros cur pre c0 Hcur Hc0; simpl.
  - split.
    + intros H. apply str_rev_empty in H. subst cur. now destruct pre.
    + exists "". reflexivity.
  - destruct (Ascii.eqb_spec c "010") as [->|Hc].
    + simpl. destruct cur as [|d cur']; [now destruct pre|].
      destruct (Ascii.eqb_spec d "013") as [->|Hd].
      * split.
        -- intros H. apply str_rev_empty in H. subst cur'.
           destruct pre as [|x pre]; simpl in Hcur.
           ++ injection Hcur as <-. discriminate.
           ++ injection Hcur as _ Hcur. now destruct pre.
        -- exists (String "013" (String "010" s)).
           change (String "013" cur') with (String "013" "" ++ cur').
           rewrite str_rev_app, str_app_assoc. reflexivity.
      * split.
        -- intros H. apply str_rev_empty in H. discriminate.
        -- eauto.
    + destruct (IH (String c cur) (String c pre) c0) as [H1 (rest & H2)].
      { simpl. now rewrite Hcur. }
      { exact Hc0. }
      split; [exact H1|]. exists rest. rewrite <- H2.
      change (String c cur) with (String c "" ++ cur).
      rewrite str_rev_app, str_app_assoc. reflexivity.
Qed.

Lemma split_lines_aux_lacks : forall s cur,
  lacks "010" cur -> Forall (lacks "010") (Str.split_lines_aux s cur).
Proof.
  induction s as [|c s IH]; intros cur Hcur; simpl.
  - constructor; [now apply lacks_rev | constructor].
  - destruct (Ascii.eqb_spec c "010") as [->|Hc].
    + constructor.
      * apply lacks_rev. destruct cur as [|d cur']; [exact Hcur|].
        destruct (Ascii.eqb d "013"); [|exact Hcur].
        intros Hin. apply Hcur. now right.
      * apply IH. intros [].
    + apply IH. intros [H | H]; [congruence | now apply Hcur].
Qed.

Lemma first_line_of_trimmed out :
  Str.trim out <> "" ->
  let p := hd "" (Str.split_lines (Str.trim out)) in
  p <> "" /\ lacks "010" p /\ exists rest, Str.trim out = p ++ rest.
Proof.
  intros Hne. destruct (Str.trim out) as [|c r] eqn:E; [contradiction|].
  pose proof (trim_head out E) as Hc.
  unfold Str.split_lines. cbn [Str.split_lines_aux].
  destruct (Ascii.eqb_spec c "010") as [->|Hnl]; [discriminate|].
  destruct (@split_lines_aux_hd r (String c "") "" c eq_refl Hc)
    as [H1 (rest & H2)].
  split; [exact H1|]. split.
  - assert (Hall : Forall (lacks "010") (Str.split_lines_aux r (String c ""))).
    { apply split_lines_aux_lacks. intros [H | []]. congruence. }
    destruct (Str.split_lines_aux r (String c "")) as [|x l]; [now elim H1|].
    now inversion Hall.
  - exists rest. exact H2.
Qed.

(** X8. [which] never rejects and starts one process, [where] on Windows
    and [command -v] elsewhere.  It resolves to nothing exactly when the
    probe did not exit with code 0 or printed only white space; what it
    resolves to otherwise is never the empty string: it is one line, the
    first of the trimmed output.  A tool entry is therefore truthy exactly
    when it is not [null]. *)
Theorem which_never_yields_an_empty_path :
  forall W win32 cmd tr,
    let probe := fst (which_probe win32 cmd) in
    let args := snd (which_probe win32 cmd) in
    let res := w_spawn W tr probe args in
    exists answer,
      which W win32 cmd tr
      = (Ok answer, (tr ++ [EvSpawn probe args res])%list)
      /\ (answer = None <-> code res <> Some 0 \/ Str.trim (stdout res) = "")
      /\ match answer with
         | Some p =>
             p <> "" /\ lacks "010" p
             /\ exists rest, Str.trim (stdout res) = p ++ rest
         | None => True
         end
      /\ present answer = answer.
Proof.
  intros W win32 cmd tr probe args res.
  exists (which_answer res). split.
  { unfold which. subst probe args res. destruct win32; reflexivity. }
  unfold which_answer.
  pose proof (code_is_zero_iff res) as Hz.
  destruct (code_is_zero res); cbn [andb].
  2:{ split; [|split; [exact I | reflexivity]].
      split; [|reflexivity]. intros _. left. intros H.
      apply Hz in H. discriminate. }
  destruct (Str.trim (stdout res)) as [|c r] eqn:E; cbn [Str.truthy].
  { split; [|split; [exact I | reflexivity]].
    split; [intros _; now right | reflexivity]. }
  assert (Hne : Str.trim (stdout res) <> "") by (rewrite E; discriminate).
  destruct (first_line_of_trimmed (stdout res) Hne) as (H1 & H2 & H3).
  rewrite E in H1, H2, H3.
  split; [|split; [auto|]].
  - split; [discriminate|].
    intros [H | H]; [|discriminate]. exfalso. apply H. now apply Hz.
  - unfold present. destruct (hd "" (Str.split_lines (String c r))) as [|x l];
      [now elim H1 | reflexivity].
Qed.

(** ** What the asynchronous functions do to the world *)

Lemma performs_ret {A} (P : Event -> Prop) (T : Prop) (Q : A -> Prop) a :
  Q a -> performs P T Q (ret a).
Proof.
  intros H tr. exists (Ok a), []. rewrite app_nil_r. repeat split; auto.
Qed.

Lemma performs_bind {A B} (P : Event -> Prop) (T : Prop) (Q1 : A -> Prop)
      (Q : B -> Prop) (m : IO A) (k : A -> IO B) :
  performs P T Q1 m -> (forall a, Q1 a -> performs P T Q (k a)) ->
  performs P T Q (bind m k).
Proof.
  intros Hm Hk tr. destruct (Hm tr) as (r & evs & E & HP & HQ).
  unfold bind. rewrite E. destruct r as [a | e].
  - destruct (Hk a HQ (tr ++ evs)%list) as (r2 & evs2 & E2 & HP2 & HQ2).
    exists r2, (evs ++ evs2)%list. rewrite app_assoc.
    split; [exact E2|]. split; [now apply Forall_app | exact HQ2].
  - exists (Throw e), evs. auto.
Qed.

Lemma performs_try {A} (P : Event -> Prop) (T0 T : Prop) (Q : A -> Prop)
      (m : IO A) (h : string -> IO A) :
  performs P T0 Q m -> (forall e, performs P T Q (h e)) ->
  performs P T Q (try_catch m h).
Proof.
  intros Hm Hh tr. destruct (Hm tr) as (r & evs & E & HP & HQ).
  unfold try_catch. rewrite E. destruct r as [a | e].
  - exists (Ok a), evs. auto.
  - destruct (Hh e (tr ++ evs)%list) as (r2 & evs2 & E2 & HP2 & HQ2).
    exists r2, (evs ++ evs2)%list. rewrite app_assoc.
    split; [exact E2|]. split; [now apply Forall_app | exact HQ2].
Qed.

Lemma performs_weaken {A} (P P' : Event -> Prop) (T T' : Prop)
      (Q Q' : A -> Prop) (m : IO A) :
  performs P T Q m ->
  (forall e, P e -> P' e) -> (T -> T') -> (forall a, Q a -> Q' a) ->
  performs P' T' Q' m.
Proof.
  intros Hm HP HT HQ tr. destruct (Hm tr) as (r & evs & E & H1 & H2).
  exists r, evs. split; [exact E|]. split.
  - eapply Forall_impl; [|exact H1]. exact HP.
  - destruct r; auto.
Qed.

Lemma performs_event {A} (P : Event -> Prop) (T : Prop) (Q : A -> Prop)
      (m : IO A) :
  (forall tr, exists a e, m tr = (Ok a, (tr ++ [e])%list) /\ P e /\ Q a) ->
  performs P T Q m.
Proof.
  intros H tr. destruct (H tr) as (a & e & E & HP & HQ).
  exists (Ok a), [e]. auto.
Qed.

Lemma performs_run W (P : Event -> Prop) (T : Prop) cmd args :
  (forall res, P (EvSpawn cmd args res)) ->
  performs P T (fun _ => True) (run W cmd args).
Proof. intros H. apply performs_event. intros tr. do 2 eexists. split; [reflexivity|]. auto. Qed.

Lemma performs_exists W (P : Event -> Prop) (T : Prop) p :
  (forall b, P (EvAccess p b)) ->
  performs P T (fun _ => True) (exists_ W p).
Proof. intros H. apply performs_event. intros tr. do 2 eexists. split; [reflexivity|]. auto. Qed.

Lemma performs_emit (P : Event -> Prop) (T : Prop) e :
  P e -> performs P T (fun _ => True) (emit e).
Proof. intros H. apply performs_event. intros tr. do 2 eexists. split; [reflexivity|]. auto. Qed.

Lemma performs_readFile W (P : Event -> Prop) p :
  P (EvReadFile p) -> performs P True (fun _ => True) (readFile W p).
Proof.
  intros H tr. unfold readFile. destruct (w_readFile W tr p); do 2 eexists; auto.
Qed.

Lemma performs_writeFile W (P : Event -> Prop) p data :
  P (EvWriteFile p data) -> performs P True (fun _ => True) (writeFile W p data).
Proof.
  intros H tr. unfold writeFile. destruct (w_writeFile W tr p data);
    do 2 eexists; auto.
Qed.

Lemma performs_lift {A} (P : Event -> Prop) (T : Prop) (Q : A -> Prop)
      (m : IO A) :
  performs P False Q m -> performs P T Q m.
Proof. intros H. eapply performs_weaken; eauto. tauto. Qed.

Lemma performs_any {A} (P : Event -> Prop) (T : Prop) (Q : A -> Prop)
      (m : IO A) :
  performs P T Q m -> performs P T (fun _ => True) m.
Proof. intros H. eapply performs_weaken; eauto. Qed.

(** Steps through a program of the monad: the value of a step whose
    postcondition is not needed is taken as arbitrary. *)
Ltac perf_step :=
  first
    [ apply performs_ret
    | apply performs_run
    | apply performs_exists
    | apply performs_emit
    | eapply performs_bind with (Q1 := fun _ => True); [ | intros ? _ ]
    | match goal with
      | |- performs _ _ _ (match ?x with _ => _ end) => destruct x eqn:?
      | |- performs _ _ _ (if ?x then _ else _) => destruct x eqn:?
      end ].
Ltac perf := repeat perf_step.

Section Footprints.

Variable W : World.
Variable P : Event -> Prop.
Variable tools : Tools.
Variables tempDir f jpg mp4 : string.
Variable dry : bool.

Hypothesis P_exif : forall cmd res,
  present (exiftool tools) = Some cmd -> P (EvSpawn cmd (orientation_args f) res).
Hypothesis P_rotation : forall cmd res,
  present (ffprobe tools) = Some cmd ->
  P (EvSpawn cmd (rotation_probe_args f) res).
Hypothesis P_read : P (EvReadFile f).
Hypothesis P_write : forall c data, P (EvWriteFile (slicePath tempDir f c) data).
Hypothesis P_unlink : forall c, P (EvUnlink (slicePath tempDir f c)).
Hypothesis P_probe : forall cmd c res,
  present (ffprobe tools) = Some cmd ->
  P (EvSpawn cmd (slice_probe_args (slicePath tempDir f c)) res).
Hypothesis P_tool : dry = false ->
  forall cmd args res, tool_of tools cmd -> P (EvSpawn cmd args res).
Hypothesis P_access : dry = false ->
  forall b, P (EvAccess jpg b) /\ P (EvAccess mp4 b).

Lemma getExifOrientationCode_performs :
  performs P False (fun _ => True) (getExifOrientationCode W tools f).
Proof.
  unfold getExifOrientationCode, orientationFromExif, orientationFromProbe.
  perf; auto.
Qed.

Lemma convertStill_performs q c :
  dry = false ->
  performs P False (fun _ => True) (convertStill W tools f jpg q c).
Proof.
  intros Hd. unfold convertStill, attempt.
  perf; auto; try (intros b; now apply P_access);
    intros res; apply P_tool; unfold tool_of; auto.
Qed.

Lemma getImageDimensions_performs :
  dry = false ->
  performs P False (fun _ => True) (getImageDimensions W tools jpg).
Proof.
  intros Hd. unfold getImageDimensions.
  perf; auto; intros res; apply P_tool; unfold tool_of; auto.
Qed.

Lemma copyAllMetadata_performs :
  dry = false ->
  performs P False (fun _ => True) (copyAllMetadata W tools f jpg).
Proof.
  intros Hd. unfold copyAllMetadata.
  perf; auto; intros res; apply P_tool; unfold tool_of; auto.
Qed.

Lemma same_outputs_refl s : same_outputs s s.
Proof. repeat split. Qed.

Lemma stillPath_performs q c s0 :
  dry = false -> file s0 = f -> jpgOut s0 = jpg ->
  performs P False
    (fun x => same_outputs s0 (fst x))
    (stillPath W tools q c s0).
Proof.
  intros Hd Hf Hj. unfold stillPath. rewrite Hf, Hj.
  eapply performs_bind; [apply (convertStill_performs q c Hd)|].
  intros conv _. destruct conv as [p m | failures].
  - cbn [jpgOut push_step]. rewrite Hj.
    eapply performs_bind; [apply (getImageDimensions_performs Hd)|].
    intros dim _.
    destruct (negb (plausibleDimensions (width dim) (height dim))).
    + apply performs_ret. repeat split.
    + cbn [file push_step]. rewrite Hf.
      eapply performs_bind; [apply (copyAllMetadata_performs Hd)|].
      intros meta _. apply performs_ret. repeat split.
  - apply performs_ret. repeat split.
Qed.

Lemma probeCandidate_performs cmd buf c :
  present (ffprobe tools) = Some cmd ->
  performs P False
    (fun r => match r with
              | Some (DetOk tmp _ _) => is_slice tempDir f tmp
              | _ => True
              end)
    (probeCandidate W cmd f tempDir buf c).
Proof.
  intros Hc. unfold probeCandidate, unlink.
  eapply performs_try with (T0 := True).
  - eapply performs_bind with (Q1 := fun _ => True);
      [apply performs_writeFile; apply P_write | intros ? _].
    eapply performs_bind with (Q1 := fun _ => True);
      [apply performs_run; intros res; now apply P_probe | intros probe _].
    destruct (negb (code_is_zero probe)).
    { perf; auto. }
    destruct (w_JSON_parse W (Str.or (stdout probe) "{}")) as [json|].
    2:{ perf; auto. }
    destruct (probeAccepts json).
    + apply performs_ret. now exists c.
    + perf; auto.
  - intros e. perf; auto.
Qed.

Lemma probeCandidates_performs cmd buf :
  present (ffprobe tools) = Some cmd ->
  forall cs,
    performs P False
      (fun r => match r with
                | DetOk tmp _ _ => is_slice tempDir f tmp
                | DetFail _ => True
                end)
      (probeCandidates W cmd f tempDir buf cs).
Proof.
  intros Hc. induction cs as [|c cs IH]; simpl.
  - now apply performs_ret.
  - eapply performs_bind; [apply (probeCandidate_performs buf c Hc)|].
    intros [[tmp json c' | reason] | ] H.
    + now apply performs_ret.
    + now apply performs_ret.
    + exact IH.
Qed.

Lemma detectEmbeddedVideo_performs :
  performs P True
    (fun r => match r with
              | DetOk tmp _ _ => is_slice tempDir f tmp
              | DetFail _ => True
              end)
    (detectEmbeddedVideo W tools f tempDir).
Proof.
  unfold detectEmbeddedVideo.
  case_eq (present (ffprobe tools)); [intros cmd Hc | intros Hc];
    [|now apply performs_ret].
  eapply performs_bind with (Q1 := fun _ => True);
    [apply performs_readFile; exact P_read | intros buf _].
  destruct (scanCandidates buf) as [|c cs] eqn:E; [now apply performs_ret|].
  eapply performs_weaken;
    [apply (probeCandidates_performs buf Hc (c :: cs)) | auto | tauto | auto].
Qed.

Lemma normalizeMp4_performs tmp json :
  dry = false ->
  performs P False (fun _ => True) (normalizeMp4 W tools tmp mp4 json).
Proof.
  intros Hd. unfold normalizeMp4.
  destruct (present (ffmpeg tools)) as [cmd|] eqn:Hc;
    [|now apply performs_ret].
  destruct (mp4_plan tmp mp4 json) as [args method].
  perf; auto. intros res. apply P_tool; unfold tool_of; auto.
Qed.

Lemma motionPath_performs s0 :
  file s0 = f -> mp4Out s0 = mp4 ->
  performs P False
    (fun x => same_outputs s0 (fst x)
              /\ (dry = true -> errors (fst x) = errors s0)
              /\ exists more, steps (fst x) = (steps s0 ++ more)%list)
    (motionPath W tools tempDir dry s0).
Proof.
  intros Hf Hm. unfold motionPath.
  case_eq (present (ffprobe tools)); [intros cmd Hc | intros Hc].
  2:{ apply performs_ret. cbn. repeat split; eauto. }
  eapply performs_try with (T0 := True).
  2:{ intros e. apply performs_ret. cbn. repeat split; auto.
      exists []. now rewrite app_nil_r. }
  rewrite Hf.
  eapply performs_bind; [apply detectEmbeddedVideo_performs|].
  intros [tmp json c | reason] Hslice.
  2:{ apply performs_ret. cbn. repeat split; eauto. }
  destruct Hslice as (c' & ->). unfold unlink.
  eapply performs_bind with (Q1 := fun s => same_outputs s0 s
      /\ (dry = true -> errors s = errors s0)
      /\ exists more, steps s = (steps s0 ++ more)%list).
  - case_eq dry; intros Hd; cbn [negb].
    + apply performs_ret. cbn. repeat split. rewrite <- app_assoc. eauto.
    + cbn [mp4Out push_step]. rewrite Hm.
      eapply performs_bind;
        [apply performs_lift, (normalizeMp4_performs _ _ Hd)|].
      intros [method | reason err] _; apply performs_ret; cbn;
        repeat split; auto; try discriminate.
      * rewrite <- app_assoc. eauto.
      * eauto.
  - intros s (Hs & He & Hst).
    eapply performs_bind with (Q1 := fun _ => True);
      [apply performs_emit; apply P_unlink | intros ? _].
    apply performs_ret. cbn. repeat split; try apply Hs; auto.
Qed.

Lemma processBody_performs q s0 :
  file s0 = f -> jpgOut s0 = jpg -> mp4Out s0 = mp4 ->
  performs P False
    (fun x => same_outputs s0 (fst x)
              /\ (dry = true ->
                  errors (fst x) = errors s0
                  /\ exists more,
                       steps (fst x)
                       = (steps s0 ++ "dry-run: skip still conversion" :: more)%list))
    (processBody W tools tempDir q dry s0).
Proof.
  intros Hf Hj Hm. unfold processBody. rewrite Hf.
  eapply performs_bind; [apply getExifOrientationCode_performs|].
  intros c _.
  eapply performs_bind with (Q1 := fun x => same_outputs s0 (fst x)
      /\ (dry = true ->
          errors (fst x) = errors s0
          /\ steps (fst x) = (steps s0 ++ ["dry-run: skip still conversion"])%list)).
  { case_eq dry; intros Hd.
    - apply performs_ret. cbn. repeat split.
    - eapply performs_weaken; [apply (stillPath_performs q c s0 Hd Hf Hj) | auto | auto |].
      intros x Hx. split; [exact Hx | discriminate]. }
  intros [s1 th1] (Hs1 & Hdry1). cbn [fst] in Hs1, Hdry1. cbv beta iota.
  destruct th1 as [e|].
  { apply performs_ret. cbn [fst]. split; [exact Hs1|].
    intros Hd. destruct (Hdry1 Hd) as (He & Hst). split; [exact He|].
    exists []. exact Hst. }
  destruct Hs1 as (Hf1 & Hj1 & Hm1).
  eapply performs_bind.
  { apply (@motionPath_performs s1); congruence. }
  intros [s2 th2] ((Hf2 & Hj2 & Hm2) & He2 & (more & Hst2)).
  cbn [fst] in *. cbv beta iota.
  assert (Hfinal : same_outputs s0 s2
            /\ (dry = true ->
                errors s2 = errors s0
                /\ exists more0,
                     steps s2
                     = (steps s0 ++ "dry-run: skip still conversion" :: more0)%list)).
  { split; [repeat split; congruence|].
    intros Hd. destruct (Hdry1 Hd) as (He & Hst). split.
    - rewrite (He2 Hd). exact He.
    - exists more. rewrite Hst2, Hst, <- app_assoc. reflexivity. }
  destruct th2 as [e|]; [now apply performs_ret|].
  eapply performs_bind with (Q1 := fun _ => True).
  - case_eq dry; intros Hd; cbn [negb]; [now apply performs_ret|].
    replace (jpgOut s2) with jpg by congruence.
    replace (mp4Out s2) with mp4 by congruence.
    perf; auto; intros b; now apply P_access.
  - intros ? _. now apply performs_ret.
Qed.

Lemma processOne_performs outDir q tr :
  jpg = jpgPathFor outDir (Path.parse_name f) ->
  mp4 = mp4PathFor outDir (Path.parse_name f) ->
  w_mkdtemp W tr (Path.join (w_tmpdir W) "heic2jpg-") = Some tempDir ->
  exists s evs,
    processOne W tools f outDir q dry tr
    = (Ok s, (tr ++ EvMkdtemp (Path.join (w_tmpdir W) "heic2jpg-")
                 :: evs ++ [EvRm tempDir])%list)
    /\ Forall P evs
    /\ same_outputs (initialSummary f outDir) s
    /\ (dry = true ->
        errors s = []
        /\ exists more, steps s = "dry-run: skip still conversion" :: more).
Proof.
  intros Hj Hm Htmp. unfold processOne.
  unfold bind at 1. unfold mkdtemp at 1. rewrite Htmp.
  fold (initialSummary f outDir).
  destruct (@processBody_performs q (initialSummary f outDir)
              eq_refl (eq_sym Hj) (eq_sym Hm)
              (tr ++ [EvMkdtemp (Path.join (w_tmpdir W) "heic2jpg-")])%list)
    as ([[s th] | e] & evs & E & HP & HQ); [|contradiction].
  unfold bind at 1. rewrite E. cbn [fst] in HQ. destruct HQ as (Hs & Hdry).
  exists s, evs. split.
  - unfold bind, rm, emit, ret. rewrite <- !app_assoc. reflexivity.
  - split; [exact HP|]. split; [exact Hs|]. exact Hdry.
Qed.

End Footprints.

Lemma processOne_result W tools f outDir q dry tr s tr' :
  processOne W tools f outDir q dry tr = (Ok s, tr') ->
  same_outputs (initialSummary f outDir) s /\ (dry = true -> errors s = []).
Proof.
  intros H.
  destruct (w_mkdtemp W tr (Path.join (w_tmpdir W) "heic2jpg-"))
    as [tempDir|] eqn:Htmp.
  2:{ unfold processOne, bind, mkdtemp in H. rewrite Htmp in H. discriminate. }
  destruct (@processOne_performs W (fun _ => True) tools tempDir f
              (jpgPathFor outDir (Path.parse_name f))
              (mp4PathFor outDir (Path.parse_name f)) dry)
    with (outDir := outDir) (q := q) (tr := tr)
    as (s0 & evs & E & _ & Hs & Hdry); auto.
  rewrite E in H. injection H as <- _. split; [exact Hs|].
  intros Hd. now destruct (Hdry Hd).
Qed.

(** ** One file *)

(** X9. Once its scratch directory exists, [processOne] never throws, in
    either mode: it returns the summary of the file it was given, with the
    two output paths derived from the base name, and the last thing it does
    is to remove the scratch directory.  In between it only starts tools
    that were detected, reads only the source file, writes and unlinks only
    scratch slices of that file, and checks only the two output paths.
    When the scratch directory cannot be created it throws at once. *)
Theorem processOne_stays_within_its_footprint :
  forall W tools f outDir q dry tr,
    let prefix := Path.join (w_tmpdir W) "heic2jpg-" in
    match w_mkdtemp W tr prefix with
    | None =>
        exists e,
          processOne W tools f outDir q dry tr
          = (Throw e, (tr ++ [EvMkdtemp prefix])%list)
    | Some tempDir =>
        exists s evs,
          processOne W tools f outDir q dry tr
          = (Ok s, (tr ++ EvMkdtemp prefix :: evs ++ [EvRm tempDir])%list)
          /\ same_outputs (initialSummary f outDir) s
          /\ Forall (file_footprint tools tempDir f (jpgOut s) (mp4Out s)) evs
    end.
Proof.
  intros W tools f outDir q dry tr prefix. subst prefix.
  destruct (w_mkdtemp W tr (Path.join (w_tmpdir W) "heic2jpg-"))
    as [tempDir|] eqn:Htmp.
  2:{ unfold processOne, bind, mkdtemp. rewrite Htmp. eauto. }
  destruct (@processOne_performs W
              (file_footprint tools tempDir f
                 (jpgPathFor outDir (Path.parse_name f))
                 (mp4PathFor outDir (Path.parse_name f)))
              tools tempDir f
              (jpgPathFor outDir (Path.parse_name f))
              (mp4PathFor outDir (Path.parse_name f)) dry)
    with (outDir := outDir) (q := q) (tr := tr)
    as (s & evs & E & HP & Hs & _);
    try reflexivity; try exact Htmp; cbn [file_footprint]; unfold tool_of, is_slice;
    eauto 6.
  exists s, evs. split; [exact E|]. split; [exact Hs|].
  destruct Hs as (_ & -> & ->). exact HP.
Qed.

(** X10. A dry run converts nothing: [processOne] starts neither a
    converter nor the metadata copy, and checks no output.  Its only child
    processes are the two orientation queries and the probing of scratch
    slices, for which it still reads the source and writes into the scratch
    directory.  Its summary opens with the step
    [dry-run: skip still conversion] and never holds an error. *)
Theorem processOne_dry_run_converts_nothing :
  forall W tools f outDir q tr tempDir,
    w_mkdtemp W tr (Path.join (w_tmpdir W) "heic2jpg-") = Some tempDir ->
    exists s evs,
      processOne W tools f outDir q true tr
      = (Ok s, (tr ++ EvMkdtemp (Path.join (w_tmpdir W) "heic2jpg-")
                   :: evs ++ [EvRm tempDir])%list)
      /\ Forall (dry_footprint tools tempDir f) evs
      /\ errors s = []
      /\ exists more, steps s = "dry-run: skip still conversion" :: more.
Proof.
  intros W tools f outDir q tr tempDir Htmp.
  destruct (@processOne_performs W (dry_footprint tools tempDir f)
              tools tempDir f
              (jpgPathFor outDir (Path.parse_name f))
              (mp4PathFor outDir (Path.parse_name f)) true)
    with (outDir := outDir) (q := q) (tr := tr)
    as (s & evs & E & HP & _ & Hdry);
    try reflexivity; try exact Htmp; try discriminate;
    cbn [dry_footprint]; unfold is_slice; eauto 8.
Qed.

(** X11. Without exiftool no file gets through the still path: outside
    dry-run mode every summary that [processOne] returns holds an error.
    Either the conversion chain failed, or the conversion succeeded and the
    dimension validator rejected it as 0x0, because only exiftool can
    measure the output; the metadata and motion steps are not reached. *)
Theorem processOne_without_exiftool_reports_failure :
  forall W tools f outDir q tr s tr',
    present (exiftool tools) = None ->
    processOne W tools f outDir q false tr = (Ok s, tr') ->
    (exists failures,
        steps s = [] /\ errors s = [still_failed_message failures])
    \/ (exists m,
           steps s = ["still: " ++ m]
           /\ errors s = ["implausible dimensions 0x0"]).
Proof.
  intros W tools f outDir q tr s tr' Hnone H.
  destruct (mkdtemp W (Path.join (w_tmpdir W) "heic2jpg-") tr)
    as [[tempDir | e] tr1] eqn:Hm.
  2:{ unfold processOne, bind in H. rewrite Hm in H. discriminate. }
  destruct (getExifOrientationCode_total W tools f tr1) as (c & evs & Ho).
  destruct (stillPath_cases W tools q c (initialSummary f outDir) (tr1 ++ evs)%list)
    as [(fs & t' & E & Es) | [(p & m & t1 & dim & t' & E & Ed & Ep & Es) |
           (p & m & t1 & dim & t2 & meta & t' & E & Ed & Ep & _)]].
  - rewrite (processOne_still_throws W tools f outDir q tr Hm Ho Es) in H.
    injection H as <- _. left. exists fs. split; reflexivity.
  - rewrite (processOne_still_throws W tools f outDir q tr Hm Ho Es) in H.
    injection H as <- _. right. exists m.
    rewrite getImageDimensions_no_exiftool in Ed by exact Hnone.
    injection Ed as <- _. split; reflexivity.
  - rewrite getImageDimensions_no_exiftool in Ed by exact Hnone.
    injection Ed as <- _. discriminate.
Qed.

Lemma detectEmbeddedVideo_unreadable W tools f tempDir cmd tr :
  present (ffprobe tools) = Some cmd ->
  w_readFile W tr f = None ->
  exists e,
    detectEmbeddedVideo W tools f tempDir tr
    = (Throw e, (tr ++ [EvReadFile f])%list).
Proof.
  intros Hc Hr. unfold detectEmbeddedVideo. rewrite Hc.
  unfold bind, readFile. rewrite Hr. eauto.
Qed.

(** X12. A source file that cannot be read when the motion path scans it
    ends the processing of the file without any trace in the summary: the
    steps are those of the still path, no motion step is added and the
    error list stays empty, so that the run does not count the file as a
    failure. *)
Theorem processOne_unreadable_source_records_no_error :
  forall W tools f outDir q tr tempDir tr1 c tr2 s tr3 cmd,
    mkdtemp W (Path.join (w_tmpdir W) "heic2jpg-") tr = (Ok tempDir, tr1) ->
    getExifOrientationCode W tools f tr1 = (Ok c, tr2) ->
    stillPath W tools q c (initialSummary f outDir) tr2 = (Ok (s, None), tr3) ->
    present (ffprobe tools) = Some cmd ->
    w_readFile W tr3 f = None ->
    processOne W tools f outDir q false tr
    = (Ok s, (tr3 ++ [EvReadFile f; EvRm tempDir])%list)
    /\ errors s = []
    /\ has_errors s = false
    /\ exists m meta, steps s = ["still: " ++ m; "metadata: " ++ meta].
Proof.
  intros W tools f outDir q tr tempDir tr1 c tr2 s tr3 cmd Hm Ho Hs Hc Hr.
  assert (Hshape : errors s = []
            /\ file s = f
            /\ exists m meta, steps s = ["still: " ++ m; "metadata: " ++ meta]).
  { destruct (stillPath_cases W tools q c (initialSummary f outDir) tr2)
      as [(fs & t' & E & Es) | [(p & m & t1 & dim & t' & E & Ed & Ep & Es) |
             (p & m & t1 & dim & t2 & meta & t' & E & Ed & Ep & Em & Es)]];
      rewrite Es in Hs; try discriminate.
    injection Hs as <- _. split; [reflexivity|]. split; [reflexivity|].
    exists m, (if meta_ok meta then "copied+Orientation=1"
               else "skipped/partial").
    reflexivity. }
  destruct Hshape as (He & Hf & Hst).
  split; [|split; [exact He | split; [unfold has_errors; now rewrite He | exact Hst]]].
  destruct (@detectEmbeddedVideo_unreadable W tools f tempDir cmd tr3 Hc Hr)
    as (e & Ed).
  assert (Hb : processBody W tools tempDir q false (initialSummary f outDir) tr1
               = (Ok (s, Some e), (tr3 ++ [EvReadFile f])%list)).
  { unfold processBody. cbn [file initialSummary].
    rewrite (bind_ok _ _ _ Ho). cbn [negb].
    rewrite (bind_ok _ _ _ Hs). cbv beta iota.
    unfold motionPath. rewrite Hc, Hf.
    unfold bind at 1. unfold try_catch. unfold bind at 1.
    rewrite Ed. reflexivity. }
  rewrite (processOne_of_body W tools f outDir q tr Hm Hb).
  now rewrite <- app_assoc.
Qed.

(** X13. Two source files of one directory whose names differ only in the
    extension, such as [a.heic] and [a.HEIF], are given the same two output
    paths, [<stem>.jpg] and [<stem>.mp4] in the output directory. *)
Theorem same_stem_same_outputs :
  forall W tools root outDir stem ext1 ext2 q dry tr1 tr2 s1 s2 tr1' tr2',
    stem <> "" -> lacks "/" stem ->
    lacks "/" ext1 -> lacks "." ext1 -> lacks "/" ext2 -> lacks "." ext2 ->
    processOne W tools (Path.join root (stem ++ "." ++ ext1)) outDir q dry tr1
    = (Ok s1, tr1') ->
    processOne W tools (Path.join root (stem ++ "." ++ ext2)) outDir q dry tr2
    = (Ok s2, tr2') ->
    jpgOut s1 = Path.join outDir (stem ++ ".jpg")
    /\ mp4Out s1 = Path.join outDir (stem ++ ".mp4")
    /\ jpgOut s2 = jpgOut s1 /\ mp4Out s2 = mp4Out s1.
Proof.
  intros W tools root outDir stem ext1 ext2 q dry tr1 tr2 s1 s2 tr1' tr2'
         Hne Hs H1 H1' H2 H2' E1 E2.
  apply processOne_result in E1. apply processOne_result in E2.
  destruct E1 as ((_ & Hj1 & Hm1) & _). destruct E2 as ((_ & Hj2 & Hm2) & _).
  cbn [jpgOut mp4Out initialSummary] in *.
  rewrite parse_name_join in Hj1, Hm1, Hj2, Hm2 by assumption.
  unfold jpgPathFor, mp4PathFor in *. repeat split; congruence.
Qed.

(** ** Measuring the output *)

(** X14. [getImageDimensions] never throws and starts exiftool at most
    once.  It reports the source [exiftool] only when exiftool is there,
    exits with code 0 and prints exactly two lines that are finite
    numbers; in every other case it reports 0x0 from the source [none],
    which the dimension validator rejects.  The two sides are never NaN or
    infinite. *)
Theorem getImageDimensions_measures_with_exiftool_only :
  forall W tools f tr,
    exists dim evs,
      getImageDimensions W tools f tr = (Ok dim, (tr ++ evs)%list)
      /\ Js.isFinite (width dim) = true /\ Js.isFinite (height dim) = true
      /\ ((source dim = "none" /\ width dim = Js.of_Z 0
           /\ height dim = Js.of_Z 0 /\ (List.length evs <= 1)%nat
           /\ plausibleDimensions (width dim) (height dim) = false)
          \/ (source dim = "exiftool"
              /\ exists cmd res,
                   present (exiftool tools) = Some cmd
                   /\ evs = [EvSpawn cmd (dimension_args f) res]
                   /\ code res = Some 0
                   /\ List.length (Str.split_lines (Str.trim (stdout res)))
                      = 2%nat)).
Proof.
  intros W tools f tr. unfold getImageDimensions.
  destruct (present (exiftool tools)) as [cmd|] eqn:Hc.
  2:{ exists {| width := Js.of_Z 0; height := Js.of_Z 0; source := "none" |}, [].
      rewrite app_nil_r. split; [reflexivity|]. cbn.
      split; [reflexivity|]. split; [reflexivity|]. left. repeat split. lia. }
  unfold bind, run, ret. fold (dimension_args f).
  set (res := w_spawn W tr cmd (dimension_args f)).
  assert (Hnone : forall evs, (List.length evs <= 1)%nat ->
    exists dim evs0,
      (Ok {| width := Js.of_Z 0; height := Js.of_Z 0; source := "none" |},
       (tr ++ evs)%list) = (Ok dim, (tr ++ evs0)%list)
      /\ Js.isFinite (width dim) = true /\ Js.isFinite (height dim) = true
      /\ ((source dim = "none" /\ width dim = Js.of_Z 0
           /\ height dim = Js.of_Z 0 /\ (List.length evs0 <= 1)%nat
           /\ plausibleDimensions (width dim) (height dim) = false)
          \/ (source dim = "exiftool"
              /\ exists cmd0 res0,
                   Some cmd = Some cmd0
                   /\ evs0 = [EvSpawn cmd0 (dimension_args f) res0]
                   /\ code res0 = Some 0
                   /\ List.length (Str.split_lines (Str.trim (stdout res0)))
                      = 2%nat))).
  { intros evs Hlen. do 2 eexists. split; [reflexivity|]. cbn.
    split; [reflexivity|]. split; [reflexivity|]. left. repeat split. exact Hlen. }
  pose proof (code_is_zero_iff res) as Hz.
  destruct (code_is_zero res); [|apply Hnone; simpl; lia].
  destruct (Str.split_lines (Str.trim (stdout res))) as [|l1 [|l2 [|l3 ls]]] eqn:El;
    cbn [map]; try (apply Hnone; simpl; lia).
  destruct (forallb Js.isFinite
              [Conv.Number (Str.trim l1); Conv.Number (Str.trim l2)]) eqn:Ef;
    [|apply Hnone; simpl; lia].
  cbn [forallb] in Ef. apply andb_prop in Ef as [F1 F2].
  apply andb_prop in F2 as [F2 _].
  do 2 eexists. split; [reflexivity|]. cbn [width height source].
  split; [exact F1|]. split; [exact F2|]. right. split; [reflexivity|].
  exists cmd, res. split; [reflexivity|]. split; [reflexivity|].
  split; [now apply Hz|]. fold res. now rewrite El.
Qed.

(** ** Walking the source directory *)

Lemma iterateEntry_located : forall d root p,
  In p (iterateEntry root true d) <-> located root d p.
Proof.
  fix IH 1. intros [name | name sub] root p.
  - simpl. destruct (heic_regex name) eqn:E.
    + split.
      * intros [<- | []]. now constructor.
      * intros H. inversion H; subst. now left.
    + split; [intros [] | intros H; inversion H; congruence].
  - assert (Hsub : forall d, In d sub ->
              forall r q, In q (iterateEntry r true d) <-> located r d q).
    { clear - IH. induction sub as [|d0 sub IHsub]; intros d Hd;
        [destruct Hd|].
      destruct Hd as [<- | Hd]; [apply IH | now apply IHsub]. }
    cbn [iterateEntry]. rewrite in_flat_map. split.
    + intros (d & Hd & Hp). apply located_dir with d; [exact Hd|].
      now apply Hsub.
    + intros H. inversion H as [|r n s d q Hd Hl]; subst.
      exists d. split; [exact Hd | now apply Hsub].
Qed.

(** X15. [iterateFiles] with recursion yields exactly the files, at any
    depth below the root, whose name passes the filter, each under the path
    joined from the directories above it; a directory is never yielded,
    whatever its name.  Everything that the walk yields without recursion
    it also yields with it. *)
Theorem iterateFiles_recursive_locates :
  forall root entries,
    (forall p, In p (iterateFiles root entries true)
               <-> exists d, In d entries /\ located root d p)
    /\ incl (iterateFiles root entries false) (iterateFiles root entries true).
Proof.
  intros root entries.
  assert (Hrec : forall p, In p (iterateFiles root entries true)
                           <-> exists d, In d entries /\ located root d p).
  { intros p. unfold iterateFiles. rewrite in_flat_map.
    split; intros (d & Hd & H); exists d; (split; [exact Hd|]);
      now apply iterateEntry_located. }
  split; [exact Hrec|].
  intros p Hp. apply iterateFiles_flat in Hp.
  destruct Hp as (name & Hin & Hre & ->).
  apply Hrec. exists (File name). split; [exact Hin | now constructor].
Qed.

(** ** The run as a whole *)

Lemma processOne_extends W tools f outDir q dry tr :
  exists r evs, processOne W tools f outDir q dry tr = (r, (tr ++ evs)%list).
Proof.
  destruct (w_mkdtemp W tr (Path.join (w_tmpdir W) "heic2jpg-"))
    as [tempDir|] eqn:Htmp.
  - destruct (@processOne_performs W (fun _ => True) tools tempDir f
                (jpgPathFor outDir (Path.parse_name f))
                (mp4PathFor outDir (Path.parse_name f)) dry)
      with (outDir := outDir) (q := q) (tr := tr)
      as (s0 & evs & E & _); auto.
    rewrite E. eauto.
  - unfold processOne, bind, mkdtemp. rewrite Htmp. eauto.
Qed.

Lemma processAll_extends W tools args : forall files tr,
  exists r evs, processAll W tools args files tr = (r, (tr ++ evs)%list).
Proof.
  induction files as [|f rest IH]; intros tr; simpl.
  - exists (Ok []), []. now rewrite app_nil_r.
  - destruct (processOne_extends W tools f (outputDir args) (quality args)
                (dryRun args) tr) as (r1 & evs1 & E1).
    unfold bind at 1. rewrite E1. destruct r1 as [s | e]; [|eauto].
    destruct (IH (tr ++ evs1)%list) as (r2 & evs2 & E2).
    unfold bind at 1. rewrite E2. rewrite <- app_assoc.
    destruct r2 as [others | e]; unfold ret; eauto.
Qed.

(** X16. [main] fails fast and in a fixed order.  A command line that does
    not parse ends the run with status 2 before anything is touched; a
    source directory that does not exist ends it after that one check,
    without the output directory being created.  Otherwise the output
    directory is created -- in a dry run too -- and a failure to create it
    ends the run with status 2; only then is the source directory listed,
    once, and the files processed. *)
Theorem main_fails_fast :
  forall W argv tr,
    match parseArgs W argv with
    | Throw _ => main W argv tr = (Ok (Exit 2), tr)
    | Ok args =>
        let tr1 :=
          (tr ++ [EvAccess (sourceDir args)
                    (w_access W tr (sourceDir args))])%list in
        if w_access W tr (sourceDir args) then
          if w_mkdir W tr1 (outputDir args) then
            exists outcome evs,
              main W argv tr
              = (Ok outcome,
                 (tr1 ++ EvMkdir (outputDir args)
                      :: EvReaddir (sourceDir args) :: evs)%list)
          else
            main W argv tr
            = (Ok (Exit 2), (tr1 ++ [EvMkdir (outputDir args)])%list)
        else main W argv tr = (Ok (Exit 2), tr1)
    end.
Proof.
  intros W argv tr. unfold main.
  destruct (parseArgs W argv) as [args | e]; [|reflexivity].
  cbv zeta. unfold try_catch, mainBody, bind, exists_, mkdir, readdir, ret.
  destruct (w_access W tr (sourceDir args)); cbn [negb]; [|reflexivity].
  set (tr1 := (tr ++ [EvAccess (sourceDir args) true])%list).
  destruct (w_mkdir W tr1 (outputDir args)); [|reflexivity].
  set (tr2 := (tr1 ++ [EvMkdir (outputDir args)])%list).
  assert (Htr : forall evs,
             ((tr2 ++ [EvReaddir (sourceDir args)]) ++ evs)%list
             = (tr1 ++ EvMkdir (outputDir args)
                    :: EvReaddir (sourceDir args) :: evs)%list).
  { intros evs. subst tr2. now rewrite <- !app_assoc. }
  destruct (w_readdir W tr2 (sourceDir args)) as [entries|].
  2:{ exists (Exit 2), []. now rewrite <- Htr, app_nil_r. }
  destruct (processAll_extends W (detectTools W) args
              (iterateFiles (sourceDir args) entries false)
              (tr2 ++ [EvReaddir (sourceDir args)])%list) as (r & evs & E).
  rewrite E, Htr. destruct r as [sums | e]; eauto.
Qed.

Lemma processAll_dry W tools args :
  dryRun args = true ->
  forall files tr sums tr',
    processAll W tools args files tr = (Ok sums, tr') ->
    Forall (fun s => errors s = []) sums.
Proof.
  intros Hdry. induction files as [|f rest IH]; intros tr sums tr' H.
  - simpl in H. unfold ret in H. injection H as <- _. constructor.
  - simpl in H. unfold bind at 1 in H.
    destruct (processOne W tools f (outputDir args) (quality args)
                (dryRun args) tr) as [[s | e] tr1] eqn:E1; [|discriminate].
    unfold bind at 1 in H.
    destruct (processAll W tools args rest tr1) as [[others | e] tr2] eqn:E2;
      [|discriminate].
    unfold ret in H. injection H as <- _.
    constructor; [|eapply IH; eassumption].
    apply processOne_result in E1. now apply E1.
Qed.

Lemma filter_has_errors_nil sums :
  Forall (fun s => errors s = []) sums -> filter has_errors sums = [].
Proof.
  induction 1 as [|s sums Hs _ IH]; [reflexivity|].
  simpl. unfold has_errors at 1. now rewrite Hs.
Qed.

(** X17. A dry run never counts a failure: whatever the tools answer, the
    final report of a run with [--dry-run] has 0 failures, and no summary
    holds an error. *)
Theorem main_dry_run_reports_no_failure :
  forall W argv args tr count failures sums tr',
    parseArgs W argv = Ok args ->
    dryRun args = true ->
    main W argv tr = (Ok (Done count failures sums), tr') ->
    failures = 0%nat /\ Forall (fun s => errors s = []) sums.
Proof.
  intros W argv args tr count failures sums tr' Ha Hdry. unfold main.
  rewrite Ha. unfold try_catch, mainBody. unfold bind at 1. unfold exists_ at 1.
  destruct (w_access W tr (sourceDir args)); cbn [negb];
    [|unfold ret; discriminate].
  unfold bind at 1. unfold mkdir at 1.
  destruct (w_mkdir W _ (outputDir args)); [|unfold ret; discriminate].
  unfold bind at 1. unfold readdir at 1.
  destruct (w_readdir W _ (sourceDir args)) as [entries|];
    [|unfold ret; discriminate].
  unfold bind at 1.
  destruct (processAll W (detectTools W) args
              (iterateFiles (sourceDir args) entries false) _)
    as [[sums0 | e] tr3] eqn:Ep; [|unfold ret; discriminate].
  unfold ret. intros H. injection H as _ <- <- _.
  apply (processAll_dry _ _ _ Hdry) in Ep.
  split; [|exact Ep]. now rewrite filter_has_errors_nil.
Qed.

(** ** Calling ImageMagick *)

Lemma present_some o s : present o = Some s -> present (Some s) = Some s.
Proof.
  destruct o as [x|]; simpl; [|discriminate].
  destruct (Str.truthy x) eqn:E; [|discriminate].
  intros H. injection H as <-. now rewrite E.
Qed.

(** X18. With the tools as [detectTools] found them, the first process of
    the still conversion is ImageMagick whenever [magick] or [convert] was
    found, and [magick] is preferred.  The modern binary is called with the
    subcommand [convert] before the source file; the legacy [convert]
    binary is called without it.  When neither was found no ImageMagick
    entry is present. *)
Theorem convertStill_imagemagick_invocation :
  forall W src dst q c tr,
    let tools := detectTools W in
    match present (w_which W "magick"), present (w_which W "convert") with
    | Some m, _ =>
        exists ops res rest,
          snd (convertStill W tools src dst q c tr)
          = (tr ++ EvSpawn m
                     ("convert" :: src :: ops ++ ["-quality"; Str.of_Z q; dst])
                     res :: rest)%list
    | None, Some cv =>
        exists ops res rest,
          snd (convertStill W tools src dst q c tr)
          = (tr ++ EvSpawn cv (src :: ops ++ ["-quality"; Str.of_Z q; dst])
                     res :: rest)%list
    | None, None => present (imagemagick tools) = None
    end.
Proof.
  intros W src dst q c tr tools. subst tools.
  rewrite convertStill_chain. unfold strategies, when_present.
  cbn [detectTools imagemagick heif_convert ffmpeg].
  unfold tool_or.
  destruct (present (w_which W "magick")) as [m|] eqn:Hm.
  - rewrite (present_some _ Hm). cbn [app].
    match goal with |- context [chain W dst (?s :: ?tl) [] tr] =>
      destruct (chain_first W dst s tl [] tr) as (rest & E) end.
    rewrite E. cbn [st_cmd st_args]. unfold imagemagick_args.
    cbn [magick detectTools]. rewrite Hm.
    do 3 eexists. reflexivity.
  - destruct (present (w_which W "convert")) as [cv|] eqn:Hc.
    + rewrite (present_some _ Hc). cbn [app].
      match goal with |- context [chain W dst (?s :: ?tl) [] tr] =>
        destruct (chain_first W dst s tl [] tr) as (rest & E) end.
      rewrite E. cbn [st_cmd st_args]. unfold imagemagick_args.
      cbn [magick detectTools]. rewrite Hm.
      do 3 eexists. reflexivity.
    + reflexivity.
Qed.

(** ** The motion path at its edges *)

(** X19. An ordinary still is never probed: when every [ftyp] marker of
    the source is the primary one (at offset 4 or before) or carries a
    HEIF or AVIF brand, the detector reports [no_candidates] after reading
    the file, without writing a scratch slice and without starting
    ffprobe. *)
Theorem plain_heic_is_not_probed :
  forall W tools f tempDir tr buf cmd,
    present (ffprobe tools) = Some cmd ->
    w_readFile W tr f = Some buf ->
    (forall i, occurs_at ftyp buf i ->
               (i <= 4)%nat
               \/ exists m, readAscii buf (Z.of_nat i + 4) 4 = Some m
                            /\ is_heif_like m = true) ->
    detectEmbeddedVideo W tools f tempDir tr
    = (Ok (DetFail "no_candidates"), (tr ++ [EvReadFile f])%list).
Proof.
  intros W tools f tempDir tr buf cmd Hc Hr Hplain.
  assert (Hnone : scanCandidates buf = []).
  { rewrite scanCandidates_rev.
    destruct (collectCandidates buf (bytesIndexAll buf "ftyp")) as [|c l] eqn:E;
      [reflexivity|].
    assert (Hin : In c (collectCandidates buf (bytesIndexAll buf "ftyp")))
      by (rewrite E; now left).
    apply collectCandidates_in in Hin. destruct Hin as (i & Hi & Hcand).
    apply (proj1 (bytesIndexAll_spec buf)) in Hi.
    apply candidateAt_some in Hcand. destruct Hcand as (Hpos & _ & Hbrand).
    destruct (Hplain i Hi) as [Hle | (m & Hm & Hheif)]; [lia|].
    rewrite (Hbrand m Hm) in Hheif. discriminate. }
  unfold detectEmbeddedVideo. rewrite Hc.
  unfold bind, readFile. rewrite Hr, Hnone. reflexivity.
Qed.

(** X20. With ffprobe but without ffmpeg every detected motion video ends
    as an error of the file: the motion path records the candidate, adds
    the error [mp4 normalize failed: ffmpeg_missing] without starting any
    process for the normalisation, and still removes the scratch slice. *)
Theorem motion_video_without_ffmpeg :
  forall W tools tempDir s tr tmp json cand tr1 cmd,
    present (ffprobe tools) = Some cmd ->
    present (ffmpeg tools) = None ->
    detectEmbeddedVideo W tools (file s) tempDir tr
    = (Ok (DetOk tmp json cand), tr1) ->
    exists s' step,
      motionPath W tools tempDir false s tr
      = (Ok (s', None), (tr1 ++ [EvUnlink tmp])%list)
      /\ steps s' = (steps s ++ [step])%list
      /\ errors s'
         = (errors s ++ ["mp4 normalize failed: ffmpeg_missing"])%list.
Proof.
  intros W tools tempDir s tr tmp json cand tr1 cmd Hc Hf Hd.
  unfold motionPath. rewrite Hc. unfold try_catch.
  rewrite (bind_ok _ _ _ Hd). cbn [negb].
  unfold normalizeMp4. rewrite Hf.
  do 2 eexists. split; [reflexivity|]. split; reflexivity.
Qed.

(** X21. The detector throws exactly when ffprobe is there and the source
    file cannot be read.  A scratch slice that cannot be written, a probe
    that fails and an output that does not parse only make it go on with
    the next candidate: with the source read, it always returns a result. *)
Theorem detectEmbeddedVideo_throws_only_on_read :
  forall W tools f tempDir tr,
    (exists e tr', detectEmbeddedVideo W tools f tempDir tr = (Throw e, tr'))
    <-> present (ffprobe tools) <> None /\ w_readFile W tr f = None.
Proof.
  intros W tools f tempDir tr. split.
  - intros (e & tr' & H). unfold detectEmbeddedVideo in H.
    destruct (present (ffprobe tools)) as [cmd|] eqn:Hc; [|discriminate].
    split; [discriminate|].
    unfold bind at 1, readFile at 1 in H.
    destruct (w_readFile W tr f) as [buf|]; [|reflexivity].
    exfalso.
    destruct (scanCandidates buf) as [|c cs]; [discriminate|].
    destruct (@probeCandidates_performs W (fun _ => True) tools tempDir f
                (fun _ _ => I) (fun _ => I) (fun _ _ _ _ => I)
                cmd buf Hc (c :: cs)
                (tr ++ [EvReadFile f])%list)
      as ([r | e'] & evs & E & _ & HT); [|contradiction].
    rewrite E in H. discriminate.
  - intros (Hc & Hr).
    destruct (present (ffprobe tools)) as [cmd|] eqn:Hp; [|contradiction].
    destruct (@detectEmbeddedVideo_unreadable W tools f tempDir cmd tr Hp Hr)
      as (e & E).
    eauto.
Qed.

(** ** The dimension validator *)

Lemma gtb_64_truthy w : Js.gtb w (Js.of_Z 64) = true -> Js.truthy w = true.
Proof.
  destruct w as [| [|] | x]; try discriminate; try reflexivity.
  unfold Js.gtb, Js.ltb, Js.truthy, Js.of_Z. intros H.
  apply negb_true_iff in H. apply negb_true_iff.
  destruct (Qeq_bool x 0) eqn:E; [|reflexivity].
  apply Qeq_bool_iff in E.
  assert (Hle : Qle_bool x (inject_Z 64) = true).
  { apply Qle_bool_iff. rewrite E. discriminate. }
  congruence.
Qed.

Lemma gtb_leb w k : Js.gtb w k = true -> Js.leb w k = false.
Proof.
  destruct w as [| [|] | x], k as [| [|] | y]; try discriminate; try reflexivity.
  unfold Js.gtb, Js.ltb, Js.leb. intros H. now apply negb_true_iff in H.
Qed.

Lemma leb_gtb_fin w k :
  Js.truthy w = true -> Js.leb w (Js.of_Z k) = false ->
  Js.gtb w (Js.of_Z k) = true.
Proof.
  destruct w as [| [|] | x]; try discriminate; try reflexivity.
  unfold Js.gtb, Js.ltb, Js.leb, Js.of_Z. intros _ H. now rewrite H.
Qed.

(** X22. The dimension validator accepts a picture exactly when both sides
    are greater than 64 and the picture is neither 512x512 nor 320x240
    (the portrait 240x320 passes); NaN, 0 and negative sides are rejected
    by the same bound. *)
Theorem plausibleDimensions_iff :
  forall w h,
    plausibleDimensions w h = true <->
    Js.gtb w (Js.of_Z 64) = true /\ Js.gtb h (Js.of_Z 64) = true
    /\ (Js.eqb w (Js.of_Z 512) && Js.eqb h (Js.of_Z 512)) = false
    /\ (Js.eqb w (Js.of_Z 320) && Js.eqb h (Js.of_Z 240)) = false.
Proof.
  intros w h. unfold plausibleDimensions. split.
  - destruct (Js.truthy w) eqn:Tw; cbn [negb orb]; [|discriminate].
    destruct (Js.truthy h) eqn:Th; cbn [negb orb]; [|discriminate].
    destruct (Js.leb w (Js.of_Z 64)) eqn:Lw; cbn [orb]; [discriminate|].
    destruct (Js.leb h (Js.of_Z 64)) eqn:Lh; [discriminate|].
    destruct (Js.eqb w (Js.of_Z 512) && Js.eqb h (Js.of_Z 512)); cbn [orb];
      [discriminate|].
    destruct (Js.eqb w (Js.of_Z 320) && Js.eqb h (Js.of_Z 240));
      [discriminate|].
    intros _. repeat split; now apply leb_gtb_fin.
  - intros (Gw & Gh & E1 & E2).
    rewrite (gtb_64_truthy _ Gw), (gtb_64_truthy _ Gh).
    rewrite (gtb_leb _ _ Gw), (gtb_leb _ _ Gh), E1, E2. reflexivity.
Qed.

(** ** Switches *)

Lemma parseLoop_switches : forall n l,
  (List.length l <= n)%nat ->
  forall dbg q rec dry rest dbg' q' rec' dry' rest',
    parseLoop l (dbg, q, rec, dry) rest = Ok (dbg', q', rec', dry', rest') ->
    (dbg' = true <-> dbg = true \/ In "--debug" l)
    /\ (dry' = true <-> dry = true \/ In "--dry-run" l).
Proof.
  induction n as [|n IH]; intros l Hlen dbg q rec dry rest dbg' q' rec' dry' rest' H.
  - destruct l; [|simpl in Hlen; lia].
    simpl in H. injection H as <- <- <- <- <-. simpl. tauto.
  - destruct l as [|v l].
    { simpl in H. injection H as <- <- <- <- <-. simpl. tauto. }
    simpl in Hlen. rewrite parseLoop_cons in H.
    destruct (String.eqb_spec v "--debug") as [->|Hd].
    { apply IH in H; [|lia]. destruct H as [H1 H2]. rewrite H1, H2. simpl.
      split; [tauto|]. split; [tauto|].
      intros [? | [? | ?]]; auto; discriminate. }
    destruct (String.eqb_spec v "--recursive") as [->|Hr].
    { apply IH in H; [|lia]. destruct H as [H1 H2]. rewrite H1, H2. simpl.
      split; (split; [tauto|]); intros [? | [? | ?]]; auto; discriminate. }
    destruct (String.eqb_spec v "--dry-run") as [->|Hy].
    { apply IH in H; [|lia]. destruct H as [H1 H2]. rewrite H1, H2. simpl.
      split; [|tauto]. split; [tauto|].
      intros [? | [? | ?]]; auto; discriminate. }
    destruct (String.eqb_spec v "--quality") as [->|Hq].
    { destruct l as [|x l']; [discriminate|].
      destruct (quality_accepted x) eqn:Eacc; [|discriminate].
      assert (Hx1 : x <> "--debug").
      { intros ->. vm_compute in Eacc. discriminate. }
      assert (Hx2 : x <> "--dry-run").
      { intros ->. vm_compute in Eacc. discriminate. }
      simpl in Hlen. apply IH in H; [|lia]. destruct H as [H1 H2].
      rewrite H1, H2. simpl.
      split; (split; [tauto|]);
        intros [? | [? | [? | ?]]]; auto; try discriminate; congruence. }
    apply IH in H; [|lia]. destruct H as [H1 H2]. rewrite H1, H2. simpl.
    split; (split; [tauto|]); intros [? | [? | ?]]; auto; congruence.
Qed.

(** X23. The switches [--debug] and [--dry-run] may stand anywhere on the
    command line, before, between or after the two directories: after a
    successful parse each is set exactly when it is among the arguments. *)
Theorem parseArgs_switches_anywhere :
  forall W argv args,
    parseArgs W argv = Ok args ->
    (debug args = true <-> In "--debug" (skipn 2 argv))
    /\ (dryRun args = true <-> In "--dry-run" (skipn 2 argv)).
Proof.
  intros W argv args. unfold parseArgs.
  destruct (parseLoop (skipn 2 argv) (false, 95, false, false) [])
    as [[[[[dbg q] rec] dry] rest] | e] eqn:E; [|discriminate].
  destruct rest as [|src [|out rest]]; try discriminate.
  intros H. injection H as <-. simpl.
  destruct (@parseLoop_switches _ (skipn 2 argv) (le_n _) _ _ _ _ _ _ _ _ _ _ E)
    as [H1 H2].
  rewrite H1, H2.
  split; (split; [intros [? | ?]; [discriminate | assumption] | auto]).
Qed.

(** ** The exit status *)

Lemma processAll_total W tools args :
  (forall t p, w_mkdtemp W t p <> None) ->
  forall files tr,
    exists sums tr',
      processAll W tools args files tr = (Ok sums, tr')
      /\ map file sums = files.
Proof.
  intros Htmp. induction files as [|f rest IH]; intros tr; simpl.
  - exists [], tr. split; reflexivity.
  - destruct (w_mkdtemp W tr (Path.join (w_tmpdir W) "heic2jpg-"))
      as [tempDir|] eqn:Hm; [|now elim (Htmp _ _ Hm)].
    destruct (@processOne_performs W (fun _ => True) tools tempDir f
                (jpgPathFor (outputDir args) (Path.parse_name f))
                (mp4PathFor (outputDir args) (Path.parse_name f))
                (dryRun args))
      with (outDir := outputDir args) (q := quality args) (tr := tr)
      as (s & evs & E & _ & (Hf & _) & _); auto.
    unfold bind at 1. rewrite E.
    match type of E with _ = (_, ?t) =>
      destruct (IH t) as (others & tr2 & E2 & Hmap) end.
    unfold bind at 1. rewrite E2. unfold ret.
    exists (s :: others), tr2. split; [reflexivity|].
    simpl. now rewrite Hf, Hmap.
Qed.

(** X24. Failures of single files never change how the run ends: when the
    command line parses, the source directory exists and can be listed, the
    output directory can be created and every scratch directory too, [main]
    ends with its report and not with status 2, however many files failed.
    The report counts one file for every matching entry of the source
    directory, and as failures those whose summary holds an error. *)
Theorem main_reports_despite_failures :
  forall W argv args tr entries,
    parseArgs W argv = Ok args ->
    w_access W tr (sourceDir args) = true ->
    w_mkdir W (tr ++ [EvAccess (sourceDir args) true])%list (outputDir args)
    = true ->
    (forall t p, w_mkdtemp W t p <> None) ->
    w_readdir W
      (tr ++ [EvAccess (sourceDir args) true; EvMkdir (outputDir args)])%list
      (sourceDir args) = Some entries ->
    let files := iterateFiles (sourceDir args) entries false in
    exists sums tr',
      main W argv tr
      = (Ok (Done (List.length files)
                  (List.length (filter has_errors sums)) sums), tr')
      /\ map file sums = files.
Proof.
  intros W argv args tr entries Ha Hacc Hmk Htmp Hrd files.
  unfold main. rewrite Ha.
  unfold try_catch, mainBody, bind at 1, exists_ at 1. rewrite Hacc.
  cbn [negb]. unfold bind at 1. unfold mkdir at 1. rewrite Hmk.
  unfold bind at 1. unfold readdir at 1. rewrite <- app_assoc. cbn [app].
  rewrite Hrd.
  destruct (@processAll_total W (detectTools W) args Htmp files
              ((tr ++ [EvAccess (sourceDir args) true;
                       EvMkdir (outputDir args)])
               ++ [EvReaddir (sourceDir args)])%list)
    as (sums & tr' & E & Hmap).
  unfold bind at 1. fold files. rewrite E. unfold ret.
  exists sums, tr'. split; [|exact Hmap].
  subst files. rewrite <- Hmap, length_map. reflexivity.
Qed.

(* ================================================================== *)
(** * The further properties on sample runs *)

(** [--quality 80.5] is accepted and rounded to 81. *)
Lemma parseArgs_quality_in_range_witness :
  exists args,
    parseArgs only_ffmpeg quality_argv = Ok args
    /\ quality args = 81 /\ 1 <= quality args <= 100.
Proof.
  eexists. split; [vm_compute; reflexivity|]. split; [reflexivity|].
  refine (proj1 (@parseArgs_quality_in_range only_ffmpeg quality_argv _ _)).
  vm_compute. reflexivity.
Defined.

(** Three plain arguments: the third is ignored. *)
Lemma parseArgs_without_options_witness :
  parseArgs only_ffmpeg ["node"; "heic_to_jpg_converter.js"; "in"; "out"; "more"]
  = Ok {| debug := false; quality := 95; recursive := false; dryRun := false;
          sourceDir := "in"; outputDir := "out" |}.
Proof.
  exact (@parseArgs_without_options only_ffmpeg
           ["node"; "heic_to_jpg_converter.js"; "in"; "out"; "more"] eq_refl).
Defined.

(** [--quality 0] after the two directories. *)
Lemma parseArgs_rejects_bad_quality_witness :
  exists e,
    parseArgs only_ffmpeg
      ["node"; "heic_to_jpg_converter.js"; "in"; "out"; "--quality"; "0"]
    = Throw e.
Proof.
  apply (@parseArgs_rejects_bad_quality only_ffmpeg
           ["node"; "heic_to_jpg_converter.js"; "in"; "out"; "--quality"; "0"]
           ["in"; "out"] ["0"]).
  - reflexivity.
  - vm_compute. reflexivity.
Defined.

(** The marker [aa] occurs twice in [aaa], at overlapping offsets. *)
Lemma bytesIndexAll_finds_every_occurrence_witness :
  bytesIndexAll (list_byte_of_string "aaa") "aa" = [0; 1]%nat
  /\ (forall j, In j (bytesIndexAll (list_byte_of_string "aaa") "aa")
                <-> occurs_at (list_byte_of_string "aa")
                      (list_byte_of_string "aaa") j)
  /\ StronglySorted lt (bytesIndexAll (list_byte_of_string "aaa") "aa").
Proof.
  split; [reflexivity|].
  apply (@bytesIndexAll_finds_every_occurrence (list_byte_of_string "aaa") "aa").
  discriminate.
Defined.

(** A dry run on a motion photo, with ffprobe and ffmpeg installed. *)
Lemma processOne_dry_run_converts_nothing_witness :
  exists s evs,
    processOne motion_found (detectTools motion_found) "in/a.heic" "out" 95
      true []
    = (Ok s, ([] ++ EvMkdtemp "/tmp/heic2jpg-"
                 :: evs ++ [EvRm "/tmp/heic2jpg-XXXXXX"])%list)
    /\ Forall (dry_footprint (detectTools motion_found)
                 "/tmp/heic2jpg-XXXXXX" "in/a.heic") evs
    /\ errors s = []
    /\ exists more, steps s = "dry-run: skip still conversion" :: more.
Proof.
  apply (@processOne_dry_run_converts_nothing motion_found
           (detectTools motion_found) "in/a.heic" "out" 95 []
           "/tmp/heic2jpg-XXXXXX").
  reflexivity.
Defined.

(** Only ffmpeg is installed: the frame is extracted, and rejected as 0x0. *)
Lemma processOne_without_exiftool_reports_failure_witness :
  exists s tr',
    processOne only_ffmpeg (detectTools only_ffmpeg) "in/a.heic" "out" 95
      false []
    = (Ok s, tr')
    /\ ((exists failures,
            steps s = [] /\ errors s = [still_failed_message failures])
        \/ (exists m,
               steps s = ["still: " ++ m]
               /\ errors s = ["implausible dimensions 0x0"])).
Proof.
  do 2 eexists. split; [vm_compute; reflexivity|].
  eapply (@processOne_without_exiftool_reports_failure only_ffmpeg
            (detectTools only_ffmpeg) "in/a.heic" "out" 95 []).
  - reflexivity.
  - vm_compute. reflexivity.
Defined.

(** The still path completes, then the source cannot be read. *)
Lemma processOne_unreadable_source_records_no_error_witness :
  exists s tr3,
    processOne unreadable (detectTools unreadable) "in/a.heic" "out" 95 false []
    = (Ok s, (tr3 ++ [EvReadFile "in/a.heic";
                       EvRm "/tmp/heic2jpg-XXXXXX"])%list)
    /\ errors s = []
    /\ has_errors s = false
    /\ exists m meta, steps s = ["still: " ++ m; "metadata: " ++ meta].
Proof.
  do 2 eexists.
  eapply (@processOne_unreadable_source_records_no_error unreadable
            (detectTools unreadable) "in/a.heic" "out" 95 []);
    vm_compute; reflexivity.
Defined.

(** A dry run over a directory with one motion photo. *)
Lemma main_dry_run_reports_no_failure_witness :
  exists count failures sums tr',
    main motion_found dry_run_argv [] = (Ok (Done count failures sums), tr')
    /\ failures = 0%nat /\ Forall (fun s => errors s = []) sums.
Proof.
  do 4 eexists. split; [vm_compute; reflexivity|].
  eapply (@main_dry_run_reports_no_failure motion_found dry_run_argv _ []).
  - vm_compute. reflexivity.
  - reflexivity.
  - vm_compute. reflexivity.
Defined.

(** [a.heic] and [a.HEIF] of one directory both go to [out/a.jpg]. *)
Lemma same_stem_same_outputs_witness :
  exists s1 s2 tr1 tr2,
    processOne motion_found (detectTools motion_found) "in/a.heic" "out" 95
      true [] = (Ok s1, tr1)
    /\ processOne motion_found (detectTools motion_found) "in/a.HEIF" "out" 95
         true [] = (Ok s2, tr2)
    /\ jpgOut s1 = "out/a.jpg" /\ mp4Out s1 = "out/a.mp4"
    /\ jpgOut s2 = jpgOut s1 /\ mp4Out s2 = mp4Out s1.
Proof.
  do 4 eexists. split; [vm_compute; reflexivity|].
  split; [vm_compute; reflexivity|].
  eapply (@same_stem_same_outputs motion_found (detectTools motion_found)
            "in" "out" "a" "heic" "HEIF" 95 true [] []);
    try (vm_compute; reflexivity);
    try discriminate;
    unfold lacks; simpl; intuition discriminate.
Defined.

(** ImageMagick cannot decode the one file of the directory: the run still
    ends with its report, which counts 1 file and 1 failure. *)
Lemma main_reports_despite_failures_witness :
  exists sums tr',
    main still_fails ["node"; "heic_to_jpg_converter.js"; "in"; "out"] []
    = (Ok (Done 1 (List.length (filter has_errors sums)) sums), tr')
    /\ map file sums = ["in/a.heic"]
    /\ List.length (filter has_errors sums) = 1%nat.
Proof.
  destruct (@main_reports_despite_failures still_fails
              ["node"; "heic_to_jpg_converter.js"; "in"; "out"]
              {| debug := false; quality := 95; recursive := false;
                 dryRun := false; sourceDir := "in"; outputDir := "out" |}
              []
              [File "a.heic"; Dir "sub" [File "b.heic"]; File "notes.txt"])
    as (sums & tr' & E & Hmap);
    try reflexivity; try discriminate.
  exists sums, tr'. split; [exact E|]. split; [exact Hmap|].
  assert (Hsums : exists s, sums = [s] /\ has_errors s = true).
  { vm_compute in E. injection E as _ Hs _. eexists. split; [symmetry; exact Hs|].
    reflexivity. }
  destruct Hsums as (s & -> & Hs). simpl. now rewrite Hs.
Defined.

(** The only marker of [plain_photo] is the primary one, at offset 4. *)
Lemma plain_heic_is_not_probed_witness :
  detectEmbeddedVideo plain (detectTools plain) "in/a.heic"
    "/tmp/heic2jpg-XXXXXX" []
  = (Ok (DetFail "no_candidates"), [EvReadFile "in/a.heic"]).
Proof.
  apply (@plain_heic_is_not_probed plain (detectTools plain) "in/a.heic"
           "/tmp/heic2jpg-XXXXXX" [] plain_photo "ffprobe").
  - reflexivity.
  - reflexivity.
  - intros i Hi. apply (proj1 (bytesIndexAll_spec plain_photo)) in Hi.
    vm_compute in Hi. destruct Hi as [<- | []]. left. lia.
Defined.

(** The slice at offset 20 of [motion_photo] is accepted, and there is no
    ffmpeg to normalise it with. *)
Lemma motion_video_without_ffmpeg_witness :
  exists s' step tr1 tmp,
    motionPath no_ffmpeg (detectTools no_ffmpeg) "/tmp/heic2jpg-XXXXXX" false
      (initialSummary "in/a.heic" "out") []
    = (Ok (s', None), (tr1 ++ [EvUnlink tmp])%list)
    /\ steps s' = [step]
    /\ errors s' = ["mp4 normalize failed: ffmpeg_missing"].
Proof.
  edestruct (@motion_video_without_ffmpeg no_ffmpeg (detectTools no_ffmpeg)
               "/tmp/heic2jpg-XXXXXX" (initialSummary "in/a.heic" "out") [])
    as (s' & step & E & Hst & Her);
    [reflexivity | reflexivity | vm_compute; reflexivity |].
  exists s', step. do 2 eexists. split; [exact E|]. split; assumption.
Defined.

(** [--dry-run] after the two directories. *)
Lemma parseArgs_switches_anywhere_witness :
  exists args,
    parseArgs only_ffmpeg dry_run_argv = Ok args
    /\ dryRun args = true /\ debug args = false.
Proof.
  eexists. split; [vm_compute; reflexivity|].
  destruct (@parseArgs_switches_anywhere only_ffmpeg dry_run_argv _
              ltac:(vm_compute; reflexivity)) as [Hdbg Hdry].
  split; [|reflexivity].
  apply (proj2 Hdry). simpl. do 2 right. left. reflexivity.
Defined.
